(** * saikyou_note: the retry wrapper, the local mirror and the note handlers

    A shallow embedding of [js/app.js].  The program is a single-page
    application: its module-level [let] variables become the fields of a
    [State] record, every handler becomes a state transformer, and the
    collaborators imported from [firebase-config.js] (the remote document
    store) are the methods of a type class over an abstract [World].

    Conventions of the embedding.
    - An [async] handler runs from its call to its end without another
      handler in between: [await] is sequencing.
    - A JavaScript string is the list of its UTF-16 code units, so that
      [length] is the program's [.length].
    - A note has the fields that [handleRegister] gives it, with their
      types; [MissCount] is an integer, and adding 1 to it rounds as the
      numbers of the program do.
    - A promise is known by the time at which it settles; the timer of
      [fetchWithTimeout] wins the race against a promise that settles in
      the same millisecond.
    - What the program does to the page (toasts, the loading overlay, the
      modal, console output) is recorded in order in the [effects] field;
      each call [operation()] made by [withRetry] is recorded there too.
    - Note objects live in a store and the program's variables hold
      references into it, as in JavaScript.
    - [JSON.stringify] and [JSON.parse] of the host are functions on code
      units; the parser has fuel, twice the length of the text and two
      more, which is more than any text needs. *)

From Stdlib Require Import ZArith NArith List String Ascii Lia Bool.
From Stdlib Require Import DecimalFacts DecimalN.
From Stdlib Require Import Sorted.
From Equations Require Import Equations.
From stdpp Require Import base list option numbers.

Local Open Scope nat_scope.

(** ** Strings *)

Definition jsstring := list N.

(** The code units of a literal written in ASCII. *)
Definition js (s : string) : jsstring :=
  map N_of_ascii (list_ascii_of_string s).

(** [WhiteSpace] and [LineTerminator] of ECMAScript, which [trim] strips. *)
Definition is_js_whitespace (c : N) : bool :=
  ((9 <=? c) && (c <=? 13) || (c =? 32) || (c =? 160) || (c =? 5760)
   || (8192 <=? c) && (c <=? 8202) || (c =? 8232) || (c =? 8233)
   || (c =? 8239) || (c =? 8287) || (c =? 12288) || (c =? 65279))%N.

Fixpoint trimStart (s : jsstring) : jsstring :=
  match s with
  | c :: s' => if is_js_whitespace c then trimStart s' else s
  | [] => []
  end.

Definition trimEnd (s : jsstring) : jsstring := rev (trimStart (rev s)).

(** [String.prototype.trim]. *)
Definition trim (s : jsstring) : jsstring := trimEnd (trimStart s).

(** [!s] on a string: only the empty string is falsy. *)
Definition falsy (s : jsstring) : bool :=
  match s with [] => true | _ => false end.

(** [a === b] on strings. *)
Definition str_eq (a b : jsstring) : bool := bool_decide (a = b).

(** ** JSON, as the host implements it *)

Module JSON.

(** A JSON value.  A number written without fraction and exponent is an
    integer; any other number is kept in its spelling. *)
#[warnings="-register-all"]
Inductive json :=
| JNull
| JBool (b : bool)
| JNumber (z : Z)
| JDecimal (spelling : jsstring)
| JString (s : jsstring)
| JArray (items : list json)
| JObject (members : list (jsstring * json)).

(** *** [JSON.stringify] *)

Fixpoint uint_units (d : Decimal.uint) : jsstring :=
  match d with
  | Decimal.Nil => []
  | Decimal.D0 d => 48%N :: uint_units d
  | Decimal.D1 d => 49%N :: uint_units d
  | Decimal.D2 d => 50%N :: uint_units d
  | Decimal.D3 d => 51%N :: uint_units d
  | Decimal.D4 d => 52%N :: uint_units d
  | Decimal.D5 d => 53%N :: uint_units d
  | Decimal.D6 d => 54%N :: uint_units d
  | Decimal.D7 d => 55%N :: uint_units d
  | Decimal.D8 d => 56%N :: uint_units d
  | Decimal.D9 d => 57%N :: uint_units d
  end.

Definition number_text (z : Z) : jsstring :=
  if (z <? 0)%Z then 45%N :: uint_units (N.to_uint (Z.abs_N z))
  else uint_units (N.to_uint (Z.abs_N z)).

Definition hex_unit (n : N) : N :=
  (if n <? 10 then 48 + n else 87 + n)%N.

(** [\uXXXX], in lower case as [JSON.stringify] writes it. *)
Definition unicode_escape (c : N) : jsstring :=
  [92; 117; hex_unit (c / 4096); hex_unit ((c / 256) mod 16);
   hex_unit ((c / 16) mod 16); hex_unit (c mod 16)]%N.

Definition is_high_surrogate (c : N) : bool :=
  ((55296 <=? c) && (c <=? 56319))%N.
Definition is_low_surrogate (c : N) : bool :=
  ((56320 <=? c) && (c <=? 57343))%N.

(** The inside of [QuoteJSONString]: the short escapes, [\u00XX] for the
    other control characters, [\uDXXX] for a surrogate that has no
    partner, every other code unit as it is. *)
Fixpoint quote_units (s : jsstring) : jsstring :=
  match s with
  | [] => []
  | c :: s' =>
      if (c =? 8)%N then 92%N :: 98%N :: quote_units s'
      else if (c =? 9)%N then 92%N :: 116%N :: quote_units s'
      else if (c =? 10)%N then 92%N :: 110%N :: quote_units s'
      else if (c =? 12)%N then 92%N :: 102%N :: quote_units s'
      else if (c =? 13)%N then 92%N :: 114%N :: quote_units s'
      else if (c =? 34)%N then 92%N :: 34%N :: quote_units s'
      else if (c =? 92)%N then 92%N :: 92%N :: quote_units s'
      else if (c <? 32)%N then unicode_escape c ++ quote_units s'
      else if is_high_surrogate c then
        match s' with
        | d :: s'' =>
            if is_low_surrogate d then c :: d :: quote_units s''
            else unicode_escape c ++ quote_units s'
        | [] => unicode_escape c
        end
      else if is_low_surrogate c then unicode_escape c ++ quote_units s'
      else c :: quote_units s'
  end.

Definition quote (s : jsstring) : jsstring :=
  34%N :: quote_units s ++ [34%N].

Fixpoint stringify (j : json) : jsstring :=
  match j with
  | JNull => js "null"
  | JBool true => js "true"
  | JBool false => js "false"
  | JNumber z => number_text z
  | JDecimal spelling => spelling
  | JString s => quote s
  | JArray items =>
      91%N ::
      (fix elements (l : list json) : jsstring :=
         match l with
         | [] => [93%N]
         | v :: l' =>
             stringify v ++
             match l' with
             | [] => [93%N]
             | _ :: _ => 44%N :: elements l'
             end
         end) items
  | JObject members =>
      123%N ::
      (fix pairs (l : list (jsstring * json)) : jsstring :=
         match l with
         | [] => [125%N]
         | (k, v) :: l' =>
             quote k ++ 58%N :: stringify v ++
             match l' with
             | [] => [125%N]
             | _ :: _ => 44%N :: pairs l'
             end
         end) members
  end.

(** *** [JSON.parse] *)

Definition is_ws (c : N) : bool :=
  ((c =? 32) || (c =? 9) || (c =? 10) || (c =? 13))%N.

Fixpoint skip_ws (s : jsstring) : jsstring :=
  match s with
  | c :: s' => if is_ws c then skip_ws s' else s
  | [] => []
  end.

Definition is_digit (c : N) : bool := ((48 <=? c) && (c <=? 57))%N.

(** The longest prefix of digits, and what follows it. *)
Fixpoint span_digits (s : jsstring) : jsstring * jsstring :=
  match s with
  | c :: s' =>
      if is_digit c then let (ds, r) := span_digits s' in (c :: ds, r)
      else ([], s)
  | [] => ([], [])
  end.

Fixpoint units_uint (ds : jsstring) : Decimal.uint :=
  match ds with
  | [] => Decimal.Nil
  | c :: ds' =>
      let d := units_uint ds' in
      if (c =? 48)%N then Decimal.D0 d
      else if (c =? 49)%N then Decimal.D1 d
      else if (c =? 50)%N then Decimal.D2 d
      else if (c =? 51)%N then Decimal.D3 d
      else if (c =? 52)%N then Decimal.D4 d
      else if (c =? 53)%N then Decimal.D5 d
      else if (c =? 54)%N then Decimal.D6 d
      else if (c =? 55)%N then Decimal.D7 d
      else if (c =? 56)%N then Decimal.D8 d
      else Decimal.D9 d
  end.

(** The integer part of a number: [0], or digits that do not start with
    [0]. *)
Definition int_part_ok (ds : jsstring) : bool :=
  match ds with
  | [] => false
  | [_] => true
  | c :: _ => negb (c =? 48)%N
  end.

(** [prefix] taken off the front of [s], when [s] starts with it. *)
Fixpoint strip (prefix s : jsstring) : option jsstring :=
  match prefix, s with
  | [], _ => Some s
  | p :: prefix', c :: s' => if (p =? c)%N then strip prefix' s' else None
  | _ :: _, [] => None
  end.

(** The optional fraction: nothing, or [.] and at least one digit. *)
Definition parse_fraction (s : jsstring) : option (jsstring * jsstring) :=
  match s with
  | c :: s' =>
      if (c =? 46)%N then
        let (ds, r) := span_digits s' in
        match ds with [] => None | _ => Some (c :: ds, r) end
      else Some ([], s)
  | [] => Some ([], [])
  end.

(** The optional exponent: nothing, or [e] or [E], an optional sign and at
    least one digit. *)
Definition parse_exponent (s : jsstring) : option (jsstring * jsstring) :=
  match s with
  | c :: s' =>
      if ((c =? 101) || (c =? 69))%N then
        let (sign, s'') :=
          match s' with
          | d :: t => if ((d =? 43) || (d =? 45))%N then ([d], t) else ([], s')
          | [] => ([], s')
          end in
        let (ds, r) := span_digits s'' in
        match ds with [] => None | _ => Some (c :: sign ++ ds, r) end
      else Some ([], s)
  | [] => Some ([], [])
  end.

Definition parse_number (s : jsstring) : option (json * jsstring) :=
  let (minus, s1) :=
    match s with
    | c :: s' => if (c =? 45)%N then (true, s') else (false, s)
    | [] => (false, s)
    end in
  let (ds, s2) := span_digits s1 in
  if int_part_ok ds then
    '(frac, s3) ← parse_fraction s2;
    '(exp, s4) ← parse_exponent s3;
    match frac, exp with
    | [], [] =>
        let n := Z.of_N (N.of_uint (units_uint ds)) in
        Some (JNumber (if minus then (- n)%Z else n), s4)
    | _, _ =>
        Some (JDecimal ((if minus then [45%N] else []) ++ ds ++ frac ++ exp),
              s4)
    end
  else None.

Definition hex_value (c : N) : option N :=
  (if is_digit c then Some (c - 48)
   else if (97 <=? c) && (c <=? 102) then Some (c - 87)
   else if (65 <=? c) && (c <=? 70) then Some (c - 55)
   else None)%N.

(** The code unit that a one-letter escape stands for. *)
Definition simple_escape (c : N) : option N :=
  (if c =? 34 then Some 34
   else if c =? 92 then Some 92
   else if c =? 47 then Some 47
   else if c =? 98 then Some 8
   else if c =? 102 then Some 12
   else if c =? 110 then Some 10
   else if c =? 114 then Some 13
   else if c =? 116 then Some 9
   else None)%N.

(** A string after its opening quote, up to and including the closing
    quote. *)
Fixpoint parse_string_body (s : jsstring) : option (jsstring * jsstring) :=
  match s with
  | [] => None
  | c :: s' =>
      if (c =? 34)%N then Some ([], s')
      else if (c =? 92)%N then
        match s' with
        | e :: s'' =>
            if (e =? 117)%N then
              match s'' with
              | h1 :: h2 :: h3 :: h4 :: s3 =>
                  a ← hex_value h1; b ← hex_value h2;
                  c' ← hex_value h3; d ← hex_value h4;
                  '(str, r) ← parse_string_body s3;
                  Some ((a * 4096 + b * 256 + c' * 16 + d)%N :: str, r)
              | _ => None
              end
            else
              u ← simple_escape e;
              '(str, r) ← parse_string_body s'';
              Some (u :: str, r)
        | [] => None
        end
      else if (c <? 32)%N then None
      else '(str, r) ← parse_string_body s'; Some (c :: str, r)
  end.

(** One expected character, after optional white space. *)
Definition eat (c : N) (s : jsstring) : option jsstring :=
  match skip_ws s with
  | d :: r => if (d =? c)%N then Some r else None
  | [] => None
  end.

Fixpoint parse_value (fuel : nat) (s : jsstring) : option (json * jsstring) :=
  match fuel with
  | 0 => None
  | S fuel =>
      match skip_ws s with
      | [] => None
      | c :: s' =>
          if (c =? 34)%N then
            '(str, r) ← parse_string_body s'; Some (JString str, r)
          else if (c =? 91)%N then
            match eat 93 s' with
            | Some r => Some (JArray [], r)
            | None => '(items, r) ← parse_elements fuel s';
                      Some (JArray items, r)
            end
          else if (c =? 123)%N then
            match eat 125 s' with
            | Some r => Some (JObject [], r)
            | None => '(members, r) ← parse_members fuel s';
                      Some (JObject members, r)
            end
          else if (c =? 45)%N || is_digit c then parse_number (c :: s')
          else
            match strip (js "true") (c :: s') with
            | Some r => Some (JBool true, r)
            | None =>
                match strip (js "false") (c :: s') with
                | Some r => Some (JBool false, r)
                | None => r ← strip (js "null") (c :: s'); Some (JNull, r)
                end
            end
      end
  end
with parse_elements (fuel : nat) (s : jsstring)
  : option (list json * jsstring) :=
  match fuel with
  | 0 => None
  | S fuel =>
      '(v, r) ← parse_value fuel s;
      match eat 44 r with
      | Some r' => '(vs, r'') ← parse_elements fuel r'; Some (v :: vs, r'')
      | None => r' ← eat 93 r; Some ([v], r')
      end
  end
with parse_members (fuel : nat) (s : jsstring)
  : option (list (jsstring * json) * jsstring) :=
  match fuel with
  | 0 => None
  | S fuel =>
      r0 ← eat 34 s;
      '(k, r1) ← parse_string_body r0;
      r2 ← eat 58 r1;
      '(v, r3) ← parse_value fuel r2;
      match eat 44 r3 with
      | Some r4 => '(ms, r5) ← parse_members fuel r4; Some ((k, v) :: ms, r5)
      | None => r4 ← eat 125 r3; Some ([(k, v)], r4)
      end
  end.

(** [JSON.parse(text)]: the value, or [None] where the host throws a
    [SyntaxError]. *)
Definition parse (text : jsstring) : option json :=
  '(j, r) ← parse_value (2 * length text + 2) text;
  match skip_ws r with
  | [] => Some j
  | _ :: _ => None
  end.

(** *** What the proofs about the two need *)

(** What may follow a number without being read as part of it. *)
Definition delimited (rest : jsstring) : Prop :=
  match rest with
  | [] => True
  | c :: _ => is_digit c = false /\ c <> 46%N /\ c <> 101%N /\ c <> 69%N
  end.

(** What the parser does with the rest of a string once it has read the
    code unit [c]. *)
Definition cons_unit (c : N) (r : option (jsstring * jsstring))
  : option (jsstring * jsstring) :=
  '(str, rest) ← r; Some (c :: str, rest).

(** The values that [stringify] writes from integers, strings, booleans
    and [null]: those without a number kept in its spelling. *)
Fixpoint plain (j : json) : bool :=
  match j with
  | JDecimal _ => false
  | JArray items => forallb plain items
  | JObject members => forallb (fun kv => plain kv.2) members
  | _ => true
  end.

(** The text of an array after its opening bracket. *)
Definition array_tail : list json -> jsstring :=
  fix elements (l : list json) : jsstring :=
    match l with
    | [] => [93%N]
    | v :: l' =>
        stringify v ++
        match l' with
        | [] => [93%N]
        | _ :: _ => 44%N :: elements l'
        end
    end.

(** The text of an object after its opening brace. *)
Definition object_tail : list (jsstring * json) -> jsstring :=
  fix pairs (l : list (jsstring * json)) : jsstring :=
    match l with
    | [] => [125%N]
    | (k, v) :: l' =>
        quote k ++ 58%N :: stringify v ++
        match l' with
        | [] => [125%N]
        | _ :: _ => 44%N :: pairs l'
        end
    end.

(** Fuel that is enough to parse the text of a value. *)
Fixpoint weight (j : json) : nat :=
  match j with
  | JArray items =>
      S ((fix sum (l : list json) : nat :=
            match l with
            | [] => 0
            | v :: l' => S (weight v) + sum l'
            end) items)
  | JObject members =>
      S ((fix sum (l : list (jsstring * json)) : nat :=
            match l with
            | [] => 0
            | (_, v) :: l' => S (weight v) + sum l'
            end) members)
  | _ => 1
  end.

Definition items_weight : list json -> nat :=
  fix sum (l : list json) : nat :=
    match l with
    | [] => 0
    | v :: l' => S (weight v) + sum l'
    end.

Definition members_weight : list (jsstring * json) -> nat :=
  fix sum (l : list (jsstring * json)) : nat :=
    match l with
    | [] => 0
    | (_, v) :: l' => S (weight v) + sum l'
    end.

(** The first code unit of the text of a value. *)
Definition opens_value (c : N) : Prop :=
  is_ws c = false /\ c <> 93%N /\ c <> 125%N.

(** The statement of the round trip for one value. *)
Definition reads_back (j : json) : Prop :=
  forall fuel rest, weight j <= fuel -> delimited rest ->
    parse_value fuel (stringify j ++ rest) = Some (j, rest).

End JSON.

(** ** Constants *)

Definition TIMEOUT_MS : N := 10000.
Definition MAX_RETRY : nat := 3.
Definition TITLE_MAX_LENGTH : nat := 50.
Definition CONTENT_MAX_LENGTH : nat := 999.

(** The keys of [ERROR_CODES]; [showError] is only ever called on these. *)
Inductive ErrorCode :=
| E001 | E002 | E003 | E004 | E005 | E006 | E007
| E008 | E009 | E010 | E011 | E012 | E013.

(** The texts handed to [showLoading]. *)
Inductive LoadingText :=
| LoadingDefault | LoggingIn | LoadingData | RetryingText
| Registering | Updating | Deleting | LoggingOut | Initializing.

(** ** Errors, completions, promises *)

Record JsError := mkError { name : jsstring; message : jsstring }.

(** [new Error(m)]. *)
Definition Error (m : jsstring) : JsError :=
  {| name := js "Error"; message := m |}.

#[export] Instance JsError_eq_dec : EqDecision JsError.
Proof. solve_decision. Defined.

(** How a call ends: with a value, or with a thrown value. *)
Inductive Completion (A : Type) :=
| Return (v : A)
| Throw (e : JsError).
Arguments Return {A} v.
Arguments Throw {A} e.

(** A promise, by how it settles: fulfilled or rejected [ms] milliseconds
    after it was created, or never. *)
Inductive Promise (A : Type) :=
| Fulfills (ms : N) (v : A)
| Rejects (ms : N) (e : JsError)
| Pending.
Arguments Fulfills {A} ms v.
Arguments Rejects {A} ms e.
Arguments Pending {A}.

(** [fetchWithTimeout]: [Promise.race] of the promise against a timer that
    rejects with [Error('timeout')] after [timeout] milliseconds.  A promise
    that settles in the very millisecond of the timer loses the race. *)
Definition fetchWithTimeout {A} (promise : Promise A) (timeout : N)
  : Completion A :=
  match promise with
  | Fulfills ms v => if (ms <? timeout)%N then Return v
                     else Throw (Error (js "timeout"))
  | Rejects ms e => if (ms <? timeout)%N then Throw e
                    else Throw (Error (js "timeout"))
  | Pending => Throw (Error (js "timeout"))
  end.


(** The timer of [fetchWithTimeout], set to [TIMEOUT_MS], fires before the
    promise settles. *)
Definition timed_out {A} (promise : Promise A) : Prop :=
  match promise with
  | Fulfills ms _ | Rejects ms _ => (TIMEOUT_MS <= ms)%N
  | Pending => True
  end.

(** ** Notes and the object store *)

(** The fields of a note document, as [handleRegister] writes them. *)
Record Fields := mkFields {
  Title : jsstring;
  Question : jsstring;
  Answer : jsstring;
  Explain : jsstring;
  Date : jsstring;
  MissCount : Z;
  uid : jsstring
}.

(** A note of [notesData]: the document's fields and its [id]. *)
Record Note := mkNote {
  id : jsstring;
  data :> Fields
}.

#[export] Instance Fields_eq_dec : EqDecision Fields.
Proof. solve_decision. Defined.

#[export] Instance Note_eq_dec : EqDecision Note.
Proof. solve_decision. Defined.

#[export] Instance Note_inhabited : Inhabited Note :=
  populate (mkNote [] (mkFields [] [] [] [] [] 0 [])).

(** [{ ...note, ...updatedData }] for the [updatedData] of [handleEdit]. *)
Definition merge (note : Note) (title question answer explain : jsstring)
  : Note :=
  {| id := id note;
     data := {| Title := title; Question := question; Answer := answer;
                Explain := explain; Date := Date note;
                MissCount := MissCount note; uid := uid note |} |}.

(** [note.MissCount = m]. *)
Definition with_MissCount (m : Z) (note : Note) : Note :=
  {| id := id note;
     data := {| Title := Title note; Question := Question note;
                Answer := Answer note; Explain := Explain note;
                Date := Date note; MissCount := m; uid := uid note |} |}.

(** *** Numbers

    The numbers of the program are IEEE 754 binary64 values.  Every
    integer up to [2^53] in absolute value is one; beyond that the numbers
    are the multiples of [2^e], for [e] the exponent of the integer less
    52.  [to_number n] is the number that the integer [n] is rounded to:
    the nearest one, and of two nearest the one whose multiple is even.
    For a number [x], the sum [x + 1] of the program is
    [to_number (x + 1)]. *)
Definition to_number (n : Z) : Z :=
  if (Z.abs n <=? 9007199254740992)%Z then n
  else
    let ulp := (2 ^ (Z.log2 (Z.abs n) - 52))%Z in
    let q := (n / ulp)%Z in
    let r := (n mod ulp)%Z in
    if (2 * r <? ulp)%Z then (q * ulp)%Z
    else if (ulp <? 2 * r)%Z then ((q + 1) * ulp)%Z
    else if Z.even q then (q * ulp)%Z
    else ((q + 1) * ulp)%Z.


(** The second argument of [updateDoc]: the object of [handleEdit] or the
    one of [handleMissMark]. *)
Inductive Update :=
| TextUpdate (title question answer explain : jsstring)
| MissUpdate (missCount : Z).

(** *** Notes as JSON

    The members are written in one fixed order; JavaScript writes them in
    the order in which the object got them, and reads them back in any
    order, as [note_of_json] does. *)
Definition note_to_json (n : Note) : JSON.json :=
  JSON.JObject
    [(js "id", JSON.JString (id n));
     (js "Title", JSON.JString (Title n));
     (js "Question", JSON.JString (Question n));
     (js "Answer", JSON.JString (Answer n));
     (js "Explain", JSON.JString (Explain n));
     (js "Date", JSON.JString (Date n));
     (js "MissCount", JSON.JNumber (MissCount n));
     (js "uid", JSON.JString (uid n))].

Definition notes_to_json (ns : list Note) : JSON.json :=
  JSON.JArray (map note_to_json ns).

(** The member named [k]; of several, the last one, as [JSON.parse] keeps
    it. *)
Fixpoint member (k : jsstring) (members : list (jsstring * JSON.json))
  : option JSON.json :=
  match members with
  | [] => None
  | (k', v) :: members' =>
      match member k members' with
      | Some v' => Some v'
      | None => if str_eq k' k then Some v else None
      end
  end.

Definition string_member (k : jsstring) (ms : list (jsstring * JSON.json))
  : option jsstring :=
  match member k ms with
  | Some (JSON.JString s) => Some s
  | _ => None
  end.

Definition integer_member (k : jsstring) (ms : list (jsstring * JSON.json))
  : option Z :=
  match member k ms with
  | Some (JSON.JNumber z) => Some z
  | _ => None
  end.

(** The note that a parsed object is, when it has the fields of a note
    with the types of a note. *)
Definition note_of_json (j : JSON.json) : option Note :=
  match j with
  | JSON.JObject ms =>
      i ← string_member (js "id") ms;
      t ← string_member (js "Title") ms;
      q ← string_member (js "Question") ms;
      a ← string_member (js "Answer") ms;
      e ← string_member (js "Explain") ms;
      d ← string_member (js "Date") ms;
      m ← integer_member (js "MissCount") ms;
      u ← string_member (js "uid") ms;
      Some (mkNote i (mkFields t q a e d m u))
  | _ => None
  end.

Fixpoint notes_of_items (items : list JSON.json) : option (list Note) :=
  match items with
  | [] => Some []
  | j :: items' =>
      n ← note_of_json j;
      ns ← notes_of_items items';
      Some (n :: ns)
  end.

(** The array of notes that a parsed value is. *)
Definition notes_of_json (j : JSON.json) : option (list Note) :=
  match j with
  | JSON.JArray items => notes_of_items items
  | _ => None
  end.

(** A reference to a note object. *)
Definition ref := nat.

(** What the page did, in order. *)
Inductive Effect :=
| Toast (code : ErrorCode)          (* showError(code) *)
| ShowLoading (text : LoadingText)  (* showLoading(text) *)
| HideLoading                       (* hideLoading() *)
| Invoked                           (* operation() inside withRetry *)
| ConsoleError (e : JsError)        (* console.error(label, e) *)
| TitleErrorHidden                  (* #title-error hidden *)
| TitleErrorShown                   (* #title-error made visible *)
| DeleteErrorHidden                 (* #delete-error hidden *)
| DeleteErrorShown                  (* #delete-error made visible *)
| MissButtonDisabled (b : bool)     (* missBtn.disabled = b *)
| ModalClosed                       (* closeModal(true) *)
| ListRendered                      (* renderListContent() *)
| ProblemRendered (note : ref)      (* renderProblemContent(note) *)
| EmptyRendered                     (* random page, no notes *)
| CompleteRendered.                 (* random page, all notes shown *)

#[export] Instance ErrorCode_eq_dec : EqDecision ErrorCode.
Proof. solve_decision. Defined.

#[export] Instance LoadingText_eq_dec : EqDecision LoadingText.
Proof. solve_decision. Defined.

#[export] Instance Effect_eq_dec : EqDecision Effect.
Proof. solve_decision. Defined.

(** ** The collaborators: the remote store, the clock, the random source *)

(** A remote operation: calling it acts on the world and hands back a
    promise. *)
Definition Operation (World A : Type) := World -> Promise A * World.

Class Host (World : Type) := {
  (** [getDocs(query(collection(db, 'notes'), where('uid', '==', u)))];
      each document of the snapshot as its [id] and its [data()].  The
      documents that the program writes have no field [id] of their own,
      so [{ id: doc.id, ...doc.data() }] is the pair. *)
  getDocs : jsstring -> Operation World (list (jsstring * Fields));
  (** [addDoc(collection(db, 'notes'), fields)]; the [id] of the new
      document's reference. *)
  addDoc : Fields -> Operation World jsstring;
  (** [updateDoc(doc(db, 'notes', i), update)]. *)
  updateDoc : jsstring -> Update -> Operation World unit;
  (** [deleteDoc(doc(db, 'notes', i))]. *)
  deleteDoc : jsstring -> Operation World unit;
  (** [new Date().toISOString()]. *)
  toISOString : World -> jsstring;
  (** [Math.floor(Math.random() * n)], read modulo [n]. *)
  random_below : nat -> World -> nat * World
}.

(** ** The program state: the module-level variables, the object store,
    the value kept under [STORAGE_KEY] in [localStorage], the world outside
    the page, and the record of effects. *)
Section Program.

Context {World : Type} `{Host World}.

Record State := mkState {
  currentUser : option jsstring;      (* the signed-in user's uid, or null *)
  notesData : list ref;
  retryBlocked : bool;
  usedProblemIds : list jsstring;
  currentProblemId : option jsstring;
  missMarkUsed : bool;
  heap : list Note;
  localStorage : option jsstring;
  world : World;
  effects : list Effect
}.

Definition set_notesData (v : list ref) (st : State) : State :=
  mkState (currentUser st) v (retryBlocked st) (usedProblemIds st)
    (currentProblemId st) (missMarkUsed st) (heap st) (localStorage st)
    (world st) (effects st).
Definition set_retryBlocked (v : bool) (st : State) : State :=
  mkState (currentUser st) (notesData st) v (usedProblemIds st)
    (currentProblemId st) (missMarkUsed st) (heap st) (localStorage st)
    (world st) (effects st).
Definition set_usedProblemIds (v : list jsstring) (st : State) : State :=
  mkState (currentUser st) (notesData st) (retryBlocked st) v
    (currentProblemId st) (missMarkUsed st) (heap st) (localStorage st)
    (world st) (effects st).
Definition set_currentProblemId (v : option jsstring) (st : State) : State :=
  mkState (currentUser st) (notesData st) (retryBlocked st)
    (usedProblemIds st) v (missMarkUsed st) (heap st) (localStorage st)
    (world st) (effects st).
Definition set_missMarkUsed (v : bool) (st : State) : State :=
  mkState (currentUser st) (notesData st) (retryBlocked st)
    (usedProblemIds st) (currentProblemId st) v (heap st) (localStorage st)
    (world st) (effects st).
Definition set_heap (v : list Note) (st : State) : State :=
  mkState (currentUser st) (notesData st) (retryBlocked st)
    (usedProblemIds st) (currentProblemId st) (missMarkUsed st) v
    (localStorage st) (world st) (effects st).
Definition set_localStorage (v : option jsstring) (st : State) : State :=
  mkState (currentUser st) (notesData st) (retryBlocked st)
    (usedProblemIds st) (currentProblemId st) (missMarkUsed st) (heap st) v
    (world st) (effects st).
Definition set_world (v : World) (st : State) : State :=
  mkState (currentUser st) (notesData st) (retryBlocked st)
    (usedProblemIds st) (currentProblemId st) (missMarkUsed st) (heap st)
    (localStorage st) v (effects st).
Definition emit (e : Effect) (st : State) : State :=
  mkState (currentUser st) (notesData st) (retryBlocked st)
    (usedProblemIds st) (currentProblemId st) (missMarkUsed st) (heap st)
    (localStorage st) (world st) (effects st ++ [e]).

(** The object behind a reference. *)
Definition deref (st : State) (r : ref) : Note := heap st !!! r.

(** The notes of [notesData], in order. *)
Definition records (st : State) : list Note := deref st <$> notesData st.

Definition showError (code : ErrorCode) : State -> State := emit (Toast code).
Definition showLoading (text : LoadingText) : State -> State :=
  emit (ShowLoading text).
Definition hideLoading : State -> State := emit HideLoading.
Definition closeModal : State -> State := emit ModalClosed.
Definition renderListContent : State -> State := emit ListRendered.

(** ** The retry wrapper *)

(** [await fetchWithTimeout(operation())]. *)
Definition attempt {A} (operation : Operation World A) (st : State)
  : Completion A * State :=
  let (promise, w) := operation (world st) in
  (fetchWithTimeout promise TIMEOUT_MS, set_world w (emit Invoked st)).

(** A value together with the proof that it is the value of [x]. *)
Definition inspect {A : Type} (x : A) : { y : A | x = y } := exist _ x eq_refl.

(** The condition of the first [if] of the [catch] block. *)
Definition retry_test (error : JsError) (retryCount : nat) : bool :=
  str_eq (message error) (js "timeout") && (retryCount <? MAX_RETRY - 1).

Equations? withRetry {A} (operation : Operation World A) (retryCount : nat)
    (st : State) : Completion A * State
    by wf (MAX_RETRY - 1 - retryCount) lt :=
  withRetry operation retryCount st with retryBlocked st := {
    | true => (Throw (Error (js "Retry blocked")), showError E011 st)
    | false with attempt operation st := {
      | pair (Return v) st1 => (Return v, st1)
      | pair (Throw error) st1 with inspect (retry_test error retryCount) := {
        | exist _ true Hretry =>
            withRetry operation (retryCount + 1)
              (showLoading RetryingText (showError E010 st1))
        | exist _ false _ =>
            if MAX_RETRY - 1 <=? retryCount
            then (Throw error, showError E011 (set_retryBlocked true st1))
            else (Throw error, st1) } } }.
Proof.
  unfold retry_test in Hretry.
  apply andb_true_iff in Hretry as [_ Hlt].
  apply Nat.ltb_lt in Hlt. unfold MAX_RETRY in *. lia.
Qed.

(** ** The local mirror *)

(** [localStorage.setItem(STORAGE_KEY, JSON.stringify(data))]. *)
Definition saveToLocalStorage (data : list Note) (st : State) : State :=
  set_localStorage (Some (JSON.stringify (notes_to_json data))) st.

(** What [JSON.parse] throws. *)
Definition SyntaxError : JsError :=
  {| name := js "SyntaxError"; message := js "Unexpected token" |}.

(** [data ? JSON.parse(data) : []] on [localStorage.getItem(STORAGE_KEY)]. *)
Definition getFromLocalStorage (st : State) : Completion JSON.json :=
  match localStorage st with
  | None => Return (JSON.JArray [])
  | Some data =>
      if falsy data then Return (JSON.JArray [])
      else match JSON.parse data with
           | Some value => Return value
           | None => Throw SyntaxError
           end
  end.

(** [localStorage.removeItem(STORAGE_KEY)]. *)
Definition clearLocalStorage (st : State) : State :=
  set_localStorage None st.

(** New objects for [notes], and [notesData] the array of them. *)
Definition adopt (notes : list Note) (st : State) : State :=
  set_notesData (seq (length (heap st)) (length notes))
    (set_heap (heap st ++ notes) st).

(** ** The list page *)

(** What reading [currentUser.uid] throws when [currentUser] is [null]. *)
Definition TypeError : JsError :=
  {| name := js "TypeError";
     message := js "Cannot read properties of null (reading 'uid')" |}.

Definition loadNotesFromFirestore (st : State) : Completion unit * State :=
  match currentUser st with
  | None => (Throw TypeError, st)
  | Some u =>
      match withRetry (getDocs u) 0 st with
      | (Return snapshot, st1) =>
          let st2 :=
            adopt (map (fun doc => {| id := doc.1; data := doc.2 |}) snapshot)
              st1 in
          (Return tt, saveToLocalStorage (records st2) st2)
      | (Throw error, st1) => (Throw error, st1)
      end
  end.

(** [renderListPage].  The result is [None] when the mirror holds a value
    that parses but is no array of notes: such a value is outside what
    [notesData] of this embedding can hold. *)
Definition renderListPage (st : State) : option (Completion unit * State) :=
  let st := showLoading LoadingData st in
  match loadNotesFromFirestore st with
  | (Return _, st1) => Some (Return tt, renderListContent (hideLoading st1))
  | (Throw error, st1) =>
      let st2 := emit (ConsoleError error) st1 in
      match getFromLocalStorage st2 with
      | Throw e => Some (Throw e, st2)
      | Return value =>
          notes ← notes_of_json value;
          Some (Return tt, renderListContent (hideLoading (adopt notes st2)))
      end
  end.

(** ** Registering, editing, deleting *)

(** [notesData.findIndex(p)]; [None] is [-1]. *)
Fixpoint findIndex {A} (p : A -> bool) (l : list A) : option nat :=
  match l with
  | [] => None
  | x :: l' => if p x then Some 0 else S <$> findIndex p l'
  end.

(** The checks that [handleRegister] and [handleEdit] make before the title
    check; the code of the toast of the first one that fails. *)
Definition validate (title question answer explain : jsstring)
  : option ErrorCode :=
  if falsy title || falsy question || falsy answer then Some E007
  else if TITLE_MAX_LENGTH <? length title then Some E012
  else if (CONTENT_MAX_LENGTH <? length question)
          || (CONTENT_MAX_LENGTH <? length answer)
          || (CONTENT_MAX_LENGTH <? length explain) then Some E013
  else None.

(** [getCurrentDateTime]. *)
Definition getCurrentDateTime (st : State) : jsstring :=
  toISOString (world st).

(** [handleRegister], on the values of the four inputs of the modal. *)
Definition handleRegister (reg_title reg_question reg_answer reg_explain
    : jsstring) (st : State) : Completion unit * State :=
  let title := trim reg_title in
  let question := trim reg_question in
  let answer := trim reg_answer in
  let explain := trim reg_explain in
  let st := emit TitleErrorHidden st in
  match validate title question answer explain with
  | Some code => (Return tt, showError code st)
  | None =>
      if existsb (fun n : Note => str_eq (Title n) title) (records st) then
        (Return tt, showError E008 (emit TitleErrorShown st))
      else
        let st := showLoading Registering st in
        match currentUser st with
        | None => (Throw TypeError, st)
        | Some u =>
            let newNote :=
              {| Title := title; Question := question; Answer := answer;
                 Explain := explain; Date := getCurrentDateTime st;
                 MissCount := 0; uid := u |} in
            match withRetry (addDoc newNote) 0 st with
            | (Return docRef_id, st1) =>
                let st2 :=
                  set_notesData (notesData st1 ++ [length (heap st1)])
                    (set_heap (heap st1 ++ [mkNote docRef_id newNote]) st1) in
                let st3 := saveToLocalStorage (records st2) st2 in
                (Return tt, renderListContent (closeModal (hideLoading st3)))
            | (Throw error, st1) =>
                (Return tt,
                 hideLoading (showError E004 (emit (ConsoleError error) st1)))
            end
        end
  end.

(** [handleEdit(note)], on the values of the four inputs of the modal. *)
Definition handleEdit (note : ref)
    (edit_title edit_question edit_answer edit_explain : jsstring)
    (st : State) : State :=
  let title := trim edit_title in
  let question := trim edit_question in
  let answer := trim edit_answer in
  let explain := trim edit_explain in
  let st := emit TitleErrorHidden st in
  match validate title question answer explain with
  | Some code => showError code st
  | None =>
      if existsb
           (fun n : Note => str_eq (Title n) title
                            && negb (str_eq (id n) (id (deref st note))))
           (records st) then
        showError E008 (emit TitleErrorShown st)
      else
        let st := showLoading Updating st in
        match withRetry
                (updateDoc (id (deref st note))
                   (TextUpdate title question answer explain)) 0 st with
        | (Return _, st1) =>
            let st2 :=
              match findIndex
                      (fun n => str_eq (id n) (id (deref st1 note)))
                      (records st1) with
              | Some index =>
                  let updated :=
                    merge (deref st1 (notesData st1 !!! index))
                      title question answer explain in
                  let st2 :=
                    set_notesData
                      (<[index := length (heap st1)]> (notesData st1))
                      (set_heap (heap st1 ++ [updated]) st1) in
                  saveToLocalStorage (records st2) st2
              | None => st1
              end in
            renderListContent (closeModal (hideLoading st2))
        | (Throw error, st1) =>
            hideLoading (showError E005 (emit (ConsoleError error) st1))
        end
  end.

(** [handleDelete(note)], on the value of the confirmation input. *)
Definition handleDelete (note : ref) (delete_confirm_title : jsstring)
    (st : State) : State :=
  let confirmTitle := trim delete_confirm_title in
  let st := emit DeleteErrorHidden st in
  if negb (str_eq confirmTitle (Title (deref st note))) then
    showError E009 (emit DeleteErrorShown st)
  else
    let st := showLoading Deleting st in
    match withRetry (deleteDoc (id (deref st note))) 0 st with
    | (Return _, st1) =>
        let st2 :=
          set_notesData
            (List.filter
               (fun r => negb (str_eq (id (deref st1 r))
                                      (id (deref st1 note))))
               (notesData st1)) st1 in
        let st3 := saveToLocalStorage (records st2) st2 in
        renderListContent (closeModal (hideLoading st3))
    | (Throw error, st1) =>
        hideLoading (showError E006 (emit (ConsoleError error) st1))
    end.

(** ** The random page *)

(** [a === b] where [b] may be [null]. *)
Definition is_current (a : jsstring) (b : option jsstring) : bool :=
  match b with
  | Some b' => str_eq a b'
  | None => false
  end.

(** The [do ... while] of [renderRandomPage]; [fuel] bounds the number of
    draws, and [None] says that all of them gave the note on display. *)
Fixpoint draw (fuel : nat) (availableNotes : list ref) (st : State)
    (w : World) : option (ref * World) :=
  match fuel with
  | 0 => None
  | S fuel' =>
      let (k, w') := random_below (length availableNotes) w in
      let randomNote := availableNotes !!! (k mod length availableNotes) in
      if is_current (id (deref st randomNote)) (currentProblemId st)
      then draw fuel' availableNotes st w'
      else Some (randomNote, w')
  end.

(** The end of [renderRandomPage], once [randomNote] is chosen. *)
Definition present (randomNote : ref) (st : State) : State :=
  let i := id (deref st randomNote) in
  emit (ProblemRendered randomNote)
    (set_missMarkUsed false
       (set_usedProblemIds (usedProblemIds st ++ [i])
          (set_currentProblemId (Some i) st))).

(** [renderRandomPage]; with the state, the note whose page is shown, when
    one is. *)
Definition renderRandomPage (fuel : nat) (st : State)
  : option (option ref * State) :=
  match notesData st with
  | [] => Some (None, emit EmptyRendered st)
  | _ :: _ =>
      let availableNotes :=
        List.filter
          (fun r => negb (existsb (str_eq (id (deref st r)))
                            (usedProblemIds st)))
          (notesData st) in
      match availableNotes with
      | [] => Some (None, emit CompleteRendered (set_usedProblemIds [] st))
      | [randomNote] => Some (Some randomNote, present randomNote st)
      | _ :: _ :: _ =>
          '(randomNote, w) ← draw fuel availableNotes st (world st);
          Some (Some randomNote, present randomNote (set_world w st))
      end
  end.

(** [handleMissMark(note)].  [MissCount] is an integer here, so
    [note.MissCount || 0] is the count; the sum with 1 is a number, the
    count plus 1 rounded. *)
Definition handleMissMark (note : ref) (st : State) : State :=
  if missMarkUsed st then st
  else
    let st := set_missMarkUsed true (emit (MissButtonDisabled true) st) in
    let newMissCount := to_number (MissCount (deref st note) + 1) in
    match withRetry
            (updateDoc (id (deref st note)) (MissUpdate newMissCount))
            0 st with
    | (Return _, st1) =>
        match findIndex (fun n => str_eq (id n) (id (deref st1 note)))
                (records st1) with
        | Some index =>
            let target := notesData st1 !!! index in
            let st2 :=
              set_heap
                (<[target := with_MissCount newMissCount (deref st1 target)]>
                   (heap st1)) st1 in
            saveToLocalStorage (records st2) st2
        | None => st1
        end
    | (Throw error, st1) =>
        set_missMarkUsed false
          (emit (MissButtonDisabled false)
             (showError E005 (emit (ConsoleError error) st1)))
    end.

(** ** What the properties speak of *)

(** Every reference of [notesData] points to an object of the store, as
    every reference of a JavaScript program does. *)
Definition well_formed (st : State) : Prop :=
  Forall (fun r => r < length (heap st)) (notesData st).

(** No two notes of the collection have the same [id]. *)
Definition unique_ids (st : State) : Prop := NoDup (id <$> records st).

(** The two states differ at most in the breaker, the world and the
    page. *)
Definition same_data (st st' : State) : Prop :=
  currentUser st' = currentUser st /\
  notesData st' = notesData st /\
  usedProblemIds st' = usedProblemIds st /\
  currentProblemId st' = currentProblemId st /\
  missMarkUsed st' = missMarkUsed st /\
  heap st' = heap st /\
  localStorage st' = localStorage st.

(** How often [e] is among the effects [l]. *)
Definition count_effect (e : Effect) (l : list Effect) : nat :=
  length (List.filter (fun x => bool_decide (x = e)) l).

End Program.

Arguments State World : clear implicits.

(** ** A scripted world, to run the program on

    The remote store keeps its documents in a list; each remote call takes
    the next line of a script that says how the network treats it. *)
Module Fixture.

Inductive Line :=
| Answers (ms : N)                (* the call succeeds after [ms] *)
| Refuses (ms : N) (e : JsError)  (* the call is rejected after [ms] *)
| Hangs.                          (* the call never settles *)

Record Net := mkNet {
  script : list Line;
  documents : list (jsstring * Fields);
  fresh_ids : list jsstring;
  clock : jsstring;
  dice : list nat
}.

(** The promise of a call that yields [v] when the line lets it. *)
Definition settle {A} (line : Line) (v : A) : Promise A :=
  match line with
  | Answers ms => Fulfills ms v
  | Refuses ms e => Rejects ms e
  | Hangs => Pending
  end.

Definition line_of (w : Net) : Line := List.hd Hangs (script w).

Definition applies (line : Line) : bool :=
  match line with Answers _ => true | _ => false end.

(** The world after a call that leaves [docs] when the line lets it. *)
Definition after (w : Net) (docs : list (jsstring * Fields))
    (ids : list jsstring) : Net :=
  if applies (line_of w)
  then mkNet (List.tl (script w)) docs ids (clock w) (dice w)
  else mkNet (List.tl (script w)) (documents w) (fresh_ids w) (clock w)
         (dice w).

Definition apply_update (u : Update) (f : Fields) : Fields :=
  match u with
  | TextUpdate t q a e =>
      mkFields t q a e (Date f) (MissCount f) (uid f)
  | MissUpdate m =>
      mkFields (Title f) (Question f) (Answer f) (Explain f) (Date f) m
        (uid f)
  end.

#[export] Instance net_host : Host Net := {
  getDocs u w :=
    (settle (line_of w)
       (List.filter (fun d => str_eq (uid d.2) u) (documents w)),
     after w (documents w) (fresh_ids w));
  addDoc f w :=
    let i := List.hd [] (fresh_ids w) in
    (settle (line_of w) i,
     after w (documents w ++ [(i, f)]) (List.tl (fresh_ids w)));
  updateDoc i u w :=
    (settle (line_of w) tt,
     after w
       (map (fun d => if str_eq d.1 i then (d.1, apply_update u d.2) else d)
          (documents w))
       (fresh_ids w));
  deleteDoc i w :=
    (settle (line_of w) tt,
     after w (List.filter (fun d => negb (str_eq d.1 i)) (documents w))
       (fresh_ids w));
  toISOString w := clock w;
  random_below n w :=
    (List.hd 0 (dice w),
     mkNet (script w) (documents w) (fresh_ids w) (clock w)
       (List.tl (dice w)))
}.

(** A network that answers three calls, and a store with nothing in it. *)
Definition online : Net :=
  mkNet [Answers 120; Answers 80; Answers 95] [] [js "n1"; js "n2"]
    (js "2024-01-01T00:00:00.000Z") [1; 0].

(** A network on which no call ever settles. *)
Definition offline : Net :=
  mkNet [] [] [] (js "2024-01-01T00:00:00.000Z") [].


(** A page that has just been opened by the user [u]. *)
Definition start (u : jsstring) (w : Net) : State Net :=
  mkState (Some u) [] false [] None false [] None w [].

Definition permission_denied : JsError :=
  {| name := js "FirebaseError";
     message := js "Missing or insufficient permissions." |}.

Definition algebra : Note :=
  mkNote (js "n1")
    (mkFields (js "Algebra") (js "2 + 2 = ?") (js "4") []
       (js "2024-01-01T00:00:00.000Z") 0 (js "alice")).

Definition geometry : Note :=
  mkNote (js "n2")
    (mkFields (js "Geometry") (js "Angles of a triangle?") (js "180")
       (js "Euclid") (js "2024-01-02T00:00:00.000Z") 2 (js "alice")).

(** A list page that shows the two notes. *)
Definition two_notes (w : Net) : State Net :=
  mkState (Some (js "alice")) [0; 1] false [] None false [algebra; geometry]
    (Some (JSON.stringify (notes_to_json [algebra; geometry]))) w [].

(** A store that refuses the next call. *)
Definition refusing : Net :=
  mkNet [Refuses 120 permission_denied]
    [(id algebra, data algebra); (id geometry, data geometry)] []
    (js "2024-01-03T00:00:00.000Z") [].

(** A store that holds the two notes and answers. *)
Definition serving : Net :=
  mkNet [Answers 120; Answers 80]
    [(id algebra, data algebra); (id geometry, data geometry)] []
    (js "2024-01-03T00:00:00.000Z") [1; 0].

(** A mirror of which only the first twenty code units were written. *)
Definition truncated : State Net :=
  mkState (Some (js "alice")) [] false [] None false []
    (Some (take 20 (JSON.stringify (notes_to_json [algebra])))) offline [].

End Fixture.

(** ** The rest of the page

    The functions of [js/app.js] around the handlers above: the escaping
    of text, the order of the list, the modal window, the router with its
    page guard, the listener of the authentication state, sign-in and
    sign-out. *)

(** *** [escapeHtml] *)

(** What [innerHTML] gives for an element whose only child is the text [s]:
    the ampersand, the no-break space, the less-than sign and the
    greater-than sign become character references; every other code unit,
    the quotation marks among them, is written as it is. *)
Definition escaped_unit (c : N) : jsstring :=
  if (c =? 38)%N then js "&amp;"
  else if (c =? 160)%N then js "&nbsp;"
  else if (c =? 60)%N then js "&lt;"
  else if (c =? 62)%N then js "&gt;"
  else [c].

Fixpoint text_innerHTML (s : jsstring) : jsstring :=
  match s with
  | [] => []
  | c :: s' => escaped_unit c ++ text_innerHTML s'
  end.

(** [escapeHtml(text)]; [None] is [null] or [undefined]. *)
Definition escapeHtml (text : option jsstring) : jsstring :=
  match text with
  | None => []
  | Some s => text_innerHTML s
  end.

(** How often the code unit [c] is in [s]. *)
Definition count_unit (c : N) (s : jsstring) : nat :=
  length (List.filter (fun x => (x =? c)%N) s).

(** *** The order of the list *)

(** [Array.prototype.sort(compare)].  The sort is stable, and for a
    comparison function that is consistent the sorted array is the same
    whatever the algorithm: here each element, from the last to the first,
    is put before the first element that it does not come after. *)
Fixpoint sort_insert {A} (compare : A -> A -> Z) (x : A) (sorted : list A)
  : list A :=
  match sorted with
  | [] => [x]
  | y :: sorted' =>
      if (compare x y <=? 0)%Z then x :: sorted
      else y :: sort_insert compare x sorted'
  end.

Fixpoint Array_sort {A} (compare : A -> A -> Z) (l : list A) : list A :=
  match l with
  | [] => []
  | x :: l' => sort_insert compare x (Array_sort compare l')
  end.

(** What the comparison function of [renderListContent] asks of the host. *)
Class Locale := {
  (** [new Date(s)] as a number; [None] is [NaN]. *)
  Date_value : jsstring -> option Z;
  (** [a.localeCompare(b, 'ja')]. *)
  localeCompare : jsstring -> jsstring -> Z
}.

(** The comparison function of [renderListContent(sortBy)]; a difference
    that is [NaN] counts as [0] in [sort]. *)
Definition compare_notes `{Locale} (sortBy : jsstring) (a b : Note) : Z :=
  if str_eq sortBy (js "date") then
    match Date_value (Date b), Date_value (Date a) with
    | Some tb, Some ta => tb - ta
    | _, _ => 0
    end
  else if str_eq sortBy (js "title") then localeCompare (Title a) (Title b)
  else if str_eq sortBy (js "miss") then MissCount b - MissCount a
  else 0.

(** [sortedData] of [renderListContent(sortBy)], for the notes of
    [notesData]. *)
Definition sortedData `{Locale} (sortBy : jsstring) (notes : list Note)
  : list Note :=
  Array_sort (compare_notes sortBy) notes.

(** *** The modal window *)

Module Modal.

(** [isModalOpen], [hasUnsavedChanges], the markup inside [modalContent],
    and the number of [keydown] listeners that [setupModalEventListeners]
    has left on the document. *)
Record Window := mkWindow {
  isModalOpen : bool;
  hasUnsavedChanges : bool;
  modalContent : jsstring;
  escHandlers : nat
}.

(** The window when the page is loaded. *)
Definition initial : Window := mkWindow false false [] 0.

Definition openModal (content : jsstring) (m : Window) : Window :=
  if isModalOpen m then m
  else mkWindow true false content (S (escHandlers m)).

(** [closeModal(force)]; [confirm] is the answer that the user gives to the
    dialog, when it is shown. *)
Definition closeModal (force : bool) (confirm : bool) (m : Window) : Window :=
  if negb (isModalOpen m) then m
  else
    let hide := mkWindow false false [] (escHandlers m) in
    if negb force && hasUnsavedChanges m then
      if negb confirm then m else hide
    else hide.

(** An [input] event in a field of the window.  The fields are inside
    [modalContent], which is empty while the window is closed. *)
Definition input (m : Window) : Window :=
  if isModalOpen m
  then mkWindow true true (modalContent m) (escHandlers m)
  else m.

(** One [keydown] of the Escape key, seen by [handlers] listeners in the
    order in which they were added.  A listener that finds the window open
    calls [closeModal()] and removes itself; [answers] are the answers to
    the dialogs, in order (none left: the user declines). *)
Fixpoint keydown (handlers : nat) (answers : list bool) (m : Window)
  : Window :=
  match handlers with
  | 0 => m
  | S handlers' =>
      if isModalOpen m then
        let m1 := closeModal false (List.hd false answers) m in
        let m2 :=
          mkWindow (isModalOpen m1) (hasUnsavedChanges m1) (modalContent m1)
            (escHandlers m1 - 1) in
        keydown handlers'
          (if hasUnsavedChanges m then List.tl answers else answers) m2
      else keydown handlers' answers m
  end.

Definition pressEscape (answers : list bool) (m : Window) : Window :=
  keydown (escHandlers m) answers m.

(** A window that has unsaved changes is an open one. *)
Definition consistent (m : Window) : Prop :=
  hasUnsavedChanges m = true -> isModalOpen m = true.

End Modal.

(** *** Signing in and out, and the router *)

(** The two operations of [firebase-config.js] on the session. *)
Class Auth (World : Type) := {
  (** [signInWithPopup(auth, googleProvider)]. *)
  signInWithPopup : Operation World unit;
  (** [signOut(auth)]. *)
  signOut : Operation World unit
}.

Section Shell.

Context {World : Type} `{Host World} `{Auth World}.

Implicit Types st : State World.

(** [currentUser = v]. *)
Definition set_currentUser (v : option jsstring) st : State World :=
  mkState v (notesData st) (retryBlocked st) (usedProblemIds st)
    (currentProblemId st) (missMarkUsed st) (heap st) (localStorage st)
    (world st) (effects st).

(** [handleGoogleLogin]. *)
Definition handleGoogleLogin st : State World :=
  let st := showLoading LoggingIn st in
  match withRetry signInWithPopup 0 st with
  | (Return _, st1) => st1
  | (Throw error, st1) =>
      hideLoading (showError E001 (emit (ConsoleError error) st1))
  end.

(** What [pageContent] shows. *)
Inductive View := NoView | LoginView | ListView | RandomView.

(** The variables of the handlers, [currentPage], the pages given to
    [history.pushState], oldest first, and the view. *)
Record Page := mkPage {
  vars : State World;
  currentPage : jsstring;
  history : list jsstring;
  view : View
}.

Definition set_vars (v : State World) (p : Page) : Page :=
  mkPage v (currentPage p) (history p) (view p).
Definition set_view (v : View) (p : Page) : Page :=
  mkPage (vars p) (currentPage p) (history p) v.
Definition set_currentPage (v : jsstring) (p : Page) : Page :=
  mkPage (vars p) v (history p) (view p).

(** [history.pushState({ page }, '', `#${page}`)]. *)
Definition pushState (page : jsstring) (p : Page) : Page :=
  mkPage (vars p) (currentPage p) (history p ++ [page]) (view p).

Definition renderLoginPage (p : Page) : Page := set_view LoginView p.

(** [!currentUser]. *)
Definition signed_out st : bool :=
  match currentUser st with
  | None => true
  | Some _ => false
  end.

(** The cases of the [switch] of [renderPage]. *)
Inductive Route := to_login | to_list | to_random | to_default.

Definition route (page : jsstring) : Route :=
  if str_eq page (js "login") then to_login
  else if str_eq page (js "list") then to_list
  else if str_eq page (js "random") then to_random
  else to_default.

(** [renderPage]; where the source calls [navigateTo('login')], the three
    statements of [navigateTo] are written out.  [renderListPage] is
    called and not awaited: when it throws, nothing handles that, and the
    view is the one that was there.  [fuel] is that of
    [renderRandomPage]. *)
Equations? renderPage (fuel : nat) (p : Page) : option Page
    by wf (if str_eq (currentPage p) (js "login") then 0 else 1) lt :=
  renderPage fuel p
    with inspect (signed_out (vars p)
                  && negb (str_eq (currentPage p) (js "login"))) := {
    | exist _ true Hguard =>
        renderPage fuel
          (pushState (js "login")
             (set_currentPage (js "login") (set_vars (closeModal (vars p)) p)))
    | exist _ false _ with inspect (route (currentPage p)) := {
      | exist _ to_login _ =>
          Some (renderLoginPage (set_vars (closeModal (vars p)) p))
      | exist _ to_list _ =>
          match renderListPage (closeModal (vars p)) with
          | Some (Return _, st) => Some (set_view ListView (set_vars st p))
          | Some (Throw _, st) => Some (set_vars st p)
          | None => None
          end
      | exist _ to_random _ =>
          match renderRandomPage fuel (closeModal (vars p)) with
          | Some (_, st) => Some (set_view RandomView (set_vars st p))
          | None => None
          end
      | exist _ to_default Hroute =>
          renderPage fuel
            (pushState (js "login")
               (set_currentPage (js "login")
                  (set_vars (closeModal (vars p)) p))) } }.
Proof.
  - apply andb_true_iff in Hguard as [_ Hpage].
    apply negb_true_iff in Hpage. rewrite Hpage.
    cbn [pushState set_currentPage currentPage]. by vm_compute.
  - unfold route in Hroute.
    destruct (str_eq (currentPage p) (js "login")); [done|].
    cbn [pushState set_currentPage currentPage]. by vm_compute.
Qed.

(** [navigateTo(page)]. *)
Definition navigateTo (page : jsstring) (fuel : nat) (p : Page)
  : option Page :=
  renderPage fuel (pushState page (set_currentPage page p)).

(** [initRouter], for the part of [location.hash] after the number sign. *)
Definition initRouter (hash : jsstring) (p : Page) : Page :=
  if existsb (str_eq hash) [js "login"; js "list"; js "random"]
  then set_currentPage hash p
  else p.

(** The listener of [popstate] that [initRouter] adds; [page] is
    [e.state.page], [None] when [e.state] is [null] or has no page. *)
Definition popstate (page : option jsstring) (fuel : nat) (p : Page)
  : option Page :=
  match page with
  | Some page' =>
      if falsy page' then Some p
      else renderPage fuel (set_currentPage page' p)
  | None => Some p
  end.

(** [init]. *)
Definition init (hash : jsstring) (fuel : nat) (p : Page) : option Page :=
  renderPage fuel
    (initRouter hash (set_vars (showLoading Initializing (vars p)) p)).

(** The listener given to [onAuthStateChanged]; [user] is the uid of the
    user, or [None] for [null]. *)
Definition authStateChanged (user : option jsstring) (fuel : nat) (p : Page)
  : option Page :=
  let p := set_vars (hideLoading (vars p)) p in
  match user with
  | Some u =>
      let p :=
        set_vars (set_retryBlocked false (set_currentUser (Some u) (vars p)))
          p in
      if str_eq (currentPage p) (js "login")
      then navigateTo (js "list") fuel p
      else renderPage fuel p
  | None =>
      let p :=
        set_vars (clearLocalStorage (set_currentUser None (vars p))) p in
      navigateTo (js "login") fuel p
  end.

(** [handleLogout]. *)
Definition handleLogout (fuel : nat) (p : Page) : option Page :=
  let st := showLoading LoggingOut (vars p) in
  match withRetry signOut 0 st with
  | (Return _, st1) =>
      let st2 :=
        hideLoading
          (set_currentProblemId None
             (set_usedProblemIds []
                (set_notesData []
                   (set_currentUser None (clearLocalStorage st1))))) in
      navigateTo (js "login") fuel (set_vars st2 p)
  | (Throw error, st1) =>
      Some (set_vars
              (hideLoading (showError E002 (emit (ConsoleError error) st1)))
              p)
  end.

(** The page when the script is loaded, with what [localStorage] holds. *)
Definition loaded (stored : option jsstring) (w : World) : Page :=
  mkPage (mkState None [] false [] None false [] stored w []) (js "login")
    [] NoView.

(** *** What the further properties speak of *)

(** The state after [k] attempts of [withRetry] that ran into the timer,
    each followed by the toast and the loading text of a retry. *)
Fixpoint timed_out_attempts {A} (operation : Operation World A) (k : nat) st
  : State World :=
  match k with
  | 0 => st
  | S k' =>
      timed_out_attempts operation k'
        (showLoading RetryingText
           (showError E010
              (set_world (operation (world st)).2 (emit Invoked st))))
  end.

(** The button for the next problem, pressed [k] times: each press is a
    call of [renderRandomPage].  With the state, the notes shown, in
    order; [None] when one of the pages shows no problem. *)
Fixpoint next_problems (fuel k : nat) st : option (list ref * State World) :=
  match k with
  | 0 => Some ([], st)
  | S k' =>
      '(shown, st1) ← renderRandomPage fuel st;
      r ← shown;
      '(rs, st2) ← next_problems fuel k' st1;
      Some (r :: rs, st2)
  end.

(** *** Handlers in flight together *)

(** [handleRegister] and [handleEdit] check the title, [await] the remote
    call and write the collection afterwards.  What is before the [await]
    runs when the handler is called; what is after it runs when the remote
    call has ended, on the variables as they are then: other handlers can
    run in between.

    [handleRegister], up to the call of [withRetry]: it ends there, or it
    leaves [newNote]. *)
Definition handleRegister_called
    (reg_title reg_question reg_answer reg_explain : jsstring) st
  : (Completion unit * State World) + (Fields * State World) :=
  let title := trim reg_title in
  let question := trim reg_question in
  let answer := trim reg_answer in
  let explain := trim reg_explain in
  let st := emit TitleErrorHidden st in
  match validate title question answer explain with
  | Some code => inl (Return tt, showError code st)
  | None =>
      if existsb (fun n : Note => str_eq (Title n) title) (records st) then
        inl (Return tt, showError E008 (emit TitleErrorShown st))
      else
        let st := showLoading Registering st in
        match currentUser st with
        | None => inl (Throw TypeError, st)
        | Some u =>
            inr ({| Title := title; Question := question; Answer := answer;
                    Explain := explain; Date := getCurrentDateTime st;
                    MissCount := 0; uid := u |}, st)
        end
  end.

(** [handleRegister], from the end of [withRetry] on: [settled] is how it
    ended, [st1] the state then. *)
Definition handleRegister_resumed (newNote : Fields)
    (settled : Completion jsstring) (st1 : State World)
  : Completion unit * State World :=
  match settled with
  | Return docRef_id =>
      let st2 :=
        set_notesData (notesData st1 ++ [length (heap st1)])
          (set_heap (heap st1 ++ [mkNote docRef_id newNote]) st1) in
      let st3 := saveToLocalStorage (records st2) st2 in
      (Return tt, renderListContent (closeModal (hideLoading st3)))
  | Throw error =>
      (Return tt, hideLoading (showError E004 (emit (ConsoleError error) st1)))
  end.

(** [handleEdit(note)], up to the call of [withRetry]: it ends there, or it
    leaves the id of the document and [updatedData]. *)
Definition handleEdit_called (note : ref)
    (edit_title edit_question edit_answer edit_explain : jsstring) st
  : State World + (jsstring * Update * State World) :=
  let title := trim edit_title in
  let question := trim edit_question in
  let answer := trim edit_answer in
  let explain := trim edit_explain in
  let st := emit TitleErrorHidden st in
  match validate title question answer explain with
  | Some code => inl (showError code st)
  | None =>
      if existsb
           (fun n : Note => str_eq (Title n) title
                            && negb (str_eq (id n) (id (deref st note))))
           (records st) then
        inl (showError E008 (emit TitleErrorShown st))
      else
        let st := showLoading Updating st in
        inr (id (deref st note), TextUpdate title question answer explain, st)
  end.

(** [handleEdit(note)], from the end of [withRetry] on. *)
Definition handleEdit_resumed (note : ref)
    (title question answer explain : jsstring)
    (settled : Completion unit) (st1 : State World) : State World :=
  match settled with
  | Return _ =>
      let st2 :=
        match findIndex
                (fun n => str_eq (id n) (id (deref st1 note)))
                (records st1) with
        | Some index =>
            let updated :=
              merge (deref st1 (notesData st1 !!! index))
                title question answer explain in
            let st2 :=
              set_notesData
                (<[index := length (heap st1)]> (notesData st1))
                (set_heap (heap st1 ++ [updated]) st1) in
            saveToLocalStorage (records st2) st2
        | None => st1
        end in
      renderListContent (closeModal (hideLoading st2))
  | Throw error =>
      hideLoading (showError E005 (emit (ConsoleError error) st1))
  end.

(** Two calls of [handleRegister] in flight together.  The second is
    called while the first awaits the answer to its request; then the
    answers come back, first to the first call. *)
Definition handleRegister_in_flight_twice
    (first second : jsstring * jsstring * jsstring * jsstring) st
  : option (State World) :=
  let '(title1, question1, answer1, explain1) := first in
  let '(title2, question2, answer2, explain2) := second in
  match handleRegister_called title1 question1 answer1 explain1 st with
  | inl _ => None
  | inr (note1, st) =>
      let '(settled1, st) := withRetry (addDoc note1) 0 st in
      match handleRegister_called title2 question2 answer2 explain2 st with
      | inl _ => None
      | inr (note2, st) =>
          let '(settled2, st) := withRetry (addDoc note2) 0 st in
          let st := (handleRegister_resumed note1 settled1 st).2 in
          Some (handleRegister_resumed note2 settled2 st).2
      end
  end.

(** The mirror holds the collection. *)
Definition mirror_in_sync st : Prop :=
  localStorage st = Some (JSON.stringify (notes_to_json (records st))).

(** No two notes of the collection have the same title. *)
Definition unique_titles st : Prop :=
  NoDup ((fun n : Note => Title n) <$> records st).

End Shell.

Arguments Page World : clear implicits.

(** The session of the scripted world: signing in and out are calls like
    the others. *)
Module FixtureAuth.
Import Fixture.

#[export] Instance net_auth : Auth Net := {
  signInWithPopup w :=
    (settle (line_of w) tt, after w (documents w) (fresh_ids w));
  signOut w :=
    (settle (line_of w) tt, after w (documents w) (fresh_ids w))
}.

(** A host that knows no date and puts every title level with every
    other. *)
#[export] Instance plain_locale : Locale := {
  Date_value _ := None;
  localeCompare _ _ := 0%Z
}.

(** A store that holds the two notes and answers four calls. *)
Definition patient : Net :=
  mkNet [Answers 120; Answers 80; Answers 95; Answers 60]
    [(id algebra, data algebra); (id geometry, data geometry)]
    [js "n3"; js "n4"] (js "2024-01-03T00:00:00.000Z") [1; 0; 0; 1].

End FixtureAuth.

(** * Properties *)

(** ** [JSON.parse] after [JSON.stringify] *)

Module JSONFacts.
Import JSON.

Local Open Scope N_scope.

Lemma units_uint_uint_units d : units_uint (uint_units d) = d.
Proof. induction d; simpl; by f_equal. Qed.

Lemma uint_units_digits d : Forall (fun c => is_digit c = true) (uint_units d).
Proof. induction d; simpl; constructor; done. Qed.

Lemma span_digits_app ds rest :
  Forall (fun c => is_digit c = true) ds -> delimited rest ->
  span_digits (ds ++ rest) = (ds, rest).
Proof.
  intros Hds Hrest. induction Hds as [|c ds Hc _ IH]; cbn [app span_digits].
  - destruct rest as [|c rest]; [done|]. destruct Hrest as [Hc _].
    cbn [span_digits]. by rewrite Hc.
  - by rewrite Hc, IH.
Qed.

Lemma int_part_ok_unorm d : int_part_ok (uint_units (Decimal.unorm d)) = true.
Proof.
  unfold Decimal.unorm.
  pose proof (DecimalFacts.nzhead_nonzero d) as Hnz.
  destruct (Decimal.nzhead d) as [|d'|d'|d'|d'|d'|d'|d'|d'|d'|d']; simpl;
    try done; try (by destruct d').
  by destruct (Hnz d').
Qed.

Lemma int_part_ok_to_uint n : int_part_ok (uint_units (N.to_uint n)) = true.
Proof.
  rewrite <- (DecimalN.Unsigned.of_to n) at 1.
  rewrite DecimalN.Unsigned.to_of. apply int_part_ok_unorm.
Qed.

Lemma parse_number_number_text z rest :
  delimited rest ->
  parse_number (number_text z ++ rest) = Some (JNumber z, rest).
Proof.
  intros Hrest. unfold number_text.
  pose proof (uint_units_digits (N.to_uint (Z.abs_N z))) as Hdigits.
  pose proof (int_part_ok_to_uint (Z.abs_N z)) as Hok.
  assert (parse_fraction rest = Some ([], rest)) as Hfrac.
  { destruct rest as [|c rest]; [done|]. destruct Hrest as (_ & Hc & _).
    unfold parse_fraction. by destruct (N.eqb_spec c 46). }
  assert (parse_exponent rest = Some ([], rest)) as Hexp.
  { destruct rest as [|c rest]; [done|]. destruct Hrest as (_ & _ & Hc & Hc').
    unfold parse_exponent.
    by destruct (N.eqb_spec c 101), (N.eqb_spec c 69). }
  destruct (Z.ltb_spec z 0) as [Hneg|Hpos]; unfold parse_number.
  - cbn [app N.eqb Pos.eqb]. rewrite span_digits_app by done. rewrite Hok.
    rewrite Hfrac. cbn [mbind option_bind]. rewrite Hexp.
    cbn [mbind option_bind].
    rewrite units_uint_uint_units, DecimalN.Unsigned.of_to.
    do 3 f_equal. lia.
  - destruct (uint_units (N.to_uint (Z.abs_N z))) as [|c ds] eqn:Hunits;
      [done|].
    assert (is_digit c = true) as Hc by by inversion Hdigits.
    assert ((c =? 45) = false) as Hminus.
    { unfold is_digit in Hc. apply N.eqb_neq. intros ->. done. }
    cbn [app]. rewrite Hminus.
    change (c :: ds ++ rest) with ((c :: ds) ++ rest).
    rewrite (span_digits_app (c :: ds)) by done.
    rewrite Hok. rewrite Hfrac. cbn [mbind option_bind]. rewrite Hexp.
    cbn [mbind option_bind].
    rewrite <- Hunits, units_uint_uint_units, DecimalN.Unsigned.of_to.
    do 3 f_equal. lia.
Qed.

Lemma hex_value_hex_unit n : n < 16 -> hex_value (hex_unit n) = Some n.
Proof.
  intros Hn. unfold hex_unit, hex_value, is_digit.
  destruct (N.ltb_spec n 10) as [Hlt|Hge].
  - assert ((48 <=? 48 + n) && (48 + n <=? 57) = true) as ->.
    { apply andb_true_iff. split; apply N.leb_le; lia. }
    f_equal. lia.
  - assert ((48 <=? 87 + n) && (87 + n <=? 57) = false) as ->.
    { apply andb_false_iff. right. apply N.leb_gt. lia. }
    assert ((97 <=? 87 + n) && (87 + n <=? 102) = true) as ->.
    { apply andb_true_iff. split; apply N.leb_le; lia. }
    f_equal. lia.
Qed.

Lemma parse_unicode_escape c tail :
  c < 65536 ->
  parse_string_body (unicode_escape c ++ tail) =
  cons_unit c (parse_string_body tail).
Proof.
  intros Hc. unfold unicode_escape. cbn [app parse_string_body N.eqb Pos.eqb].
  assert (c / 4096 < 16) by (apply N.Div0.div_lt_upper_bound; lia).
  assert ((c / 256) mod 16 < 16) by (apply N.mod_upper_bound; lia).
  assert ((c / 16) mod 16 < 16) by (apply N.mod_upper_bound; lia).
  assert (c mod 16 < 16) by (apply N.mod_upper_bound; lia).
  rewrite !hex_value_hex_unit by done. cbn [mbind option_bind].
  assert (c / 4096 * 4096 + (c / 256) mod 16 * 256 + (c / 16) mod 16 * 16
          + c mod 16 = c) as ->; [|done].
  pose proof (N.div_mod c 16 ltac:(lia)) as H16.
  pose proof (N.div_mod (c / 16) 16 ltac:(lia)) as H256.
  pose proof (N.div_mod (c / 16 / 16) 16 ltac:(lia)) as H4096.
  rewrite !N.Div0.div_div in H256, H4096.
  change (16 * 16) with 256 in *. change (256 * 16) with 4096 in *.
  assert (c / 256 / 16 = c / 4096) as Hdiv by by rewrite N.Div0.div_div.
  rewrite Hdiv in H4096. lia.
Qed.

Lemma parse_literal_unit c tail :
  c <> 34 -> c <> 92 -> 32 <= c ->
  parse_string_body (c :: tail) = cons_unit c (parse_string_body tail).
Proof.
  intros H34 H92 H32. cbn [parse_string_body].
  destruct (N.eqb_spec c 34); [done|]. destruct (N.eqb_spec c 92); [done|].
  destruct (N.ltb_spec c 32); [lia|]. done.
Qed.

Lemma parse_string_quote_units s rest :
  parse_string_body (quote_units s ++ 34 :: rest) = Some (s, rest).
Proof.
  remember (length s) as n eqn:Hn. revert s Hn.
  induction n as [n IH] using lt_wf_ind. intros s Hn.
  destruct s as [|c s]; [done|].
  assert (parse_string_body (quote_units s ++ 34 :: rest) = Some (s, rest))
    as IHs by (apply (IH (length s)); simpl in *; [lia|done]).
  cbn [quote_units].
  destruct (N.eqb_spec c 8) as [->|?]; [cbn; by rewrite IHs|].
  destruct (N.eqb_spec c 9) as [->|?]; [cbn; by rewrite IHs|].
  destruct (N.eqb_spec c 10) as [->|?]; [cbn; by rewrite IHs|].
  destruct (N.eqb_spec c 12) as [->|?]; [cbn; by rewrite IHs|].
  destruct (N.eqb_spec c 13) as [->|?]; [cbn; by rewrite IHs|].
  destruct (N.eqb_spec c 34) as [->|?]; [cbn; by rewrite IHs|].
  destruct (N.eqb_spec c 92) as [->|?]; [cbn; by rewrite IHs|].
  destruct (N.ltb_spec c 32) as [Hctl|Hge].
  { rewrite <- app_assoc, parse_unicode_escape by lia. by rewrite IHs. }
  destruct (is_high_surrogate c) eqn:Hhigh.
  { unfold is_high_surrogate in Hhigh.
    apply andb_true_iff in Hhigh as [Hlo%N.leb_le Hhi%N.leb_le].
    destruct s as [|d s].
    - by rewrite parse_unicode_escape by lia.
    - destruct (is_low_surrogate d) eqn:Hlow.
      + unfold is_low_surrogate in Hlow.
        apply andb_true_iff in Hlow as [Hlo'%N.leb_le Hhi'%N.leb_le].
        cbn [app]. rewrite parse_literal_unit by lia.
        rewrite parse_literal_unit by lia.
        rewrite (IH (length s)); simpl in *; [done|lia|done].
      + rewrite <- app_assoc, parse_unicode_escape by lia. by rewrite IHs. }
  destruct (is_low_surrogate c) eqn:Hlow.
  { unfold is_low_surrogate in Hlow.
    apply andb_true_iff in Hlow as [Hlo%N.leb_le Hhi%N.leb_le].
    rewrite <- app_assoc, parse_unicode_escape by lia. by rewrite IHs. }
  cbn [app]. rewrite parse_literal_unit by done. by rewrite IHs.
Qed.

Local Close Scope N_scope.

Lemma stringify_array items :
  stringify (JArray items) = 91%N :: array_tail items.
Proof. done. Qed.

Lemma stringify_object members :
  stringify (JObject members) = 123%N :: object_tail members.
Proof. done. Qed.

(** Induction on a value, with the property at hand for the values inside
    an array or an object. *)
Lemma json_nested_ind (P : json -> Prop) :
  P JNull -> (forall b, P (JBool b)) -> (forall z, P (JNumber z)) ->
  (forall spelling, P (JDecimal spelling)) -> (forall s, P (JString s)) ->
  (forall items, Forall P items -> P (JArray items)) ->
  (forall members, Forall (fun kv => P kv.2) members -> P (JObject members)) ->
  forall j, P j.
Proof.
  intros Hnull Hbool Hnum Hdec Hstr Harr Hobj. fix IH 1.
  intros [|b|z|spelling|s|items|members].
  - exact Hnull.
  - apply Hbool.
  - apply Hnum.
  - apply Hdec.
  - apply Hstr.
  - apply Harr. induction items as [|v items IHitems]; constructor.
    + apply IH.
    + exact IHitems.
  - apply Hobj. induction members as [|[k v] members IHmembers]; constructor.
    + apply IH.
    + exact IHmembers.
Qed.

Lemma number_text_head z :
  exists c s, number_text z = c :: s /\
              ((c =? 45)%N || is_digit c = true).
Proof.
  unfold number_text.
  pose proof (uint_units_digits (N.to_uint (Z.abs_N z))) as Hdigits.
  pose proof (int_part_ok_to_uint (Z.abs_N z)) as Hok.
  destruct (z <? 0)%Z; [by eexists _, _|].
  destruct (uint_units _) as [|c s]; [done|].
  exists c, s. split; [done|]. inversion Hdigits as [|? ? Hc]. rewrite Hc.
  apply orb_true_r.
Qed.

Lemma stringify_head j :
  plain j = true ->
  exists c s, stringify j = c :: s /\ opens_value c.
Proof.
  destruct j as [|[]|z|spelling|s|items|members]; intros Hplain;
    try done; try (by eexists _, _).
  destruct (number_text_head z) as (c & s & Heq & Hc).
  exists c, s. split; [done|]. unfold opens_value, is_ws.
  apply orb_true_iff in Hc as [->%N.eqb_eq|Hc]; [done|].
  unfold is_digit in Hc.
  apply andb_true_iff in Hc as [Hlo%N.leb_le Hhi%N.leb_le].
  repeat split; [|lia..].
  destruct (N.eqb_spec c 32), (N.eqb_spec c 9), (N.eqb_spec c 10),
    (N.eqb_spec c 13); (done || lia).
Qed.

Lemma eat_head c d s :
  is_ws d = false ->
  eat c (d :: s) = if (d =? c)%N then Some s else None.
Proof. intros Hd. unfold eat. cbn [skip_ws]. by rewrite Hd. Qed.

Lemma delimited_comma s : delimited (44%N :: s).
Proof. done. Qed.
Lemma delimited_bracket s : delimited (93%N :: s).
Proof. done. Qed.
Lemma delimited_brace s : delimited (125%N :: s).
Proof. done. Qed.

Lemma parse_elements_array_tail items :
  items <> [] -> Forall reads_back items ->
  forall fuel rest, items_weight items <= fuel ->
    parse_elements fuel (array_tail items ++ rest) = Some (items, rest).
Proof.
  induction items as [|v items IH]; [done|]. intros _ Hall fuel rest Hfuel.
  inversion Hall as [|? ? Hv Hitems]; subst.
  destruct fuel as [|fuel]; [simpl in Hfuel; lia|].
  cbn [items_weight] in Hfuel. cbn [parse_elements array_tail].
  destruct items as [|v' items'].
  - rewrite <- app_assoc. rewrite Hv; [|lia|apply delimited_bracket].
    cbn [mbind option_bind app]. by rewrite !eat_head.
  - rewrite <- app_assoc. rewrite Hv; [|lia|apply delimited_comma].
    cbn [mbind option_bind app]. rewrite eat_head by done. cbn [N.eqb Pos.eqb].
    change ((fix elements (l : list json) : jsstring :=
               match l with
               | [] => [93%N]
               | v :: l' =>
                 stringify v ++
                 match l' with
                 | [] => [93%N]
                 | _ :: _ => 44%N :: elements l'
                 end
               end) (v' :: items')) with (array_tail (v' :: items')).
    rewrite IH; [done|done|done|]. fold items_weight in Hfuel. lia.
Qed.

Lemma parse_members_object_tail members :
  members <> [] -> Forall (fun kv => reads_back kv.2) members ->
  forall fuel rest, members_weight members <= fuel ->
    parse_members fuel (object_tail members ++ rest) = Some (members, rest).
Proof.
  induction members as [|[k v] members IH]; [done|].
  intros _ Hall fuel rest Hfuel.
  inversion Hall as [|? ? Hv Hmembers]; subst. simpl in Hv.
  destruct fuel as [|fuel]; [simpl in Hfuel; lia|].
  cbn [members_weight] in Hfuel. cbn [parse_members object_tail].
  unfold quote. cbn [app]. rewrite eat_head by done. cbn [N.eqb Pos.eqb].
  cbn [mbind option_bind].
  rewrite <- !app_assoc. cbn [app]. rewrite parse_string_quote_units.
  cbn [mbind option_bind]. rewrite eat_head by done. cbn [N.eqb Pos.eqb].
  cbn [mbind option_bind].
  destruct members as [|kv' members'].
  - rewrite <- app_assoc. rewrite Hv; [|lia|apply delimited_brace].
    cbn [mbind option_bind app]. by rewrite !eat_head.
  - rewrite <- app_assoc. rewrite Hv; [|lia|apply delimited_comma].
    cbn [mbind option_bind app]. rewrite eat_head by done. cbn [N.eqb Pos.eqb].
    change ((fix pairs (l : list (jsstring * json)) : jsstring :=
               match l with
               | [] => [125%N]
               | (k, v) :: l' =>
                 quote k ++ 58%N :: stringify v ++
                 match l' with
                 | [] => [125%N]
                 | _ :: _ => 44%N :: pairs l'
                 end
               end) (kv' :: members')) with (object_tail (kv' :: members')).
    rewrite IH; [done|done|done|]. fold members_weight in Hfuel. lia.
Qed.

(** Parsing the text of a plain value gives the value back, and leaves
    what follows the text. *)
Lemma parse_value_stringify j : plain j = true -> reads_back j.
Proof.
  induction j as [|b|z|spelling|s|items IH|members IH] using json_nested_ind;
    intros Hplain fuel rest Hfuel Hrest;
    (destruct fuel as [|fuel]; [simpl in Hfuel; lia|]).
  - done.
  - by destruct b.
  - destruct (number_text_head z) as (c & s & Heq & Hc).
    pose proof (parse_number_number_text z rest Hrest) as Hparse.
    cbn [stringify] in *. rewrite Heq in *. cbn [app] in *.
    assert (is_ws c = false /\ (c =? 34)%N = false /\ (c =? 91)%N = false
            /\ (c =? 123)%N = false) as (Hws & H34 & H91 & H123).
    { apply orb_true_iff in Hc as [->%N.eqb_eq|Hc]; [done|].
      unfold is_digit in Hc.
      apply andb_true_iff in Hc as [Hlo%N.leb_le Hhi%N.leb_le].
      unfold is_ws.
      destruct (N.eqb_spec c 32), (N.eqb_spec c 9), (N.eqb_spec c 10),
        (N.eqb_spec c 13), (N.eqb_spec c 34), (N.eqb_spec c 91),
        (N.eqb_spec c 123); (done || lia). }
    cbn [parse_value skip_ws]. by rewrite Hws, H34, H91, H123, Hc.
  - done.
  - cbn [stringify]. unfold quote. cbn [app parse_value skip_ws is_ws N.eqb
      Pos.eqb orb]. rewrite <- app_assoc. cbn [app].
    by rewrite parse_string_quote_units.
  - rewrite stringify_array. cbn [app parse_value skip_ws is_ws N.eqb Pos.eqb
      orb]. cbn [plain] in Hplain.
    destruct items as [|v items];
      [cbn [array_tail app]; by rewrite eat_head|].
    assert (eat 93 (array_tail (v :: items) ++ rest) = None) as ->.
    { cbn [forallb] in Hplain. apply andb_true_iff in Hplain as [Hv _].
      destruct (stringify_head v Hv) as (c & s' & Heq & Hws & H93 & _).
      cbn [array_tail]. rewrite Heq. cbn [app]. rewrite eat_head by done.
      by destruct (N.eqb_spec c 93). }
    rewrite parse_elements_array_tail; [done|done| |].
    + clear -IH Hplain. induction IH as [|x l Hx _ IHl]; [constructor|].
      cbn [forallb] in Hplain. apply andb_true_iff in Hplain as [Hpx Hpl].
      constructor; [by apply Hx|by apply IHl].
    + cbn [weight] in Hfuel. fold items_weight in Hfuel.
      cbn [items_weight]. fold items_weight. lia.
  - rewrite stringify_object. cbn [app parse_value skip_ws is_ws N.eqb Pos.eqb
      orb]. cbn [plain] in Hplain.
    destruct members as [|[k v] members];
      [cbn [object_tail app]; by rewrite eat_head|].
    assert (eat 125 (object_tail ((k, v) :: members) ++ rest) = None) as ->.
    { cbn [object_tail]. unfold quote. cbn [app]. by rewrite eat_head. }
    rewrite parse_members_object_tail; [done|done| |].
    + clear -IH Hplain. induction IH as [|x l Hx _ IHl]; [constructor|].
      cbn [forallb] in Hplain. apply andb_true_iff in Hplain as [Hpx Hpl].
      constructor; [by apply Hx|by apply IHl].
    + cbn [weight] in Hfuel. fold members_weight in Hfuel.
      cbn [members_weight]. fold members_weight. lia.
Qed.

Lemma length_quote s : 2 <= length (quote s).
Proof. unfold quote. cbn [length]. rewrite length_app. simpl. lia. Qed.

Lemma weight_le_length j : plain j = true -> weight j <= length (stringify j).
Proof.
  induction j as [|b|z|spelling|s|items IH|members IH] using json_nested_ind;
    intros Hplain.
  - simpl. lia.
  - destruct b; simpl; lia.
  - destruct (number_text_head z) as (c & s & Heq & _).
    cbn [stringify weight]. rewrite Heq. simpl. lia.
  - done.
  - cbn [stringify weight]. pose proof (length_quote s). lia.
  - rewrite stringify_array. cbn [weight length]. fold items_weight.
    apply le_n_S. cbn [plain] in Hplain.
    induction IH as [|v l Hv _ IHl]; [simpl; lia|].
    cbn [forallb] in Hplain. apply andb_true_iff in Hplain as [Hpv Hpl].
    specialize (Hv Hpv). specialize (IHl Hpl).
    cbn [items_weight array_tail]. fold items_weight. fold array_tail.
    rewrite length_app. destruct l; simpl in *; lia.
  - rewrite stringify_object. cbn [weight length]. fold members_weight.
    apply le_n_S. cbn [plain] in Hplain.
    induction IH as [|[k v] l Hv _ IHl]; [simpl; lia|].
    cbn [forallb] in Hplain. apply andb_true_iff in Hplain as [Hpv Hpl].
    specialize (Hv Hpv). specialize (IHl Hpl).
    cbn [members_weight object_tail]. fold members_weight. fold object_tail.
    rewrite length_app. cbn [length]. rewrite length_app.
    pose proof (length_quote k). destruct l; simpl in *; lia.
Qed.

(** [JSON.parse(JSON.stringify(j))] is [j], for a plain value. *)
Theorem parse_stringify j : plain j = true -> parse (stringify j) = Some j.
Proof.
  intros Hplain. unfold parse.
  pose proof (weight_le_length j Hplain) as Hweight.
  rewrite <- (app_nil_r (stringify j)) at 2.
  rewrite (parse_value_stringify j Hplain); [done| |done].
  lia.
Qed.

End JSONFacts.


(** ** Notes through the mirror *)

Lemma plain_notes (ns : list Note) : JSON.plain (notes_to_json ns) = true.
Proof.
  unfold notes_to_json. cbn [JSON.plain].
  induction ns as [|n ns IH]; [done|]. cbn [map forallb].
  by rewrite IH.
Qed.

Lemma note_of_json_to_json (n : Note) : note_of_json (note_to_json n) = Some n.
Proof. by destruct n as [i [t q a e d m u]]. Qed.

Lemma notes_of_json_to_json (ns : list Note) :
  notes_of_json (notes_to_json ns) = Some ns.
Proof.
  unfold notes_to_json, notes_of_json.
  induction ns as [|n ns IH]; [done|].
  cbn [map notes_of_items]. rewrite note_of_json_to_json.
  cbn [mbind option_bind]. by rewrite IH.
Qed.

(** What [saveToLocalStorage] writes, [JSON.parse] reads back. *)
Lemma parse_saved_notes (ns : list Note) :
  JSON.parse (JSON.stringify (notes_to_json ns)) = Some (notes_to_json ns).
Proof. apply JSONFacts.parse_stringify, plain_notes. Qed.

Lemma saved_notes_not_empty (ns : list Note) :
  falsy (JSON.stringify (notes_to_json ns)) = false.
Proof. done. Qed.

Section Properties.

Context {World : Type} `{Host World}.

Implicit Types st : State World.

(** Fields of a state that went through setters. *)
Ltac reduce_state :=
  cbn [showError showLoading hideLoading closeModal renderListContent emit
       set_notesData set_retryBlocked set_usedProblemIds set_currentProblemId
       set_missMarkUsed set_heap set_localStorage set_world saveToLocalStorage
       currentUser notesData retryBlocked usedProblemIds currentProblemId
       missMarkUsed heap localStorage world effects fst snd].


Tactic Notation "reduce_state" "in" hyp(H) :=
  cbn [showError showLoading hideLoading closeModal renderListContent emit
       set_notesData set_retryBlocked set_usedProblemIds set_currentProblemId
       set_missMarkUsed set_heap set_localStorage set_world saveToLocalStorage
       currentUser notesData retryBlocked usedProblemIds currentProblemId
       missMarkUsed heap localStorage world effects fst snd] in H.

(** ** The retry wrapper *)

(** [withRetry] as the source writes it. *)
Lemma withRetry_body {A} (operation : Operation World A) retryCount st :
  withRetry operation retryCount st =
  if retryBlocked st
  then (Throw (Error (js "Retry blocked")), showError E011 st)
  else match attempt operation st with
       | (Return v, st1) => (Return v, st1)
       | (Throw error, st1) =>
           if retry_test error retryCount
           then withRetry operation (retryCount + 1)
                  (showLoading RetryingText (showError E010 st1))
           else if MAX_RETRY - 1 <=? retryCount
                then (Throw error,
                      showError E011 (set_retryBlocked true st1))
                else (Throw error, st1)
       end.
Proof.
  simp withRetry. destruct (retryBlocked st); simp withRetry; [done|].
  destruct (attempt operation st) as [[v|error] st1]; simp withRetry; [done|].
  destruct (inspect (retry_test error retryCount)) as [[] Heq];
    simp withRetry; by rewrite Heq.
Qed.

Lemma fetchWithTimeout_timed_out {A} (promise : Promise A) :
  timed_out promise ->
  fetchWithTimeout promise TIMEOUT_MS = Throw (Error (js "timeout")).
Proof.
  destruct promise as [ms v|ms e|]; simpl; [| |done];
    intros Hms; apply N.ltb_ge in Hms; by rewrite Hms.
Qed.

Lemma attempt_timed_out {A} (operation : Operation World A) st :
  timed_out (operation (world st)).1 ->
  attempt operation st =
  (Throw (Error (js "timeout")),
   set_world (operation (world st)).2 (emit Invoked st)).
Proof.
  intros Hto. unfold attempt.
  destruct (operation (world st)) as [promise w]; simpl in *.
  by rewrite fetchWithTimeout_timed_out.
Qed.

(** One timed-out attempt below the limit: a toast, the loading text, and
    the next attempt. *)
Lemma withRetry_timeout_retries {A} (operation : Operation World A)
    retryCount st :
  retryBlocked st = false ->
  retryCount < MAX_RETRY - 1 ->
  timed_out (operation (world st)).1 ->
  withRetry operation retryCount st =
  withRetry operation (retryCount + 1)
    (showLoading RetryingText
       (showError E010
          (set_world (operation (world st)).2 (emit Invoked st)))).
Proof.
  intros Hclear Hlt Hto. rewrite withRetry_body, Hclear.
  rewrite attempt_timed_out by done.
  unfold retry_test. simpl message.
  apply Nat.ltb_lt in Hlt. by rewrite Hlt.
Qed.

(** A failed attempt at the limit trips the breaker, whatever the failure. *)
Lemma withRetry_last_failure {A} (operation : Operation World A)
    retryCount st promise w error :
  retryBlocked st = false ->
  MAX_RETRY - 1 <= retryCount ->
  operation (world st) = (promise, w) ->
  fetchWithTimeout promise TIMEOUT_MS = Throw error ->
  withRetry operation retryCount st =
  (Throw error,
   showError E011 (set_retryBlocked true (set_world w (emit Invoked st)))).
Proof.
  intros Hclear Hge Hop Hfetch. rewrite withRetry_body, Hclear.
  unfold attempt. rewrite Hop, Hfetch.
  unfold retry_test.
  assert ((retryCount <? MAX_RETRY - 1) = false) as -> by by apply Nat.ltb_ge.
  rewrite andb_false_r.
  by assert ((MAX_RETRY - 1 <=? retryCount) = true) as ->
    by by apply Nat.leb_le.
Qed.


Lemma count_effect_app (e : Effect) (l1 l2 : list Effect) :
  count_effect e (l1 ++ l2) = count_effect e l1 + count_effect e l2.
Proof. unfold count_effect. by rewrite List.filter_app, length_app. Qed.


(** C2: while the breaker [retryBlocked] is set, every call of [withRetry],
    whatever its attempt counter, fails at once with the error
    'Retry blocked'; the operation is not invoked (the world is the same
    and no invocation is recorded); the E011 toast is shown by this call,
    and the breaker stays set for the next one. *)
Theorem withRetry_blocked {A} (operation : Operation World A) retryCount st :
  retryBlocked st = true ->
  (withRetry operation retryCount st).1 =
    Throw (Error (js "Retry blocked")) /\
  world (withRetry operation retryCount st).2 = world st /\
  effects (withRetry operation retryCount st).2 =
    effects st ++ [Toast E011] /\
  retryBlocked (withRetry operation retryCount st).2 = true.
Proof.
  intros Hset. by rewrite withRetry_body, Hset.
Qed.

(** C4: when the first attempt (counter 0, breaker clear) is rejected
    before the timer fires with an error whose message is not 'timeout',
    [withRetry] invokes the operation once and no more, shows no toast,
    leaves the breaker clear, and throws that very error. *)
Theorem withRetry_other_failure {A} (operation : Operation World A) st
    ms error w :
  retryBlocked st = false ->
  operation (world st) = (Rejects ms error, w) ->
  (ms < TIMEOUT_MS)%N ->
  message error <> js "timeout" ->
  withRetry operation 0 st = (Throw error, set_world w (emit Invoked st)).
Proof.
  intros Hclear Hop Hms Hmsg. rewrite withRetry_body, Hclear.
  unfold attempt. rewrite Hop. simpl.
  apply N.ltb_lt in Hms. rewrite Hms.
  unfold retry_test, str_eq. by rewrite bool_decide_eq_false_2.
Qed.

(** C10: when the attempt counter has reached [MAX_RETRY - 1], a failure
    of the raced operation of any kind, a timeout or not, sets the breaker
    [retryBlocked] and shows the E011 toast; the failure is thrown on. *)
Theorem withRetry_trips_on_any_failure {A} (operation : Operation World A)
    retryCount st promise w error :
  MAX_RETRY - 1 <= retryCount ->
  retryBlocked st = false ->
  operation (world st) = (promise, w) ->
  fetchWithTimeout promise TIMEOUT_MS = Throw error ->
  (withRetry operation retryCount st).1 = Throw error /\
  retryBlocked (withRetry operation retryCount st).2 = true /\
  effects (withRetry operation retryCount st).2 =
    effects st ++ [Invoked; Toast E011].
Proof.
  intros Hge Hclear Hop Hfetch.
  erewrite withRetry_last_failure by done. reduce_state.
  by rewrite <- app_assoc.
Qed.

(** Two timeouts and then a failure that is no timeout: the third attempt
    is made with the counter at [MAX_RETRY - 1], so the breaker trips on an
    error that has nothing to do with time. *)
Lemma withRetry_trips_after_timeouts {A} (operation : Operation World A) st
    ms error w :
  retryBlocked st = false ->
  let w1 := (operation (world st)).2 in
  let w2 := (operation w1).2 in
  timed_out (operation (world st)).1 ->
  timed_out (operation w1).1 ->
  operation w2 = (Rejects ms error, w) ->
  (ms < TIMEOUT_MS)%N ->
  (withRetry operation 0 st).1 = Throw error /\
  retryBlocked (withRetry operation 0 st).2 = true.
Proof.
  intros Hclear w1 w2 H0 H1 Hop Hms.
  rewrite withRetry_timeout_retries by (done || (unfold MAX_RETRY; lia)).
  rewrite withRetry_timeout_retries by (done || (unfold MAX_RETRY; lia)).
  erewrite withRetry_last_failure;
    [ done | done | unfold MAX_RETRY; simpl; lia | exact Hop | ].
  simpl. apply N.ltb_lt in Hms. by rewrite Hms.
Qed.

Lemma same_data_refl st : same_data st st.
Proof. by repeat split. Qed.

Lemma same_data_trans st1 st2 st3 :
  same_data st1 st2 -> same_data st2 st3 -> same_data st1 st3.
Proof.
  unfold same_data. intros (?&?&?&?&?&?&?) (?&?&?&?&?&?&?).
  repeat split; congruence.
Qed.

Lemma same_data_records st st' : same_data st st' -> records st' = records st.
Proof.
  intros (_&Hn&_&_&_&Hh&_). unfold records, deref. by rewrite Hn, Hh.
Qed.

Lemma same_data_deref st st' r : same_data st st' -> deref st' r = deref st r.
Proof. intros (_&_&_&_&_&Hh&_). unfold deref. by rewrite Hh. Qed.

Lemma attempt_same_data {A} (operation : Operation World A) st :
  same_data st (attempt operation st).2.
Proof.
  unfold attempt. destruct (operation (world st)). by repeat split.
Qed.

Lemma withRetry_same_data {A} (operation : Operation World A) retryCount st :
  same_data st (withRetry operation retryCount st).2.
Proof.
  remember (MAX_RETRY - 1 - retryCount) as n eqn:Hn.
  revert retryCount st Hn.
  induction n as [n IH] using lt_wf_ind. intros retryCount st Hn.
  rewrite withRetry_body.
  destruct (retryBlocked st); [by repeat split|].
  pose proof (attempt_same_data operation st) as Hatt.
  destruct (attempt operation st) as [[v|error] st1]; simpl in Hatt; [done|].
  destruct (retry_test error retryCount) eqn:Htest.
  - unfold retry_test in Htest.
    apply andb_true_iff in Htest as [_ Hlt]. apply Nat.ltb_lt in Hlt.
    eapply same_data_trans; [exact Hatt|].
    eapply same_data_trans;
      [|apply (IH (MAX_RETRY - 1 - (retryCount + 1))); [lia|done]].
    by repeat split.
  - destruct (MAX_RETRY - 1 <=? retryCount); [|done].
    eapply same_data_trans; [exact Hatt|]. by repeat split.
Qed.

(** What [withRetry] adds to the record of effects comes after what was
    there. *)
Lemma withRetry_effects {A} (operation : Operation World A) retryCount st :
  exists added,
    effects (withRetry operation retryCount st).2 = effects st ++ added.
Proof.
  remember (MAX_RETRY - 1 - retryCount) as n eqn:Hn.
  revert retryCount st Hn.
  induction n as [n IH] using lt_wf_ind. intros retryCount st Hn.
  rewrite withRetry_body.
  destruct (retryBlocked st); [by eexists|].
  unfold attempt. destruct (operation (world st)) as [promise w].
  destruct (fetchWithTimeout promise TIMEOUT_MS) as [v|error]; [by eexists|].
  destruct (retry_test error retryCount) eqn:Htest.
  - unfold retry_test in Htest.
    apply andb_true_iff in Htest as [_ Hlt]. apply Nat.ltb_lt in Hlt.
    edestruct (IH (MAX_RETRY - 1 - (retryCount + 1))) as [added ->];
      [lia|done|].
    simpl. rewrite <- !app_assoc. by eexists.
  - destruct (MAX_RETRY - 1 <=? retryCount); simpl.
    + rewrite <- !app_assoc. by eexists.
    + by eexists.
Qed.

(** With the breaker clear, [withRetry] does call the operation: the call
    is the first thing it does. *)
Lemma withRetry_invokes {A} (operation : Operation World A) retryCount st :
  retryBlocked st = false ->
  exists added,
    effects (withRetry operation retryCount st).2 =
    effects st ++ Invoked :: added.
Proof.
  intros Hclear. rewrite withRetry_body, Hclear.
  unfold attempt. destruct (operation (world st)) as [promise w].
  destruct (fetchWithTimeout promise TIMEOUT_MS) as [v|error]; [by eexists|].
  destruct (retry_test error retryCount).
  - edestruct (withRetry_effects operation (retryCount + 1)) as [added ->].
    simpl. rewrite <- !app_assoc. by eexists.
  - destruct (MAX_RETRY - 1 <=? retryCount); simpl.
    + rewrite <- !app_assoc. by eexists.
    + by eexists.
Qed.

(** ** Registering, editing, deleting *)

Lemma str_eq_true (a b : jsstring) : a = b -> str_eq a b = true.
Proof. intros. by apply bool_decide_eq_true_2. Qed.

Lemma str_eq_false (a b : jsstring) : a <> b -> str_eq a b = false.
Proof. intros. by apply bool_decide_eq_false_2. Qed.

Lemma str_eq_spec (a b : jsstring) : str_eq a b = true <-> a = b.
Proof. apply bool_decide_eq_true. Qed.

Lemma existsb_elem {A} (p : A -> bool) (l : list A) :
  existsb p l = true <-> exists x, x ∈ l /\ p x = true.
Proof.
  rewrite existsb_exists. split; intros (x & Hin & Hp); exists x;
    (split; [by apply list_elem_of_In|done]).
Qed.

Lemma records_filter st (p : Note -> bool) :
  records (set_notesData (List.filter (fun r => p (deref st r)) (notesData st))
             st) =
  List.filter p (records st).
Proof.
  unfold records, deref. cbn [notesData set_notesData heap].
  induction (notesData st) as [|r l IH]; csimpl; [done|].
  destruct (p (heap st !!! r)); csimpl; by rewrite IH.
Qed.


Lemma findIndex_Some {A} (p : A -> bool) (l : list A) i :
  findIndex p l = Some i ->
  exists x, l !! i = Some x /\ p x = true /\
            forall j y, j < i -> l !! j = Some y -> p y = false.
Proof.
  revert i. induction l as [|x l IH]; intros i; simpl; [done|].
  destruct (p x) eqn:Hp.
  - intros [= <-]. exists x. repeat split; [done|]. intros j y Hj. lia.
  - destruct (findIndex p l) as [k|]; [|done]. intros [= <-].
    destruct (IH k eq_refl) as (y & Hy & Hpy & Hbefore).
    exists y. repeat split; [done..|].
    intros [|j] z Hj; simpl; [by intros [= <-]|].
    apply Hbefore. lia.
Qed.

Lemma findIndex_None {A} (p : A -> bool) (l : list A) x :
  findIndex p l = None -> x ∈ l -> p x = false.
Proof.
  induction l as [|y l IH]; simpl; [by intros _ ?%elem_of_nil|].
  destruct (p y) eqn:Hp; [done|].
  destruct (findIndex p l); [done|].
  intros _ [->|Hin]%elem_of_cons; auto.
Qed.

(** A new object put in place of the one at [index]. *)
Lemma records_replace st index (n : Note) :
  well_formed st ->
  records (set_notesData (<[index := length (heap st)]> (notesData st))
             (set_heap (heap st ++ [n]) st)) =
  <[index := n]> (records st).
Proof.
  intros Hwf. unfold records, deref.
  cbn [notesData set_notesData heap set_heap].
  rewrite list_fmap_insert.
  rewrite lookup_total_app_r by done. rewrite Nat.sub_diag. simpl.
  f_equal. apply Forall_fmap_ext_1. eapply List.Forall_impl; [|exact Hwf].
  intros r Hr. simpl in Hr. by rewrite lookup_total_app_l.
Qed.


(** C9: whatever [handleEdit] does, and so when the update succeeds, each
    note of the collection keeps its place, its [id], its [Date], its
    [MissCount] and its [uid]: it is the note that was there, or that note
    with the four trimmed inputs as its [Title], [Question], [Answer] and
    [Explain]. *)
Theorem handleEdit_keeps_identity (note : ref)
    (title question answer explain : jsstring) st :
  well_formed st ->
  let st' := handleEdit note title question answer explain st in
  length (records st') = length (records st) /\
  forall i (old : Note), records st !! i = Some old ->
    exists new : Note,
      records st' !! i = Some new /\
      id new = id old /\ Date new = Date old /\
      MissCount new = MissCount old /\ uid new = uid old /\
      (new = old \/
       new = merge old (trim title) (trim question) (trim answer)
               (trim explain)).
Proof.
  intros Hwf st'.
  assert (records st' = records st \/
          exists index,
            records st' =
            <[index := merge (records st !!! index) (trim title)
                         (trim question) (trim answer) (trim explain)]>
              (records st)) as Hcases.
  { subst st'. unfold handleEdit. cbv zeta.
    destruct (validate _ _ _ _); [by left|].
    destruct (existsb _ _); [by left|].
    set (st0 := showLoading Updating (emit TitleErrorHidden st)).
    set (operation := updateDoc _ _).
    pose proof (withRetry_same_data operation 0 st0) as Hsame.
    destruct (withRetry operation 0 st0) as [[v|e] st1]; cbn [snd] in Hsame.
    - destruct (findIndex _ (records st1)) as [index|] eqn:Hfind.
      + right. exists index.
        apply findIndex_Some in Hfind as (x & Hx & _).
        change (records (renderListContent (closeModal (hideLoading
                  (saveToLocalStorage ?x ?y))))) with (records y).
        rewrite records_replace.
        * assert (records st1 = records st) as Hrec
            by apply (same_data_records _ _ Hsame).
          rewrite Hrec. f_equal. f_equal. rewrite <- Hrec.
          apply lookup_lt_Some in Hx. unfold records in Hx |- *.
          rewrite length_fmap in Hx. symmetry.
          by apply list_lookup_total_fmap.
        * destruct Hsame as (_&Hn&_&_&_&Hh&_). unfold well_formed.
          by rewrite Hn, Hh.
      + left. exact (same_data_records _ _ Hsame).
    - left. exact (same_data_records _ _ Hsame). }
  destruct Hcases as [->|[index ->]].
  - split; [done|]. intros i old Hold. exists old. by repeat split; auto.
  - split; [by rewrite length_insert|]. intros i old Hold.
    destruct (decide (index = i)) as [->|Hne].
    + rewrite list_lookup_insert_eq by by eapply lookup_lt_Some.
      rewrite (list_lookup_total_correct _ _ _ Hold).
      eexists. split; [done|]. by repeat split; auto.
    + rewrite list_lookup_insert_ne by done.
      exists old. by repeat split; auto.
Qed.

(** ** The random page *)







Lemma draw_elem fuel (availableNotes : list ref) st w (r : ref) w' :
  availableNotes <> [] ->
  draw fuel availableNotes st w = Some (r, w') ->
  r ∈ availableNotes.
Proof.
  intros Hne. revert w. induction fuel as [|fuel IH]; intros w; [done|].
  simpl. destruct (random_below _ w) as [k w1].
  destruct (is_current _ _); [by apply IH|].
  intros [= <- <-]. apply list_elem_of_lookup_total_2.
  apply Nat.mod_upper_bound. by destruct availableNotes.
Qed.

(** A new problem on display clears the guard, and the problem is a note
    of the collection. *)
Lemma renderRandomPage_resets fuel st (shown : ref) st' :
  renderRandomPage fuel st = Some (Some shown, st') ->
  missMarkUsed st' = false /\
  shown ∈ notesData st' /\
  notesData st' = notesData st /\
  heap st' = heap st.
Proof.
  unfold renderRandomPage. destruct (notesData st) as [|r0 l0] eqn:Hnotes.
  { done. }
  set (availableNotes := List.filter _ _).
  assert (forall r, r ∈ availableNotes -> r ∈ notesData st) as Hsub.
  { intros r Hr%list_elem_of_In. subst availableNotes.
    apply filter_In in Hr as [Hr _]. rewrite Hnotes. by apply list_elem_of_In. }
  destruct availableNotes as [|r1 [|r2 l]] eqn:Havail.
  - done.
  - intros [= <- <-]. repeat split; try done.
    change (r1 ∈ notesData st). apply Hsub. by left.
  - destruct (draw fuel (r1 :: r2 :: l) st (world st)) as [[r w]|] eqn:Hdraw;
      [|done].
    simpl. intros [= <- <-]. repeat split; try done.
    change (r ∈ notesData st). apply Hsub. by eapply draw_elem.
Qed.

(** *** The references stay well formed, the ids stay unique *)

Lemma well_formed_same st st' :
  notesData st' = notesData st -> heap st' = heap st ->
  well_formed st -> well_formed st'.
Proof. unfold well_formed. by intros -> ->. Qed.

Lemma well_formed_same_data st st' :
  same_data st st' -> well_formed st -> well_formed st'.
Proof. intros Hsame. apply well_formed_same; apply Hsame. Qed.

Lemma unique_ids_same st st' :
  notesData st' = notesData st -> heap st' = heap st ->
  unique_ids st -> unique_ids st'.
Proof. unfold unique_ids, records, deref. by intros -> ->. Qed.


Lemma handleMissMark_unique_ids (note : ref) st :
  unique_ids st -> unique_ids (handleMissMark note st).
Proof.
  intros Huniq. unfold handleMissMark.
  destruct (missMarkUsed st); [done|]. cbv zeta.
  set (armed := set_missMarkUsed true _). set (operation := updateDoc _ _).
  pose proof (withRetry_same_data operation 0 armed) as Hsame.
  assert (unique_ids (withRetry operation 0 armed).2) as Huniq1.
  { eapply (unique_ids_same st); [apply Hsame..|done]. }
  destruct (withRetry operation 0 armed) as [[v|e] st1]; cbn [snd] in *.
  - destruct (findIndex _ _) as [index|]; [|done].
    unfold unique_ids, records, deref in *. reduce_state.
    set (target := notesData st1 !!! index).
    match goal with
    | |- NoDup (?f <$> (?g <$> ?l)) =>
        assert (f <$> (g <$> l) =
                f <$> ((fun r => heap st1 !!! r) <$> l)) as ->; [|done]
    end.
    rewrite <- !list_fmap_compose. apply list_fmap_ext. intros i r _. simpl.
    destruct (decide (target = r)) as [<-|Hne];
      [|by rewrite list_lookup_total_insert_ne].
    destruct (decide (target < length (heap st1))) as [Hlt|Hge].
    + by rewrite list_lookup_total_insert_eq.
    + by rewrite list_insert_ge by lia.
  - done.
Qed.


Lemma handleDelete_well_formed (note : ref) input st :
  well_formed st -> well_formed (handleDelete note input st).
Proof.
  intros Hwf. unfold handleDelete. cbv zeta. destruct (negb _); [done|].
  set (st0 := showLoading Deleting (emit DeleteErrorHidden st)).
  set (operation := deleteDoc _).
  pose proof (withRetry_same_data operation 0 st0) as Hsame.
  assert (well_formed (withRetry operation 0 st0).2)
    as Hwf1 by by apply (well_formed_same_data st0).
  destruct (withRetry operation 0 st0) as [[v|e] st1];
    cbn [snd] in *; [|done].
  unfold well_formed in *. reduce_state.
  apply List.Forall_forall. intros r Hr. apply filter_In in Hr as [Hr _].
  rewrite List.Forall_forall in Hwf1. by apply Hwf1.
Qed.

Lemma well_formed_push st (n : Note) :
  well_formed st ->
  well_formed (set_notesData (notesData st ++ [length (heap st)])
                 (set_heap (heap st ++ [n]) st)).
Proof.
  unfold well_formed. reduce_state. intros Hwf.
  rewrite length_app. apply Forall_app. split.
  - eapply List.Forall_impl; [|exact Hwf]. intros r Hr. simpl in *. lia.
  - apply Forall_singleton. simpl. lia.
Qed.

Lemma well_formed_replace st index (n : Note) :
  well_formed st ->
  well_formed (set_notesData (<[index := length (heap st)]> (notesData st))
                 (set_heap (heap st ++ [n]) st)).
Proof.
  unfold well_formed. reduce_state. intros Hwf.
  rewrite length_app. apply Forall_insert.
  - eapply List.Forall_impl; [|exact Hwf]. intros r Hr. simpl in *. lia.
  - simpl. lia.
Qed.

Lemma well_formed_adopt st (notes : list Note) : well_formed (adopt notes st).
Proof.
  unfold well_formed, adopt. reduce_state.
  apply Forall_seq. intros r Hr. rewrite length_app. lia.
Qed.

Lemma handleRegister_well_formed title question answer explain st :
  well_formed st ->
  well_formed (handleRegister title question answer explain st).2.
Proof.
  intros Hwf. unfold handleRegister. cbv zeta.
  destruct (validate _ _ _ _); [done|]. destruct (existsb _ _); [done|].
  set (st0 := showLoading Registering (emit TitleErrorHidden st)).
  change (currentUser st0) with (currentUser st).
  destruct (currentUser st) as [u|]; [|done].
  set (operation := addDoc _).
  pose proof (withRetry_same_data operation 0 st0) as Hsame.
  assert (well_formed (withRetry operation 0 st0).2)
    as Hwf1 by by apply (well_formed_same_data st0).
  destruct (withRetry operation 0 st0)
    as [[v|e] st1]; cbn [snd] in *; [|done].
  eapply well_formed_same; [| |by apply (well_formed_push st1)]; done.
Qed.

Lemma handleEdit_well_formed (note : ref) title question answer explain st :
  well_formed st ->
  well_formed (handleEdit note title question answer explain st).
Proof.
  intros Hwf. unfold handleEdit. cbv zeta.
  destruct (validate _ _ _ _); [done|]. destruct (existsb _ _); [done|].
  set (st0 := showLoading Updating (emit TitleErrorHidden st)).
  set (operation := updateDoc _ _).
  pose proof (withRetry_same_data operation 0 st0) as Hsame.
  assert (well_formed (withRetry operation 0 st0).2)
    as Hwf1 by by apply (well_formed_same_data st0).
  destruct (withRetry operation 0 st0)
    as [[v|e] st1]; cbn [snd] in *; [|done].
  destruct (findIndex _ _) as [index|]; [|done].
  eapply well_formed_same; [| |by apply (well_formed_replace st1)]; done.
Qed.

Lemma renderListPage_well_formed st result st' :
  well_formed st -> renderListPage st = Some (result, st') -> well_formed st'.
Proof.
  intros Hwf. unfold renderListPage. cbv zeta.
  assert (well_formed (loadNotesFromFirestore
                         (showLoading LoadingData st)).2) as Hwf1.
  { unfold loadNotesFromFirestore.
    change (currentUser (showLoading LoadingData st)) with (currentUser st).
    destruct (currentUser st) as [u|]; [|done].
    pose proof (withRetry_same_data (getDocs u) 0
                  (showLoading LoadingData st)) as Hsame.
    assert (well_formed (withRetry (getDocs u) 0
                           (showLoading LoadingData st)).2) as Hwf1
      by by apply (well_formed_same_data (showLoading LoadingData st)).
    destruct (withRetry (getDocs u) 0 (showLoading LoadingData st))
      as [[v|e] st1]; cbn [snd] in *; [|done].
    eapply well_formed_same; [| |apply well_formed_adopt]; done. }
  destruct (loadNotesFromFirestore (showLoading LoadingData st))
    as [[v|e] st1]; cbn [snd] in *.
  - by intros [= <- <-].
  - destruct (getFromLocalStorage _) as [value|e']; [|by intros [= <- <-]].
    destruct (notes_of_json value) as [notes|]; [|done].
    simpl. intros [= <- <-].
    eapply well_formed_same; [| |apply well_formed_adopt]; done.
Qed.

Lemma existsb_false_elem {A} (p : A -> bool) (l : list A) x :
  existsb p l = false -> x ∈ l -> p x = false.
Proof.
  intros Hnone Hin. apply not_true_iff_false. intros Hp.
  assert (existsb p l = true) as Hsome by (apply existsb_elem; eauto).
  congruence.
Qed.

Lemma not_used (i : jsstring) (used : list jsstring) :
  negb (existsb (str_eq i) used) = true <-> i ∉ used.
Proof.
  rewrite negb_true_iff. split.
  - intros Hnone Hin.
    pose proof (existsb_false_elem _ _ i Hnone Hin) as Hne.
    by rewrite str_eq_true in Hne.
  - intros Hout. apply not_true_iff_false.
    intros (x & Hin & ->%str_eq_spec)%existsb_elem. done.
Qed.






(** ** The local mirror and the list page *)

(** After [saveToLocalStorage(notes)], [getFromLocalStorage] returns the
    array of these notes. *)
Lemma getFromLocalStorage_saved st (saved : list Note) :
  localStorage st = Some (JSON.stringify (notes_to_json saved)) ->
  getFromLocalStorage st = Return (notes_to_json saved).
Proof.
  intros Hsaved. unfold getFromLocalStorage.
  by rewrite Hsaved, saved_notes_not_empty, parse_saved_notes.
Qed.

(** C3, as the program has it: [getFromLocalStorage] returns the empty
    array when nothing is stored, and also when the empty string is
    stored; it returns what [JSON.parse] makes of any other stored text
    that parses, which for a text written by [saveToLocalStorage] is the
    collection that was saved; and when the stored text does not parse it
    does not return: it throws the [SyntaxError] of [JSON.parse]. *)
Theorem getFromLocalStorage_cases st :
  (localStorage st = None \/ localStorage st = Some [] ->
   getFromLocalStorage st = Return (JSON.JArray [])) /\
  (forall data value,
     localStorage st = Some data -> data <> [] ->
     JSON.parse data = Some value ->
     getFromLocalStorage st = Return value) /\
  (forall saved : list Note,
     localStorage st = Some (JSON.stringify (notes_to_json saved)) ->
     getFromLocalStorage st = Return (notes_to_json saved) /\
     notes_of_json (notes_to_json saved) = Some saved) /\
  (forall data,
     localStorage st = Some data -> data <> [] ->
     JSON.parse data = None ->
     getFromLocalStorage st = Throw SyntaxError).
Proof.
  split; [|split; [|split]].
  - unfold getFromLocalStorage. by intros [->| ->].
  - unfold getFromLocalStorage. intros data value -> Hne ->. by destruct data.
  - intros saved Hsaved. split; [by apply getFromLocalStorage_saved|].
    apply notes_of_json_to_json.
  - unfold getFromLocalStorage. intros data -> Hne ->. by destruct data.
Qed.

Lemma records_adopt st (notes : list Note) : records (adopt notes st) = notes.
Proof.
  unfold records, deref, adopt. cbn [notesData set_notesData heap set_heap].
  apply list_eq. intros i. rewrite list_lookup_fmap.
  destruct (notes !! i) as [n|] eqn:Hn.
  - rewrite lookup_seq_lt by by eapply lookup_lt_Some. simpl.
    rewrite lookup_total_app_r by lia.
    replace (length (heap st) + i - length (heap st)) with i by lia.
    f_equal. by apply list_lookup_total_correct.
  - rewrite lookup_seq_ge; [done|]. by apply lookup_ge_None.
Qed.


End Properties.

(** * The properties on the scripted world *)

Import Fixture.


Lemma withRetry_blocked_witness :
  let st := set_retryBlocked true (two_notes serving) in
  (withRetry (deleteDoc (js "n1")) 0 st).1 =
    Throw (Error (js "Retry blocked")) /\
  world (withRetry (deleteDoc (js "n1")) 0 st).2 = world st /\
  effects (withRetry (deleteDoc (js "n1")) 0 st).2 =
    effects st ++ [Toast E011] /\
  retryBlocked (withRetry (deleteDoc (js "n1")) 0 st).2 = true.
Proof.
  apply (withRetry_blocked (deleteDoc (js "n1")) 0
           (set_retryBlocked true (two_notes serving))).
  reflexivity.
Defined.

Lemma withRetry_other_failure_witness :
  withRetry (deleteDoc (js "n1")) 0 (two_notes refusing) =
  (Throw permission_denied,
   set_world (deleteDoc (js "n1") refusing).2
     (emit Invoked (two_notes refusing))).
Proof.
  apply (withRetry_other_failure (deleteDoc (js "n1")) (two_notes refusing)
           120 permission_denied).
  - reflexivity.
  - reflexivity.
  - reflexivity.
  - discriminate.
Defined.

Lemma withRetry_trips_on_any_failure_witness :
  (withRetry (deleteDoc (js "n1")) 2 (two_notes refusing)).1 =
    Throw permission_denied /\
  retryBlocked (withRetry (deleteDoc (js "n1")) 2 (two_notes refusing)).2 =
    true /\
  effects (withRetry (deleteDoc (js "n1")) 2 (two_notes refusing)).2 =
    effects (two_notes refusing) ++ [Invoked; Toast E011].
Proof.
  apply (withRetry_trips_on_any_failure (deleteDoc (js "n1")) 2
           (two_notes refusing) (Rejects 120 permission_denied)
           (deleteDoc (js "n1") refusing).2 permission_denied).
  - unfold MAX_RETRY. simpl. lia.
  - reflexivity.
  - reflexivity.
  - reflexivity.
Defined.

(** A mirror cut short does not parse, and [getFromLocalStorage] throws
    instead of returning the empty array. *)
Lemma getFromLocalStorage_corrupt_throws :
  (exists data,
     localStorage truncated = Some data /\ data <> [] /\
     JSON.parse data = None) /\
  getFromLocalStorage truncated = Throw SyntaxError /\
  getFromLocalStorage truncated <> Return (JSON.JArray []).
Proof.
  split; [|split].
  - eexists. split; [reflexivity|]. split; [discriminate|]. by vm_compute.
  - by vm_compute.
  - vm_compute. discriminate.
Qed.

Lemma getFromLocalStorage_cases_witness :
  getFromLocalStorage (two_notes serving) =
  Return (notes_to_json [algebra; geometry]).
Proof.
  apply (proj1 (proj2 (getFromLocalStorage_cases (two_notes serving)))
           (JSON.stringify (notes_to_json [algebra; geometry]))).
  - reflexivity.
  - discriminate.
  - by vm_compute.
Defined.





Lemma two_notes_well_formed w : well_formed (two_notes w).
Proof. unfold well_formed. simpl. repeat constructor. Defined.

Lemma two_notes_unique_ids w : unique_ids (two_notes w).
Proof. apply (bool_decide_unpack _). by vm_compute. Defined.

Lemma handleEdit_keeps_identity_witness :
  let st' :=
    handleEdit 0 (js "Algebra I") (js "2 + 3 = ?") (js "5") (js "sum")
      (two_notes serving) in
  length (records st') = length (records (two_notes serving)) /\
  forall i (old : Note), records (two_notes serving) !! i = Some old ->
    exists new : Note,
      records st' !! i = Some new /\
      id new = id old /\ Date new = Date old /\
      MissCount new = MissCount old /\ uid new = uid old /\
      (new = old \/
       new = merge old (trim (js "Algebra I")) (trim (js "2 + 3 = ?"))
               (trim (js "5")) (trim (js "sum"))).
Proof.
  apply (handleEdit_keeps_identity 0 (js "Algebra I") (js "2 + 3 = ?")
           (js "5") (js "sum") (two_notes serving)).
  apply two_notes_well_formed.
Defined.



(** ** Runs of the program *)

Example trim_example : trim (js "  Algebra   ") = js "Algebra".
Proof. reflexivity. Qed.

Example parse_number_example :
  JSON.parse (js " 123 ") = Some (JSON.JNumber 123).
Proof. by vm_compute. Qed.

Example parse_open_brace_example : JSON.parse (js "{") = None.
Proof. by vm_compute. Qed.

Example parse_trailing_comma_example : JSON.parse (js "[1,]") = None.
Proof. by vm_compute. Qed.

(** Two attempts that hang and a third that is refused: the breaker trips
    on the refusal. *)
Example refused_after_two_timeouts :
  let w := mkNet [Hangs; Hangs; Refuses 120 permission_denied] [] [] [] [] in
  let result := withRetry (deleteDoc (js "n1")) 0 (two_notes w) in
  result.1 = Throw permission_denied /\
  retryBlocked result.2 = true /\
  effects result.2 =
    [Invoked; Toast E010; ShowLoading RetryingText;
     Invoked; Toast E010; ShowLoading RetryingText;
     Invoked; Toast E011].
Proof. by vm_compute. Qed.

(** Loading the list, showing a problem, marking a miss on it twice. *)
Example list_then_miss :
  let st0 := start (js "alice") serving in
  let st1 := (default (Return tt, st0) (renderListPage st0)).2 in
  let shown := default (None, st1) (renderRandomPage 1 st1) in
  let st3 := handleMissMark 1 shown.2 in
  renderListPage st0 = Some (Return tt, st1) /\
  records st1 = [algebra; geometry] /\
  shown.1 = Some 1 /\
  missMarkUsed shown.2 = false /\
  MissCount (deref st3 1) = 3%Z /\
  handleMissMark 1 st3 = st3 /\
  documents (world st3) =
    [(id algebra, data algebra);
     (id geometry, data (with_MissCount 3 geometry))].
Proof. by vm_compute. Qed.

(** Deleting with the wrong title and then with the right one. *)
Example delete_wrong_then_right :
  let st1 := handleDelete 0 (js "Wrong Title") (two_notes serving) in
  let st2 := handleDelete 0 (js "Algebra") st1 in
  records st1 = [algebra; geometry] /\
  world st1 = serving /\
  records st2 = [geometry] /\
  documents (world st2) = [(id geometry, data geometry)] /\
  localStorage st2 = Some (JSON.stringify (notes_to_json [geometry])).
Proof. by vm_compute. Qed.

(** * More of the program *)

Section Further.

Context {World : Type} `{Host World}.

Implicit Types st : State World.

Ltac reduce_state :=
  cbn [showError showLoading hideLoading closeModal renderListContent emit
       set_notesData set_retryBlocked set_usedProblemIds set_currentProblemId
       set_missMarkUsed set_heap set_localStorage set_world set_currentUser
       saveToLocalStorage clearLocalStorage
       currentUser notesData retryBlocked usedProblemIds currentProblemId
       missMarkUsed heap localStorage world effects fst snd].

Tactic Notation "reduce_state" "in" hyp(H) :=
  cbn [showError showLoading hideLoading closeModal renderListContent emit
       set_notesData set_retryBlocked set_usedProblemIds set_currentProblemId
       set_missMarkUsed set_heap set_localStorage set_world set_currentUser
       saveToLocalStorage clearLocalStorage
       currentUser notesData retryBlocked usedProblemIds currentProblemId
       missMarkUsed heap localStorage world effects fst snd] in H.

(** ** The retry wrapper, beyond its failures *)

Lemma timed_out_attempts_data {A} (operation : Operation World A) k st :
  same_data st (timed_out_attempts operation k st) /\
  retryBlocked (timed_out_attempts operation k st) = retryBlocked st /\
  effects (timed_out_attempts operation k st) =
    effects st ++
    concat (replicate k [Invoked; Toast E010; ShowLoading RetryingText]).
Proof.
  revert st. induction k as [|k IH]; intros st.
  - simpl. rewrite app_nil_r. split; [apply same_data_refl|done].
  - cbn [timed_out_attempts].
    destruct (IH (showLoading RetryingText
                    (showError E010
                       (set_world (operation (world st)).2
                          (emit Invoked st))))) as (Hsame & Hblocked & Heff).
    split; [|split].
    + eapply same_data_trans; [|exact Hsame]. by repeat split.
    + by rewrite Hblocked.
    + rewrite Heff. reduce_state. cbn [replicate concat].
      by rewrite <- !app_assoc.
Qed.

(** Attempts that run into the timer, as long as one more may follow, lead
    to the next attempt. *)
Lemma withRetry_after_timeouts {A} (operation : Operation World A)
    retryCount k st :
  retryBlocked st = false ->
  retryCount + k <= MAX_RETRY - 1 ->
  (forall i, i < k ->
     timed_out (operation (world (timed_out_attempts operation i st))).1) ->
  withRetry operation retryCount st =
  withRetry operation (retryCount + k) (timed_out_attempts operation k st).
Proof.
  revert retryCount st. induction k as [|k IH]; intros retryCount st.
  - intros _ _ _. by rewrite Nat.add_0_r.
  - intros Hclear Hle Hto.
    rewrite withRetry_timeout_retries; [|done|lia|exact (Hto 0 ltac:(lia))].
    rewrite IH; [|done|lia|].
    + cbn [timed_out_attempts]. f_equal. lia.
    + intros i Hi. apply (Hto (S i)). lia.
Qed.

(** X1: an operation whose first [k] attempts run into the timer and whose
    next attempt, the third at the latest, is fulfilled in time: [withRetry]
    returns the value of that attempt, the breaker stays clear, and the
    page has shown one E010 toast and one retry text for each attempt that
    timed out, and nothing else. *)
Theorem withRetry_recovers {A} (operation : Operation World A) st k ms v w :
  retryBlocked st = false ->
  k < MAX_RETRY ->
  (forall i, i < k ->
     timed_out (operation (world (timed_out_attempts operation i st))).1) ->
  operation (world (timed_out_attempts operation k st)) = (Fulfills ms v, w) ->
  (ms < TIMEOUT_MS)%N ->
  let result := withRetry operation 0 st in
  result.1 = Return v /\
  world result.2 = w /\
  retryBlocked result.2 = false /\
  same_data st result.2 /\
  effects result.2 =
    effects st ++
    concat (replicate k [Invoked; Toast E010; ShowLoading RetryingText]) ++
    [Invoked].
Proof.
  intros Hclear Hk Hto Hop Hms result. subst result.
  rewrite (withRetry_after_timeouts operation 0 k) by (done || lia).
  destruct (timed_out_attempts_data operation k st)
    as (Hsame & Hblocked & Heff).
  rewrite withRetry_body, Hblocked, Hclear.
  unfold attempt. rewrite Hop. cbn [fetchWithTimeout].
  apply N.ltb_lt in Hms. rewrite Hms. reduce_state.
  split; [done|]. split; [done|]. split; [by rewrite Hblocked|].
  split.
  - eapply same_data_trans; [exact Hsame|]. by repeat split.
  - by rewrite Heff, <- app_assoc.
Qed.

(** X2: a failure that is no timeout, on an attempt before the last one
    and after any number of attempts that timed out, is thrown on as it is:
    the operation is not called again and the breaker stays clear. *)
Theorem withRetry_failure_before_last {A} (operation : Operation World A)
    st k ms error w :
  retryBlocked st = false ->
  k < MAX_RETRY - 1 ->
  (forall i, i < k ->
     timed_out (operation (world (timed_out_attempts operation i st))).1) ->
  operation (world (timed_out_attempts operation k st)) =
    (Rejects ms error, w) ->
  (ms < TIMEOUT_MS)%N ->
  message error <> js "timeout" ->
  let result := withRetry operation 0 st in
  result.1 = Throw error /\
  world result.2 = w /\
  retryBlocked result.2 = false /\
  effects result.2 =
    effects st ++
    concat (replicate k [Invoked; Toast E010; ShowLoading RetryingText]) ++
    [Invoked].
Proof.
  intros Hclear Hk Hto Hop Hms Hmsg result. subst result.
  rewrite (withRetry_after_timeouts operation 0 k) by (done || lia).
  destruct (timed_out_attempts_data operation k st)
    as (Hsame & Hblocked & Heff).
  rewrite withRetry_body, Hblocked, Hclear.
  unfold attempt. rewrite Hop. cbn [fetchWithTimeout].
  apply N.ltb_lt in Hms. rewrite Hms.
  unfold retry_test. rewrite str_eq_false by done. cbn [andb].
  assert ((MAX_RETRY - 1 <=? 0 + k) = false) as -> by (apply Nat.leb_gt; lia).
  reduce_state.
  split; [done|]. split; [done|]. split; [by rewrite Hblocked|].
  by rewrite Heff, <- app_assoc.
Qed.

(** X3: whatever the operation does, one call of [withRetry] calls it at
    most [MAX_RETRY] times (from attempt counter 0: three times), shows at
    most [MAX_RETRY - 1] toasts E010 and at most one toast E011. *)
Theorem withRetry_bounded {A} (operation : Operation World A) retryCount st :
  exists added,
    effects (withRetry operation retryCount st).2 = effects st ++ added /\
    count_effect Invoked added <= Nat.max 1 (MAX_RETRY - retryCount) /\
    count_effect (Toast E010) added <= MAX_RETRY - 1 - retryCount /\
    count_effect (Toast E011) added <= 1.
Proof.
  remember (MAX_RETRY - 1 - retryCount) as n eqn:Hn.
  revert retryCount st Hn.
  induction n as [n IH] using lt_wf_ind. intros retryCount st Hn.
  rewrite withRetry_body.
  destruct (retryBlocked st).
  { exists [Toast E011]. split; [done|]. vm_compute count_effect. lia. }
  unfold attempt. destruct (operation (world st)) as [promise w].
  destruct (fetchWithTimeout promise TIMEOUT_MS) as [v|error].
  { exists [Invoked]. split; [done|]. vm_compute count_effect. lia. }
  destruct (retry_test error retryCount) eqn:Htest.
  - unfold retry_test in Htest.
    apply andb_true_iff in Htest as [_ Hlt]. apply Nat.ltb_lt in Hlt.
    edestruct (IH (MAX_RETRY - 1 - (retryCount + 1)))
      as (added & -> & Hinv & H10 & H11); [lia|done|].
    exists ([Invoked; Toast E010; ShowLoading RetryingText] ++ added).
    split; [reduce_state; by rewrite <- !app_assoc|].
    rewrite !count_effect_app.
    change (count_effect Invoked
              [Invoked; Toast E010; ShowLoading RetryingText]) with 1.
    change (count_effect (Toast E010)
              [Invoked; Toast E010; ShowLoading RetryingText]) with 1.
    change (count_effect (Toast E011)
              [Invoked; Toast E010; ShowLoading RetryingText]) with 0.
    unfold MAX_RETRY in *. lia.
  - destruct (MAX_RETRY - 1 <=? retryCount).
    + exists [Invoked; Toast E011].
      split; [reduce_state; by rewrite <- !app_assoc|].
      vm_compute count_effect. lia.
    + exists [Invoked]. split; [done|]. vm_compute count_effect. lia.
Qed.

(** X4: the breaker and the result of [withRetry] go together.  A call
    that returns a value found the breaker clear and leaves it clear,
    without an E011 toast; a call that leaves the breaker set has thrown,
    and the E011 toast is the last thing it did. *)
Theorem withRetry_breaker {A} (operation : Operation World A) retryCount st :
  let result := withRetry operation retryCount st in
  (forall v, result.1 = Return v ->
     retryBlocked st = false /\ retryBlocked result.2 = false /\
     count_effect (Toast E011) (effects result.2) =
       count_effect (Toast E011) (effects st)) /\
  (retryBlocked result.2 = true ->
     exists error before,
       result.1 = Throw error /\
       effects result.2 = before ++ [Toast E011]).
Proof.
  remember (MAX_RETRY - 1 - retryCount) as n eqn:Hn.
  revert retryCount st Hn.
  induction n as [n IH] using lt_wf_ind. intros retryCount st Hn result.
  subst result. rewrite withRetry_body.
  destruct (retryBlocked st) eqn:Hblocked.
  { split; [done|]. intros _. by eexists _, _. }
  unfold attempt. destruct (operation (world st)) as [promise w].
  destruct (fetchWithTimeout promise TIMEOUT_MS) as [v|error].
  { split; [|by reduce_state; rewrite Hblocked].
    intros v' _. reduce_state. rewrite count_effect_app.
    change (count_effect (Toast E011) [Invoked]) with 0.
    repeat split; [done|lia]. }
  destruct (retry_test error retryCount) eqn:Htest.
  - unfold retry_test in Htest.
    apply andb_true_iff in Htest as [_ Hlt]. apply Nat.ltb_lt in Hlt.
    set (st1 := showLoading RetryingText _).
    destruct (IH (MAX_RETRY - 1 - (retryCount + 1)) ltac:(lia)
                (retryCount + 1) st1 eq_refl) as [Hret Hset].
    split; [|exact Hset].
    intros v Hv. destruct (Hret v Hv) as (_ & Hclear & Hcount).
    split; [done|]. split; [done|]. rewrite Hcount. subst st1. reduce_state.
    rewrite !count_effect_app.
    change (count_effect (Toast E011) [Invoked]) with 0.
    change (count_effect (Toast E011) [Toast E010]) with 0.
    change (count_effect (Toast E011) [ShowLoading RetryingText]) with 0.
    lia.
  - destruct (MAX_RETRY - 1 <=? retryCount).
    + split; [done|]. intros _. by eexists _, _.
    + split; [done|]. reduce_state. by rewrite Hblocked.
Qed.

(** ** The checks on the inputs *)

Lemma trimStart_whitespace (s : jsstring) :
  Forall (fun c => is_js_whitespace c = true) s -> trimStart s = [].
Proof.
  induction 1 as [|c s Hc _ IH]; [done|]. simpl. by rewrite Hc.
Qed.

Lemma trim_whitespace (s : jsstring) :
  Forall (fun c => is_js_whitespace c = true) s -> trim s = [].
Proof.
  intros Hs. unfold trim, trimEnd. by rewrite (trimStart_whitespace s).
Qed.

Lemma falsy_false (s : jsstring) : s <> [] -> falsy s = false.
Proof. by destruct s. Qed.

(** X5: what [handleRegister] and [handleEdit] ask of the trimmed inputs,
    in this order.  A title, question or answer that is empty, and so one
    made of white space only, stops both with the E007 toast; then a title
    of more than 50 code units stops them with E012; then a question,
    answer or explanation of more than 999 code units stops them with
    E013.  Nothing else happens in these cases: no remote call, no change
    of the collection.  Inputs within these bounds, the explanation
    possibly empty, pass the checks. *)
Theorem input_checks (t q a e : jsstring) st :
  let title := trim t in
  let question := trim q in
  let answer := trim a in
  let explain := trim e in
  let refused code :=
    handleRegister t q a e st =
      (Return tt, showError code (emit TitleErrorHidden st)) /\
    forall note : ref,
      handleEdit note t q a e st =
      showError code (emit TitleErrorHidden st) in
  (title = [] \/ question = [] \/ answer = [] -> refused E007) /\
  (Forall (fun c => is_js_whitespace c = true) t -> refused E007) /\
  (title <> [] /\ question <> [] /\ answer <> [] /\
   TITLE_MAX_LENGTH < length title -> refused E012) /\
  (title <> [] /\ question <> [] /\ answer <> [] /\
   length title <= TITLE_MAX_LENGTH /\
   (CONTENT_MAX_LENGTH < length question \/
    CONTENT_MAX_LENGTH < length answer \/
    CONTENT_MAX_LENGTH < length explain) -> refused E013) /\
  (title <> [] /\ question <> [] /\ answer <> [] /\
   length title <= TITLE_MAX_LENGTH /\
   length question <= CONTENT_MAX_LENGTH /\
   length answer <= CONTENT_MAX_LENGTH /\
   length explain <= CONTENT_MAX_LENGTH ->
   validate title question answer explain = None).
Proof.
  intros title question answer explain refused.
  assert (forall code,
            validate title question answer explain = Some code ->
            refused code) as Hstop.
  { intros code Hcode. split; [|intros note].
    - unfold handleRegister. cbv zeta.
      fold title question answer explain. by rewrite Hcode.
    - unfold handleEdit. cbv zeta.
      fold title question answer explain. by rewrite Hcode. }
  assert (title = [] \/ question = [] \/ answer = [] ->
          validate title question answer explain = Some E007) as Hempty.
  { unfold validate. intros [->|[->| ->]]; [done| |].
    - by rewrite orb_true_r.
    - by rewrite orb_true_r. }
  split; [by intros ?; apply Hstop, Hempty|].
  split.
  { intros Hws. apply Hstop, Hempty. left. by apply trim_whitespace. }
  split; [|split].
  - intros (Ht & Hq & Ha & Hlen). apply Hstop. unfold validate.
    rewrite !falsy_false by done. cbn [orb].
    apply Nat.ltb_lt in Hlen. by rewrite Hlen.
  - intros (Ht & Hq & Ha & Hlen & Hlong). apply Hstop. unfold validate.
    rewrite !falsy_false by done. cbn [orb].
    assert ((TITLE_MAX_LENGTH <? length title) = false) as ->
      by (apply Nat.ltb_ge; lia).
    assert ((CONTENT_MAX_LENGTH <? length question)
            || (CONTENT_MAX_LENGTH <? length answer)
            || (CONTENT_MAX_LENGTH <? length explain) = true) as ->; [|done].
    rewrite !orb_true_iff, !Nat.ltb_lt. tauto.
  - intros (Ht & Hq & Ha & Hlt & Hlq & Hla & Hle). unfold validate.
    rewrite !falsy_false by done. cbn [orb].
    assert ((TITLE_MAX_LENGTH <? length title) = false) as ->
      by (apply Nat.ltb_ge; lia).
    assert ((CONTENT_MAX_LENGTH <? length question) = false) as ->
      by (apply Nat.ltb_ge; lia).
    assert ((CONTENT_MAX_LENGTH <? length answer) = false) as ->
      by (apply Nat.ltb_ge; lia).
    assert ((CONTENT_MAX_LENGTH <? length explain) = false) as ->
      by (apply Nat.ltb_ge; lia).
    done.
Qed.

(** ** The mirror follows the collection *)

Lemma mirror_in_sync_same st st' :
  localStorage st' = localStorage st ->
  notesData st' = notesData st -> heap st' = heap st ->
  mirror_in_sync st -> mirror_in_sync st'.
Proof.
  unfold mirror_in_sync, records, deref. by intros -> -> ->.
Qed.

Lemma mirror_in_sync_same_data st st' :
  same_data st st' -> mirror_in_sync st -> mirror_in_sync st'.
Proof. intros Hsame. apply mirror_in_sync_same; apply Hsame. Qed.


(** What [withRetry] adds to the record of effects: calls of the operation
    and its own two toasts and loading text. *)
Lemma withRetry_adds {A} (operation : Operation World A) retryCount st :
  exists added,
    effects (withRetry operation retryCount st).2 = effects st ++ added /\
    Forall (fun e => e = Invoked \/ e = Toast E010 \/
                     e = ShowLoading RetryingText \/ e = Toast E011) added.
Proof.
  remember (MAX_RETRY - 1 - retryCount) as n eqn:Hn.
  revert retryCount st Hn.
  induction n as [n IH] using lt_wf_ind. intros retryCount st Hn.
  rewrite withRetry_body.
  destruct (retryBlocked st).
  { exists [Toast E011]. split; [done|]. by repeat (constructor; [tauto|]). }
  unfold attempt. destruct (operation (world st)) as [promise w].
  destruct (fetchWithTimeout promise TIMEOUT_MS) as [v|error].
  { exists [Invoked]. split; [done|]. by repeat (constructor; [tauto|]). }
  destruct (retry_test error retryCount) eqn:Htest.
  - unfold retry_test in Htest.
    apply andb_true_iff in Htest as [_ Hlt]. apply Nat.ltb_lt in Hlt.
    edestruct (IH (MAX_RETRY - 1 - (retryCount + 1)))
      as (added & -> & Hadded); [lia|done|].
    exists ([Invoked; Toast E010; ShowLoading RetryingText] ++ added).
    split; [reduce_state; by rewrite <- !app_assoc|].
    apply Forall_app. split; [|done]. by repeat (constructor; [tauto|]).
  - destruct (MAX_RETRY - 1 <=? retryCount).
    + exists [Invoked; Toast E011].
      split; [reduce_state; by rewrite <- !app_assoc|].
      by repeat (constructor; [tauto|]).
    + exists [Invoked]. split; [done|]. by repeat (constructor; [tauto|]).
Qed.

(** What a failed [loadNotesFromFirestore] leaves: the data as they were,
    and effects of [withRetry] only. *)
Lemma loadNotesFromFirestore_failure st error :
  (loadNotesFromFirestore st).1 = Throw error ->
  same_data st (loadNotesFromFirestore st).2 /\
  exists added,
    effects (loadNotesFromFirestore st).2 = effects st ++ added /\
    Forall (fun e => e = Invoked \/ e = Toast E010 \/
                     e = ShowLoading RetryingText \/ e = Toast E011) added.
Proof.
  unfold loadNotesFromFirestore.
  destruct (currentUser st) as [u|].
  - pose proof (withRetry_same_data (getDocs u) 0 st) as Hsame.
    pose proof (withRetry_adds (getDocs u) 0 st) as Hadds.
    destruct (withRetry (getDocs u) 0 st) as [[v|e] st1]; [done|].
    by intros _.
  - intros _. split; [apply same_data_refl|].
    exists []. by rewrite app_nil_r.
Qed.

(** The list page after a load that failed, by what the mirror holds. *)
Lemma renderListPage_fallback st error :
  let load := loadNotesFromFirestore (showLoading LoadingData st) in
  load.1 = Throw error ->
  renderListPage st =
  let st2 := emit (ConsoleError error) load.2 in
  match getFromLocalStorage st2 with
  | Throw e => Some (Throw e, st2)
  | Return value =>
      notes ← notes_of_json value;
      Some (Return tt, renderListContent (hideLoading (adopt notes st2)))
  end.
Proof.
  intros load Hthrow. unfold renderListPage. cbv zeta. fold load.
  destruct load as [[v|e] st1]; cbn [fst snd] in *; [done|].
  by injection Hthrow as ->.
Qed.


(** X7: a list page whose load fails while the mirror holds a text that
    does not parse.  [renderListPage] throws the [SyntaxError] of
    [JSON.parse]: the collection and the mirror are as before, and after
    the loading overlay was shown at the start nothing hides it and the
    list is not rendered. *)
Theorem renderListPage_corrupt_mirror st error data :
  (loadNotesFromFirestore (showLoading LoadingData st)).1 = Throw error ->
  localStorage st = Some data -> data <> [] -> JSON.parse data = None ->
  exists st' added,
    renderListPage st = Some (Throw SyntaxError, st') /\
    same_data st st' /\
    effects st' = effects st ++ ShowLoading LoadingData :: added /\
    (HideLoading ∉ added) /\ (ListRendered ∉ added).
Proof.
  intros Hthrow Hdata Hne Hparse.
  rewrite (renderListPage_fallback st error Hthrow). cbv zeta.
  destruct (loadNotesFromFirestore_failure _ _ Hthrow)
    as [Hsame (added & Heff & Hadded)].
  set (st1 := (loadNotesFromFirestore (showLoading LoadingData st)).2) in *.
  assert (localStorage st1 = localStorage st) as Hkept by apply Hsame.
  unfold getFromLocalStorage. reduce_state. rewrite Hkept, Hdata.
  rewrite falsy_false by done. rewrite Hparse.
  exists (emit (ConsoleError error) st1), (added ++ [ConsoleError error]).
  split; [done|]. split.
  { eapply same_data_trans; [|eapply same_data_trans; [exact Hsame|]];
      by repeat split. }
  split.
  { reduce_state. rewrite Heff. reduce_state. by rewrite <- !app_assoc. }
  split.
  - intros [Hin|Hin]%elem_of_app.
    + rewrite List.Forall_forall in Hadded.
      apply list_elem_of_In, Hadded in Hin.
      by destruct Hin as [?|[?|[?|?]]].
    + by apply list_elem_of_singleton in Hin.
  - intros [Hin|Hin]%elem_of_app.
    + rewrite List.Forall_forall in Hadded.
      apply list_elem_of_In, Hadded in Hin.
      by destruct Hin as [?|[?|[?|?]]].
    + by apply list_elem_of_singleton in Hin.
Qed.

(** X8: a list page whose load fails while nothing is stored under the
    key, or the empty string is: the page returns and renders an empty
    list, and the notes that the collection held are no longer in it. *)
Theorem renderListPage_nothing_stored st error :
  (loadNotesFromFirestore (showLoading LoadingData st)).1 = Throw error ->
  localStorage st = None \/ localStorage st = Some [] ->
  exists st',
    renderListPage st = Some (Return tt, st') /\
    notesData st' = [] /\ records st' = [] /\
    localStorage st' = localStorage st /\
    exists before, effects st' = before ++ [HideLoading; ListRendered].
Proof.
  intros Hthrow Hnone.
  rewrite (renderListPage_fallback st error Hthrow). cbv zeta.
  destruct (loadNotesFromFirestore_failure _ _ Hthrow) as [Hsame _].
  set (st1 := (loadNotesFromFirestore (showLoading LoadingData st)).2) in *.
  assert (localStorage st1 = localStorage st) as Hkept by apply Hsame.
  assert (getFromLocalStorage (emit (ConsoleError error) st1) =
          Return (JSON.JArray [])) as ->.
  { unfold getFromLocalStorage. reduce_state. rewrite Hkept.
    by destruct Hnone as [->| ->]. }
  cbn [notes_of_json notes_of_items mbind option_bind].
  exists (renderListContent
            (hideLoading (adopt [] (emit (ConsoleError error) st1)))).
  split; [reflexivity|].
  split; [reflexivity|].
  split.
  { change (records (renderListContent (hideLoading ?y))) with (records y).
    apply records_adopt. }
  split; [exact Hkept|].
  exists (effects st1 ++ [ConsoleError error]).
  unfold adopt. reduce_state. by rewrite <- !app_assoc.
Qed.

(** ** Registering *)

Lemma records_push st (n : Note) :
  well_formed st ->
  records (set_notesData (notesData st ++ [length (heap st)])
             (set_heap (heap st ++ [n]) st)) =
  records st ++ [n].
Proof.
  intros Hwf. unfold records, deref.
  cbn [notesData set_notesData heap set_heap].
  rewrite fmap_app. f_equal.
  - apply Forall_fmap_ext_1. eapply List.Forall_impl; [|exact Hwf].
    intros r Hr. simpl in Hr. by rewrite lookup_total_app_l.
  - simpl. rewrite lookup_total_app_r by done. by rewrite Nat.sub_diag.
Qed.

Lemma title_free (title : jsstring) (l : list Note) :
  (forall n : Note, n ∈ l -> Title n <> title) ->
  existsb (fun n : Note => str_eq (Title n) title) l = false.
Proof.
  intros Hfree. apply not_true_iff_false.
  intros (n & Hin & Hn%str_eq_spec)%existsb_elem. by apply (Hfree n).
Qed.

Lemma filter_title_free (title : jsstring) (l : list Note) :
  (forall n : Note, n ∈ l -> Title n <> title) ->
  List.filter (fun n : Note => str_eq (Title n) title) l = [].
Proof.
  induction l as [|n l IH]; [done|]. intros Hfree. cbn [List.filter].
  rewrite str_eq_false by (apply Hfree; by left).
  apply IH. intros n' Hn'. apply Hfree. by right.
Qed.


(** X10: after a [handleRegister] that succeeded, a second one with the
    same title, whatever white space surrounds it and whatever the other
    inputs that pass the checks, stops with the E008 toast: no remote call
    is made and the collection keeps the one note of that title. *)
Theorem handleRegister_twice (t q a e t' q' a' e' : jsstring) st u docRef_id :
  well_formed st ->
  validate (trim t) (trim q) (trim a) (trim e) = None ->
  (forall n : Note, n ∈ records st -> Title n <> trim t) ->
  currentUser st = Some u ->
  (withRetry
     (addDoc {| Title := trim t; Question := trim q; Answer := trim a;
                Explain := trim e; Date := getCurrentDateTime st;
                MissCount := 0; uid := u |}) 0
     (showLoading Registering (emit TitleErrorHidden st))).1 =
    Return docRef_id ->
  trim t' = trim t ->
  validate (trim t') (trim q') (trim a') (trim e') = None ->
  let st1 := (handleRegister t q a e st).2 in
  let result := handleRegister t' q' a' e' st1 in
  result =
    (Return tt,
     showError E008 (emit TitleErrorShown (emit TitleErrorHidden st1))) /\
  world result.2 = world st1 /\
  records result.2 = records st1 /\
  length (List.filter (fun n : Note => str_eq (Title n) (trim t))
            (records result.2)) = 1.
Proof.
  intros Hwf Hvalid Hfree Huser Hcall Htitle Hvalid' st1 result.
  set (newNote := {| Title := trim t; Question := trim q; Answer := trim a;
                     Explain := trim e; Date := getCurrentDateTime st;
                     MissCount := 0; uid := u |}) in *.
  assert (records st1 = records st ++ [mkNote docRef_id newNote]) as Hrec.
  { subst st1. unfold handleRegister. cbv zeta. rewrite Hvalid.
    change (records (emit TitleErrorHidden st)) with (records st).
    rewrite title_free by done.
    set (st0 := showLoading Registering (emit TitleErrorHidden st)) in *.
    change (currentUser st0) with (currentUser st). rewrite Huser.
    change (getCurrentDateTime st0) with (getCurrentDateTime st).
    fold newNote.
    pose proof (withRetry_same_data (addDoc newNote) 0 st0) as Hsame.
    destruct (withRetry (addDoc newNote) 0 st0) as [[v|err] st2];
      cbn [fst snd] in *; [|done].
    injection Hcall as ->.
    assert (well_formed st2) as Hwf2.
    { apply (well_formed_same_data st0); [done|].
      by apply (well_formed_same st). }
    change (records (renderListContent (closeModal (hideLoading
              (saveToLocalStorage ?x ?y))))) with (records y).
    rewrite records_push by done. f_equal.
    transitivity (records st0); [|done]. by apply same_data_records. }
  assert (result =
          (Return tt,
           showError E008 (emit TitleErrorShown (emit TitleErrorHidden st1))))
    as Hresult.
  { subst result. unfold handleRegister. cbv zeta. rewrite Hvalid'.
    change (records (emit TitleErrorHidden st1)) with (records st1).
    assert (existsb (fun n : Note => str_eq (Title n) (trim t'))
              (records st1) = true) as ->; [|done].
    apply existsb_elem. exists (mkNote docRef_id newNote).
    split; [rewrite Hrec; apply elem_of_app; right; by left|].
    by apply str_eq_true. }
  rewrite Hresult. cbn [fst snd].
  split; [done|]. split; [done|]. split; [done|].
  change (records (showError E008 (emit TitleErrorShown
            (emit TitleErrorHidden st1)))) with (records st1).
  rewrite Hrec, List.filter_app, length_app.
  assert (List.filter (fun n : Note => str_eq (Title n) (trim t))
            (records st) = []) as ->.
  { by apply filter_title_free. }
  cbn [List.filter]. by rewrite str_eq_true.
Qed.

(** ** Titles and ids stay unique *)

Lemma NoDup_insert_fresh {A} (l : list A) i x :
  NoDup l ->
  (forall j y, j <> i -> l !! j = Some y -> y <> x) ->
  NoDup (<[i := x]> l).
Proof.
  rewrite !NoDup_alt. intros Hnd Hfresh j1 j2 y H1 H2.
  apply list_lookup_insert_Some in H1, H2.
  destruct H1 as [(<- & <- & _)|(Hne1 & H1)];
    destruct H2 as [(<- & Hx & _)|(Hne2 & H2)]; try done.
  - exfalso. by apply (Hfresh j2 x).
  - subst y. exfalso. by apply (Hfresh j1 x).
  - by apply (Hnd j1 j2 y).
Qed.

Lemma NoDup_fmap_filter {A B} (f : A -> B) (p : A -> bool) (l : list A) :
  NoDup (f <$> l) -> NoDup (f <$> List.filter p l).
Proof.
  induction l as [|x l IH]; [done|]. csimpl.
  intros [Hx Hl]%list.NoDup_cons. destruct (p x); [|by apply IH]. csimpl.
  apply list.NoDup_cons. split; [|by apply IH].
  intros (y & Hy & Hin)%list_elem_of_fmap. apply Hx.
  apply list_elem_of_fmap. exists y. split; [done|].
  apply list_elem_of_In in Hin. apply filter_In in Hin as [Hin _].
  by apply list_elem_of_In.
Qed.

(** Writing a miss count into an object changes no field but that one of
    the notes of the collection. *)
Lemma fmap_records_miss {B} (f : Note -> B) st (target : ref) m :
  (forall n, f (with_MissCount m n) = f n) ->
  f <$> records
          (set_heap
             (<[target := with_MissCount m (deref st target)]> (heap st))
             st) =
  f <$> records st.
Proof.
  intros Hf. unfold records, deref. reduce_state.
  rewrite <- !list_fmap_compose. apply list_fmap_ext. intros i r _. simpl.
  destruct (decide (target = r)) as [<-|Hne];
    [|by rewrite list_lookup_total_insert_ne].
  destruct (decide (target < length (heap st))) as [Hlt|Hge].
  - by rewrite list_lookup_total_insert_eq.
  - by rewrite list_insert_ge by lia.
Qed.

Lemma filter_all {A} (p : A -> bool) (l : list A) :
  (forall x, x ∈ l -> p x = true) -> List.filter p l = l.
Proof.
  induction l as [|x l IH]; [done|]. intros Hall. cbn [List.filter].
  rewrite Hall by by left. f_equal. apply IH. intros y Hy. apply Hall.
  by right.
Qed.

(** With unique ids, the notes that have not the id of the note at [k] are
    all the notes but that one. *)
Lemma filter_other_ids (l : list Note) k (x : Note) :
  NoDup (id <$> l) -> l !! k = Some x ->
  List.filter (fun n : Note => negb (str_eq (id n) (id x))) l = delete k l.
Proof.
  revert k. induction l as [|y l IH]; intros k; [done|]. csimpl.
  intros [Hy Hl]%list.NoDup_cons. destruct k as [|k]; simpl.
  - intros [= ->]. rewrite str_eq_true by done. cbn [negb].
    apply filter_all. intros n Hn. apply negb_true_iff, str_eq_false.
    intros Heq. apply Hy. rewrite <- Heq. by apply list_elem_of_fmap_2.
  - intros Hk. rewrite str_eq_false; [cbn [negb]; f_equal; by apply IH|].
    intros Heq. apply Hy. rewrite Heq.
    apply list_elem_of_fmap_2. by eapply list_elem_of_lookup_2.
Qed.

(** The collection after an update that succeeded, by what [findIndex]
    gives. *)
Lemma handleEdit_body (note : ref) (t q a e : jsstring) st :
  validate (trim t) (trim q) (trim a) (trim e) = None ->
  existsb
    (fun n : Note =>
       str_eq (Title n) (trim t) && negb (str_eq (id n) (id (deref st note))))
    (records st) = false ->
  let st0 := showLoading Updating (emit TitleErrorHidden st) in
  handleEdit note t q a e st =
  match withRetry
          (updateDoc (id (deref st note))
             (TextUpdate (trim t) (trim q) (trim a) (trim e))) 0 st0 with
  | (Return _, st1) =>
      let st2 :=
        match findIndex (fun n : Note => str_eq (id n) (id (deref st1 note)))
                (records st1) with
        | Some index =>
            let updated :=
              merge (deref st1 (notesData st1 !!! index))
                (trim t) (trim q) (trim a) (trim e) in
            let st2 :=
              set_notesData (<[index := length (heap st1)]> (notesData st1))
                (set_heap (heap st1 ++ [updated]) st1) in
            saveToLocalStorage (records st2) st2
        | None => st1
        end in
      renderListContent (closeModal (hideLoading st2))
  | (Throw error, st1) =>
      hideLoading (showError E005 (emit (ConsoleError error) st1))
  end.
Proof.
  intros Hvalid Hfree st0. unfold handleEdit. cbv zeta. rewrite Hvalid.
  change (records (emit TitleErrorHidden st)) with (records st).
  change (deref (emit TitleErrorHidden st) note) with (deref st note).
  by rewrite Hfree.
Qed.

(** X11: when the titles stay different.  The titles of the collection
    being pairwise different at the start of a call, they still are at
    its end for a call of [handleRegister], [handleDelete] or
    [handleMissMark] that runs from its start to its end with no other
    handler in between, whatever its inputs and however its remote call
    ends, and for such a call of [handleEdit] when the ids are pairwise
    different too.  Such a call of [handleRegister] or [handleEdit] is its
    part before the [await], [withRetry], and its part after the [await],
    one after the other.  Other handlers can run during the [await], and
    the part after it reads the collection as it is then: on a collection
    with different titles the part of [handleRegister] that follows a
    successful [addDoc] leaves different titles exactly when no note has
    the title of the new note at that time, and the part of [handleEdit]
    that follows a successful [updateDoc] does, the ids being different,
    exactly when the edited note is no longer in the collection or no
    other note has the new title at that time; after a failed remote call
    both leave the collection as it is.  So the check made before the
    [await] protects the titles only if no handler writes in between. *)
Theorem titles_stay_unique st :
  well_formed st -> unique_titles st ->
  (forall t q a e, unique_titles (handleRegister t q a e st).2) /\
  (forall (note : ref) t q a e,
     unique_ids st -> unique_titles (handleEdit note t q a e st)) /\
  (forall (note : ref) input, unique_titles (handleDelete note input st)) /\
  (forall note : ref, unique_titles (handleMissMark note st)) /\
  (forall t q a e,
     handleRegister t q a e st =
     match handleRegister_called t q a e st with
     | inl ended => ended
     | inr (newNote, st0) =>
         let call := withRetry (addDoc newNote) 0 st0 in
         handleRegister_resumed newNote call.1 call.2
     end) /\
  (forall (note : ref) t q a e,
     handleEdit note t q a e st =
     match handleEdit_called note t q a e st with
     | inl ended => ended
     | inr (i, updatedData, st0) =>
         let call := withRetry (updateDoc i updatedData) 0 st0 in
         handleEdit_resumed note (trim t) (trim q) (trim a) (trim e)
           call.1 call.2
     end) /\
  (forall newNote docRef_id,
     unique_titles (handleRegister_resumed newNote (Return docRef_id) st).2
     <-> Title newNote ∉ (fun n : Note => Title n) <$> records st) /\
  (forall newNote error,
     records (handleRegister_resumed newNote (Throw error) st).2 =
     records st) /\
  (forall (note : ref) t q a e v,
     unique_ids st ->
     (unique_titles (handleEdit_resumed note t q a e (Return v) st)
      <-> (id (deref st note) ∉ id <$> records st \/
           forall n : Note,
             n ∈ records st -> Title n = t -> id n = id (deref st note)))) /\
  (forall (note : ref) t q a e error,
     records (handleEdit_resumed note t q a e (Throw error) st) =
     records st).
Proof.
  intros Hwf Huniq.
  assert (forall st', notesData st' = notesData st -> heap st' = heap st ->
                      unique_titles st') as Hsame_titles.
  { intros st' Hn Hh. unfold unique_titles, records, deref in *.
    by rewrite Hn, Hh. }
  split_and!.
  - intros t q a e. unfold handleRegister. cbv zeta.
    destruct (validate _ _ _ _); [by apply Hsame_titles|].
    change (records (emit TitleErrorHidden st)) with (records st).
    destruct (existsb _ (records st)) eqn:Hfree; [by apply Hsame_titles|].
    set (st0 := showLoading Registering (emit TitleErrorHidden st)).
    change (currentUser st0) with (currentUser st).
    destruct (currentUser st) as [u|]; [|by apply Hsame_titles].
    set (operation := addDoc _).
    pose proof (withRetry_same_data operation 0 st0) as Hsame.
    destruct (withRetry operation 0 st0) as [[v|err] st1]; cbn [snd] in *;
      [|apply Hsame_titles; apply Hsame].
    assert (well_formed st1) as Hwf1.
    { apply (well_formed_same_data st0); [done|].
      by apply (well_formed_same st). }
    unfold unique_titles.
    change (records (renderListContent (closeModal (hideLoading
              (saveToLocalStorage ?x ?y))))) with (records y).
    rewrite records_push by done.
    assert (records st1 = records st) as ->.
    { transitivity (records st0); [|done]. by apply same_data_records. }
    rewrite fmap_app. apply list.NoDup_app. split; [done|]. split.
    + intros title (n & -> & Hn)%list_elem_of_fmap. simpl.
      intros Heq%list_elem_of_singleton.
      pose proof (existsb_false_elem _ _ n Hfree Hn) as Hne. simpl in Hne.
      by rewrite str_eq_true in Hne.
    + apply NoDup_singleton.
  - intros note t q a e Hids.
    destruct (validate (trim t) (trim q) (trim a) (trim e)) eqn:Hvalid.
    { unfold handleEdit. cbv zeta. rewrite Hvalid. by apply Hsame_titles. }
    destruct (existsb
                (fun n : Note =>
                   str_eq (Title n) (trim t)
                   && negb (str_eq (id n) (id (deref st note))))
                (records st)) eqn:Hfree.
    { unfold handleEdit. cbv zeta. rewrite Hvalid.
      change (records (emit TitleErrorHidden st)) with (records st).
      change (deref (emit TitleErrorHidden st) note) with (deref st note).
      rewrite Hfree. by apply Hsame_titles. }
    rewrite handleEdit_body by done. cbv zeta.
    set (st0 := showLoading Updating (emit TitleErrorHidden st)).
    set (operation := updateDoc _ _).
    pose proof (withRetry_same_data operation 0 st0) as Hsame.
    destruct (withRetry operation 0 st0) as [[v|err] st1]; cbn [snd] in *;
      [|apply Hsame_titles; apply Hsame].
    assert (well_formed st1) as Hwf1.
    { apply (well_formed_same_data st0); [done|].
      by apply (well_formed_same st). }
    assert (records st1 = records st) as Hrec.
    { transitivity (records st0); [|done]. by apply same_data_records. }
    assert (deref st1 note = deref st note) as ->.
    { transitivity (deref st0 note); [|done]. by apply same_data_deref. }
    rewrite Hrec.
    destruct (findIndex _ (records st)) as [index|] eqn:Hfind;
      [|apply Hsame_titles; apply Hsame].
    unfold unique_titles.
    change (records (renderListContent (closeModal (hideLoading
              (saveToLocalStorage ?x ?y))))) with (records y).
    rewrite records_replace by done. rewrite Hrec, list_fmap_insert.
    cbn [merge data Title].
    apply NoDup_insert_fresh; [done|].
    intros j title Hj Hlook Htitle. subst title.
    rewrite list_lookup_fmap in Hlook.
    destruct (records st !! j) as [n|] eqn:Hn; [|done].
    injection Hlook as Htitle.
    pose proof (existsb_false_elem _ _ n Hfree
                  ltac:(by eapply list_elem_of_lookup_2)) as Hother.
    simpl in Hother. rewrite str_eq_true in Hother by done.
    apply negb_false_iff, str_eq_spec in Hother.
    apply findIndex_Some in Hfind as (x & Hx & Hid%str_eq_spec & _).
    apply Hj. eapply (NoDup_lookup (id <$> records st)); [exact Hids| |].
    + by rewrite list_lookup_fmap, Hn.
    + rewrite list_lookup_fmap, Hx. simpl. by rewrite Hid, Hother.
  - intros note input. unfold handleDelete. cbv zeta.
    destruct (negb _); [by apply Hsame_titles|].
    set (st0 := showLoading Deleting (emit DeleteErrorHidden st)).
    set (operation := deleteDoc _).
    pose proof (withRetry_same_data operation 0 st0) as Hsame.
    destruct (withRetry operation 0 st0) as [[v|err] st1]; cbn [snd] in *;
      [|apply Hsame_titles; apply Hsame].
    unfold unique_titles.
    change (records (renderListContent (closeModal (hideLoading
              (saveToLocalStorage ?x ?y))))) with (records y).
    rewrite (records_filter st1
               (fun n => negb (str_eq (id n) (id (deref st1 note))))).
    apply NoDup_fmap_filter.
    assert (records st1 = records st) as ->; [|done].
    transitivity (records st0); [|done]. by apply same_data_records.
  - intros note. unfold handleMissMark.
    destruct (missMarkUsed st); [done|]. cbv zeta.
    set (armed := set_missMarkUsed true _). set (operation := updateDoc _ _).
    pose proof (withRetry_same_data operation 0 armed) as Hsame.
    destruct (withRetry operation 0 armed) as [[v|err] st1]; cbn [snd] in *;
      [|apply Hsame_titles; apply Hsame].
    destruct (findIndex _ _) as [index|];
      [|apply Hsame_titles; apply Hsame].
    unfold unique_titles.
    change (records (saveToLocalStorage ?x ?y)) with (records y).
    rewrite fmap_records_miss by done.
    assert (records st1 = records st) as ->; [|done].
    transitivity (records armed); [|done]. by apply same_data_records.
  - intros t q a e. unfold handleRegister, handleRegister_called. cbv zeta.
    destruct (validate _ _ _ _); [done|].
    destruct (existsb _ _); [done|].
    destruct (currentUser _); [|done].
    by destruct (withRetry _ 0 _) as [[docRef_id|error] st1].
  - intros note t q a e. unfold handleEdit, handleEdit_called. cbv zeta.
    destruct (validate _ _ _ _); [done|].
    destruct (existsb _ _); [done|].
    by destruct (withRetry _ 0 _) as [[v|error] st1].
  - intros newNote docRef_id. unfold unique_titles, handleRegister_resumed.
    cbv zeta. cbn [snd].
    change (records (renderListContent (closeModal (hideLoading
              (saveToLocalStorage ?x ?y))))) with (records y).
    rewrite records_push by done. rewrite fmap_app. simpl.
    rewrite list.NoDup_app. split.
    + intros (_ & Hfresh & _) Hin. apply (Hfresh _ Hin). by left.
    + intros Hfresh. split; [done|]. split; [|apply NoDup_singleton].
      by intros title Hin ->%list_elem_of_singleton.
  - done.
  - intros note t q a e v Hids. unfold unique_titles, handleEdit_resumed.
    cbv zeta.
    destruct (findIndex _ (records st)) as [index|] eqn:Hfind.
    + apply findIndex_Some in Hfind as (x & Hx & Hid%str_eq_spec & _).
      change (records (renderListContent (closeModal (hideLoading
                (saveToLocalStorage ?x ?y))))) with (records y).
      rewrite records_replace by done. rewrite list_fmap_insert.
      cbn [merge data Title]. split.
      * intros Hnd. right. intros n (j & Hn)%list_elem_of_lookup_1 Htitle.
        destruct (decide (j = index)) as [->|Hj]; [congruence|].
        exfalso. apply Hj.
        apply (NoDup_lookup _ j index t Hnd).
        -- rewrite list_lookup_insert_ne by done.
           by rewrite list_lookup_fmap, Hn, <- Htitle.
        -- apply list_lookup_insert_eq. rewrite length_fmap.
           by eapply lookup_lt_Some.
      * intros [Hgone|Hfree].
        { exfalso. apply Hgone. rewrite <- Hid.
          apply list_elem_of_fmap_2. by eapply list_elem_of_lookup_2. }
        apply NoDup_insert_fresh; [done|].
        intros j title Hj Hlook ->. rewrite list_lookup_fmap in Hlook.
        destruct (records st !! j) as [n|] eqn:Hn; [|done].
        injection Hlook as Htitle. apply Hj.
        eapply (NoDup_lookup (id <$> records st)); [exact Hids| |].
        -- by rewrite list_lookup_fmap, Hn.
        -- rewrite list_lookup_fmap, Hx. simpl. rewrite Hid.
           f_equal. symmetry. apply Hfree; [|done].
           by eapply list_elem_of_lookup_2.
    + split; [|done]. intros _. left.
      intros (n & Heq & Hn)%list_elem_of_fmap.
      pose proof (findIndex_None _ _ n Hfind Hn) as Hne. simpl in Hne.
      by rewrite str_eq_true in Hne.
  - done.
Qed.

(** X12: no two notes get the same id.  When the ids of the collection are
    pairwise different, they still are after [handleEdit], [handleDelete]
    and [handleMissMark], whatever the inputs and however the remote call
    ends, and after [handleRegister] when the id of the note that it adds,
    if it adds one, is not the id of a note of the collection. *)
Theorem ids_stay_unique st :
  well_formed st -> unique_ids st ->
  (forall (note : ref) t q a e, unique_ids (handleEdit note t q a e st)) /\
  (forall (note : ref) input, unique_ids (handleDelete note input st)) /\
  (forall note : ref, unique_ids (handleMissMark note st)) /\
  (forall t q a e,
     (forall n : Note,
        records (handleRegister t q a e st).2 = records st ++ [n] ->
        id n ∉ id <$> records st) ->
     unique_ids (handleRegister t q a e st).2).
Proof.
  intros Hwf Huniq.
  split; [|split; [|split]].
  - intros note t q a e. unfold handleEdit. cbv zeta.
    destruct (validate _ _ _ _); [by apply (unique_ids_same st)|].
    destruct (existsb _ _); [by apply (unique_ids_same st)|].
    set (st0 := showLoading Updating (emit TitleErrorHidden st)).
    set (operation := updateDoc _ _).
    pose proof (withRetry_same_data operation 0 st0) as Hsame.
    destruct (withRetry operation 0 st0) as [[v|err] st1]; cbn [snd] in *;
      [|apply (unique_ids_same st); [apply Hsame..|done]].
    assert (well_formed st1) as Hwf1.
    { apply (well_formed_same_data st0); [done|].
      by apply (well_formed_same st). }
    assert (unique_ids st1) as Huniq1.
    { apply (unique_ids_same st); [apply Hsame..|done]. }
    destruct (findIndex _ (records st1)) as [index|] eqn:Hfind; [|done].
    unfold unique_ids.
    change (records (renderListContent (closeModal (hideLoading
              (saveToLocalStorage ?x ?y))))) with (records y).
    rewrite records_replace by done. rewrite list_fmap_insert.
    cbn [merge id].
    apply findIndex_Some in Hfind as (x & Hx & _).
    assert (deref st1 (notesData st1 !!! index) = x) as ->.
    { unfold records in Hx. rewrite list_lookup_fmap in Hx.
      destruct (notesData st1 !! index) as [r|] eqn:Hr; [|done].
      rewrite (list_lookup_total_correct _ _ _ Hr). by injection Hx. }
    rewrite list_insert_id; [done|]. by rewrite list_lookup_fmap, Hx.
  - intros note input. unfold handleDelete. cbv zeta.
    destruct (negb _); [by apply (unique_ids_same st)|].
    set (st0 := showLoading Deleting (emit DeleteErrorHidden st)).
    set (operation := deleteDoc _).
    pose proof (withRetry_same_data operation 0 st0) as Hsame.
    destruct (withRetry operation 0 st0) as [[v|err] st1]; cbn [snd] in *;
      [|apply (unique_ids_same st); [apply Hsame..|done]].
    unfold unique_ids.
    change (records (renderListContent (closeModal (hideLoading
              (saveToLocalStorage ?x ?y))))) with (records y).
    rewrite (records_filter st1
               (fun n => negb (str_eq (id n) (id (deref st1 note))))).
    apply NoDup_fmap_filter.
    assert (records st1 = records st) as ->; [|done].
    transitivity (records st0); [|done]. by apply same_data_records.
  - intros note. by apply handleMissMark_unique_ids.
  - intros t q a e. unfold handleRegister. cbv zeta.
    destruct (validate _ _ _ _); [intros _; by apply (unique_ids_same st)|].
    destruct (existsb _ _); [intros _; by apply (unique_ids_same st)|].
    set (st0 := showLoading Registering (emit TitleErrorHidden st)).
    change (currentUser st0) with (currentUser st).
    destruct (currentUser st) as [u|];
      [|intros _; by apply (unique_ids_same st)].
    set (operation := addDoc _).
    pose proof (withRetry_same_data operation 0 st0) as Hsame.
    destruct (withRetry operation 0 st0) as [[v|err] st1]; cbn [snd] in *;
      [|intros _; apply (unique_ids_same st); [apply Hsame..|done]].
    assert (well_formed st1) as Hwf1.
    { apply (well_formed_same_data st0); [done|].
      by apply (well_formed_same st). }
    unfold unique_ids.
    change (records (renderListContent (closeModal (hideLoading
              (saveToLocalStorage ?x ?y))))) with (records y).
    rewrite records_push by done.
    assert (records st1 = records st) as ->.
    { transitivity (records st0); [|done]. by apply same_data_records. }
    intros Hfresh. rewrite fmap_app. apply list.NoDup_app. split; [done|]. split.
    + intros i Hi Heq%list_elem_of_singleton. subst i.
      by apply (Hfresh _ eq_refl).
    + apply NoDup_singleton.
Qed.

(** ** Editing and deleting one note of a collection with unique ids *)





(** ** The random page *)

Lemma draw_not_current fuel (availableNotes : list ref) st w (r : ref) w' :
  draw fuel availableNotes st w = Some (r, w') ->
  is_current (id (deref st r)) (currentProblemId st) = false.
Proof.
  revert w. induction fuel as [|fuel IH]; intros w; [done|].
  simpl. destruct (random_below _ w) as [k w1].
  set (randomNote := availableNotes !!! _).
  destruct (is_current (id (deref st randomNote)) (currentProblemId st))
    eqn:Hcur; [by apply IH|].
  by intros [= <- <-].
Qed.

(** The call that shows a problem: the problem is one of the unused
    notes, and the state is the one that [present] makes. *)
Lemma renderRandomPage_problem fuel st (shown : ref) st' :
  renderRandomPage fuel st = Some (Some shown, st') ->
  let availableNotes :=
    List.filter
      (fun r => negb (existsb (str_eq (id (deref st r))) (usedProblemIds st)))
      (notesData st) in
  shown ∈ availableNotes /\
  (2 <= length availableNotes ->
   is_current (id (deref st shown)) (currentProblemId st) = false) /\
  exists w, st' = present shown (set_world w st).
Proof.
  intros Hshown availableNotes.
  unfold renderRandomPage in Hshown.
  destruct (notesData st) as [|r0 l0] eqn:Hnotes; [done|].
  fold availableNotes in Hshown.
  destruct availableNotes as [|r1 [|r2 l]] eqn:Havail; [done| |].
  - injection Hshown as <- <-. split; [by left|].
    split; [simpl; lia|]. exists (world st). by destruct st.
  - destruct (draw fuel (r1 :: r2 :: l) st (world st)) as [[r w]|] eqn:Hdraw;
      [|done].
    simpl in Hshown. injection Hshown as <- <-.
    split; [by eapply draw_elem|]. split; [|by exists w].
    intros _. by eapply draw_not_current.
Qed.

(** X15: the problem that [renderRandomPage] shows.  It is a note of the
    collection whose id is not among the ids already used; its id becomes
    the current one and is added at the end of the used ids, which so
    stay free of repetitions; the guard of the miss mark is cleared; and
    when two notes or more were still unused, the problem is not the one
    that was on display. *)
Theorem renderRandomPage_fresh fuel st (shown : ref) st' :
  renderRandomPage fuel st = Some (Some shown, st') ->
  let i := id (deref st shown) in
  let availableNotes :=
    List.filter
      (fun r => negb (existsb (str_eq (id (deref st r))) (usedProblemIds st)))
      (notesData st) in
  shown ∈ notesData st /\
  (i ∉ usedProblemIds st) /\
  usedProblemIds st' = usedProblemIds st ++ [i] /\
  currentProblemId st' = Some i /\
  missMarkUsed st' = false /\
  (NoDup (usedProblemIds st) -> NoDup (usedProblemIds st')) /\
  (2 <= length availableNotes -> currentProblemId st <> Some i) /\
  effects st' = effects st ++ [ProblemRendered shown].
Proof.
  intros Hshown i availableNotes.
  destruct (renderRandomPage_problem _ _ _ _ Hshown)
    as (Havail & Hcur & w & ->).
  apply list_elem_of_In, filter_In in Havail as [Hin Hfresh].
  apply list_elem_of_In in Hin. apply not_used in Hfresh.
  unfold present. reduce_state.
  change (deref (set_world w st) shown) with (deref st shown). fold i.
  split; [done|]. split; [done|]. split; [done|]. split; [done|].
  split; [done|]. split; [|split; [|done]].
  - intros Hnodup. apply list.NoDup_app. split; [done|]. split.
    + by intros x Hx ->%list_elem_of_singleton.
    + apply NoDup_singleton.
  - intros Htwo Heq. specialize (Hcur Htwo). fold i in Hcur.
    rewrite Heq in Hcur. simpl in Hcur. by rewrite str_eq_true in Hcur.
Qed.

(** A collection whose notes have all been used. *)
Lemma renderRandomPage_all_used fuel st :
  notesData st <> [] ->
  (forall r : ref, r ∈ notesData st ->
                   id (deref st r) ∈ usedProblemIds st) ->
  renderRandomPage fuel st =
  Some (None, emit CompleteRendered (set_usedProblemIds [] st)).
Proof.
  unfold renderRandomPage.
  intros Hne Hused. destruct (notesData st) as [|r0 l0] eqn:Hnotes; [done|].
  rewrite <- Hnotes.
  assert (List.filter
            (fun r => negb (existsb (str_eq (id (deref st r)))
                              (usedProblemIds st)))
            (notesData st) = []) as ->; [|done].
  rewrite <- Hnotes in Hused. clear Hnotes Hne.
  induction (notesData st) as [|r l IH]; [done|]. cbn [List.filter].
  assert (negb (existsb (str_eq (id (deref st r))) (usedProblemIds st))
          = false) as ->.
  { apply not_true_iff_false. intros Hout%not_used. apply Hout, Hused.
    by left. }
  apply IH. intros r' Hr'. apply Hused. by right.
Qed.

(** X16: when [renderRandomPage] shows no problem.  On an empty collection
    it shows the page for that and changes nothing else.  On a collection
    whose notes have all been used it shows the closing page and empties
    the used ids, so that the next call starts over.  In no other case
    does it return without a problem. *)
Theorem renderRandomPage_without_problem fuel st :
  (notesData st = [] ->
   renderRandomPage fuel st = Some (None, emit EmptyRendered st)) /\
  (notesData st <> [] ->
   (forall r : ref, r ∈ notesData st ->
                    id (deref st r) ∈ usedProblemIds st) ->
   renderRandomPage fuel st =
   Some (None, emit CompleteRendered (set_usedProblemIds [] st))) /\
  (forall st', renderRandomPage fuel st = Some (None, st') ->
     notesData st = [] \/
     forall r : ref, r ∈ notesData st ->
                     id (deref st r) ∈ usedProblemIds st).
Proof.
  split; [unfold renderRandomPage; by intros ->|]. split.
  - apply renderRandomPage_all_used.
  - unfold renderRandomPage.
    intros st'. destruct (notesData st) as [|r0 l0] eqn:Hnotes; [by left|].
    rewrite <- Hnotes.
    destruct (List.filter _ (notesData st)) as [|r1 [|r2 l]] eqn:Havail.
    + intros _. right. intros r Hr.
      destruct (decide (id (deref st r) ∈ usedProblemIds st)) as [|Hout];
        [done|].
      assert (In r []) as []. rewrite <- Havail. apply filter_In.
      split; [by apply list_elem_of_In|]. by apply not_used.
    + done.
    + by destruct (draw _ _ _ _) as [[r w]|].
Qed.

Lemma next_problems_run fuel k st (shown : list ref) st' :
  next_problems fuel k st = Some (shown, st') ->
  length shown = k /\
  notesData st' = notesData st /\ heap st' = heap st /\
  usedProblemIds st' =
    usedProblemIds st ++ ((fun r => id (deref st r)) <$> shown) /\
  Forall (fun r => r ∈ notesData st) shown /\
  (NoDup (usedProblemIds st) -> NoDup (usedProblemIds st')).
Proof.
  revert st shown st'. induction k as [|k IH]; intros st shown st'.
  { intros [= <- <-]. simpl. by rewrite app_nil_r. }
  cbn [next_problems].
  destruct (renderRandomPage fuel st) as [[[r|] st1]|] eqn:Hrender; [|done..].
  cbn [mbind option_bind].
  destruct (next_problems fuel k st1) as [[rs st2]|] eqn:Hnext; [|done].
  cbn [mbind option_bind]. intros [= <- <-].
  destruct (renderRandomPage_resets _ _ _ _ Hrender)
    as (_ & _ & Hnotes1 & Hheap1).
  destruct (renderRandomPage_problem _ _ _ _ Hrender)
    as (Havail & _ & w & Hst1).
  apply list_elem_of_In, filter_In in Havail as [Hin Hfresh].
  apply list_elem_of_In in Hin. apply not_used in Hfresh.
  assert (usedProblemIds st1 = usedProblemIds st ++ [id (deref st r)])
    as Hused1 by by rewrite Hst1.
  destruct (IH _ _ _ Hnext) as (Hlen & Hnotes & Hheap & Hused & Hall & Hnodup).
  split; [by rewrite <- Hlen|].
  split; [by rewrite Hnotes|]. split; [by rewrite Hheap|].
  split; [|split].
  - rewrite Hused, Hused1. csimpl. rewrite <- app_assoc. simpl.
    unfold deref. by rewrite Hheap1.
  - constructor; [done|]. by rewrite <- Hnotes1.
  - intros Hnodup0. apply Hnodup. rewrite Hused1.
    apply list.NoDup_app. split; [done|]. split.
    + by intros x Hx ->%list_elem_of_singleton.
    + apply NoDup_singleton.
Qed.

(** X17: one round of the random page.  On a collection of [n] notes with
    unique ids and no id used yet, [n] presses of the button for the next
    problem that each show a problem show every note of the collection
    exactly once; the used ids are then the ids of the notes in the order
    shown, and the next call of [renderRandomPage] shows the closing page
    and empties the used ids. *)
Theorem renderRandomPage_round fuel st (shown : list ref) st' :
  unique_ids st ->
  usedProblemIds st = [] ->
  notesData st <> [] ->
  next_problems fuel (length (notesData st)) st = Some (shown, st') ->
  shown ≡ₚ notesData st /\
  usedProblemIds st' = (fun r => id (deref st r)) <$> shown /\
  renderRandomPage fuel st' =
    Some (None, emit CompleteRendered (set_usedProblemIds [] st')).
Proof.
  intros Huniq Hfresh Hne Hrun.
  destruct (next_problems_run _ _ _ _ _ Hrun)
    as (Hlen & Hnotes & Hheap & Hused & Hall & Hnodup).
  rewrite Hfresh in Hused, Hnodup. simpl in Hused.
  specialize (Hnodup (NoDup_nil_2 (A:=jsstring))).
  assert (NoDup (notesData st)) as Hnd.
  { unfold unique_ids, records in Huniq.
    by apply NoDup_fmap_1, NoDup_fmap_1 in Huniq. }
  assert (shown ≡ₚ notesData st) as Hperm.
  { apply submseteq_length_Permutation; [|lia].
    apply NoDup_submseteq.
    - rewrite Hused in Hnodup. by apply NoDup_fmap_1 in Hnodup.
    - intros r Hr. rewrite List.Forall_forall in Hall.
      by apply Hall, list_elem_of_In. }
  split; [done|]. split; [done|].
  apply renderRandomPage_all_used.
  - by rewrite Hnotes.
  - intros r Hr. rewrite Hnotes, <- Hperm in Hr. rewrite Hused.
    unfold deref. rewrite Hheap.
    by apply (list_elem_of_fmap_2 (fun r => id (heap st !!! r))).
Qed.

End Further.

(** ** Titles with white space around them *)

Lemma trimStart_split (s : jsstring) :
  exists space,
    s = space ++ trimStart s /\
    Forall (fun c => is_js_whitespace c = true) space.
Proof.
  induction s as [|c s (space & Hs & Hspace)]; [by exists []|].
  cbn [trimStart]. destruct (is_js_whitespace c) eqn:Hc.
  - exists (c :: space). split; [by rewrite <- app_comm_cons, <- Hs|].
    by constructor.
  - by exists [].
Qed.

Lemma trimStart_head (s : jsstring) c rest :
  trimStart s = c :: rest -> is_js_whitespace c = false.
Proof.
  induction s as [|c' s IH]; [done|]. cbn [trimStart].
  destruct (is_js_whitespace c') eqn:Hc; [done|]. by intros [= <- _].
Qed.

Lemma trimStart_fixed (s : jsstring) :
  match s with [] => True | c :: _ => is_js_whitespace c = false end ->
  trimStart s = s.
Proof. destruct s as [|c s]; [done|]. cbn [trimStart]. by intros ->. Qed.

Lemma trimStart_idempotent (s : jsstring) :
  trimStart (trimStart s) = trimStart s.
Proof.
  apply trimStart_fixed. destruct (trimStart s) as [|c rest] eqn:Hs; [done|].
  by eapply trimStart_head.
Qed.

(** [trim] changes nothing in what it returns. *)
Lemma trim_idempotent (s : jsstring) : trim (trim s) = trim s.
Proof.
  unfold trim, trimEnd.
  set (a := trimStart s). set (t := trimStart (rev a)).
  assert (trimStart (rev t) = rev t) as ->.
  { apply trimStart_fixed.
    destruct (trimStart_split (rev a)) as (space & Hsplit & _). fold t in Hsplit.
    assert (a = rev t ++ rev space) as Ha.
    { rewrite <- rev_app_distr, <- Hsplit. by rewrite rev_involutive. }
    destruct (rev t) as [|c rest] eqn:Hrev; [done|].
    apply (trimStart_head s c (rest ++ rev space)). fold a. by rewrite Ha. }
  rewrite rev_involutive. subst t. by rewrite trimStart_idempotent.
Qed.

Section Deleting.

Context {World : Type} `{Host World}.

(** X30: a note whose title has white space at its start or at its end
    cannot be deleted.  [handleRegister] and [handleEdit] store trimmed
    titles, but a note that the remote store or the mirror gave may have
    such a title; [handleDelete] trims the confirmation and compares it
    with the title as it is, so every confirmation is refused with E009
    and no remote call is made. *)
Theorem handleDelete_untrimmed_title (note : ref) (st : State World) :
  trim (Title (deref st note)) <> Title (deref st note) ->
  forall input : jsstring,
    handleDelete note input st =
    showError E009 (emit DeleteErrorShown (emit DeleteErrorHidden st)).
Proof.
  intros Hspace input. unfold handleDelete. cbv zeta.
  change (deref (emit DeleteErrorHidden st) note) with (deref st note).
  rewrite str_eq_false; [done|].
  intros Heq. apply Hspace. by rewrite <- Heq, trim_idempotent.
Qed.

End Deleting.

(** ** Escaping *)

Lemma count_unit_app (c : N) (s1 s2 : jsstring) :
  count_unit c (s1 ++ s2) = count_unit c s1 + count_unit c s2.
Proof. unfold count_unit. by rewrite List.filter_app, length_app. Qed.

(** The code units of the literals of a goal. *)
Ltac show_units :=
  repeat match goal with
         | |- context [js ?x] =>
             let v := eval vm_compute in (js x) in change (js x) with v
         end.

Lemma text_innerHTML_cons (c : N) (s : jsstring) :
  text_innerHTML (c :: s) = escaped_unit c ++ text_innerHTML s.
Proof. done. Qed.

Lemma escaped_unit_cases (c : N) :
  (c = 38%N /\ escaped_unit c = js "&amp;") \/
  (c = 160%N /\ escaped_unit c = js "&nbsp;") \/
  (c = 60%N /\ escaped_unit c = js "&lt;") \/
  (c = 62%N /\ escaped_unit c = js "&gt;") \/
  (c <> 38%N /\ c <> 160%N /\ c <> 60%N /\ c <> 62%N /\
   escaped_unit c = [c]).
Proof.
  unfold escaped_unit.
  destruct (N.eqb_spec c 38); [by left|].
  destruct (N.eqb_spec c 160); [by right; left|].
  destruct (N.eqb_spec c 60); [by right; right; left|].
  destruct (N.eqb_spec c 62); [by right; right; right; left|].
  by right; right; right; right.
Qed.

Lemma text_innerHTML_injective (s1 s2 : jsstring) :
  text_innerHTML s1 = text_innerHTML s2 -> s1 = s2.
Proof.
  revert s2. induction s1 as [|c1 s1 IH]; intros [|c2 s2].
  - done.
  - rewrite text_innerHTML_cons.
    by destruct (escaped_unit_cases c2)
      as [[_ ->]|[[_ ->]|[[_ ->]|[[_ ->]|(_&_&_&_& ->)]]]].
  - rewrite text_innerHTML_cons.
    by destruct (escaped_unit_cases c1)
      as [[_ ->]|[[_ ->]|[[_ ->]|[[_ ->]|(_&_&_&_& ->)]]]].
  - rewrite !text_innerHTML_cons.
    destruct (escaped_unit_cases c1)
      as [[-> ->]|[[-> ->]|[[-> ->]|[[-> ->]|(?&?&?&?& ->)]]]];
      destruct (escaped_unit_cases c2)
        as [[-> ->]|[[-> ->]|[[-> ->]|[[-> ->]|(?&?&?&?& ->)]]]];
      show_units; cbn [app]; intros Heq; try discriminate Heq.
    all: try (injection Heq as Heq; f_equal; by apply IH).
    all: try (injection Heq as ? Heq; congruence).
    injection Heq as -> Heq. f_equal. by apply IH.
Qed.

(** X18: what [escapeHtml] does to a text.  The result has no less-than
    and no greater-than sign, so it holds no tag; texts that differ give
    results that differ; a text without ampersand, angle bracket and
    no-break space comes back as it is.  The quotation marks are not
    escaped: the result has as many double and single quotes as the
    text. *)
Theorem escapeHtml_text (s : jsstring) :
  let html := escapeHtml (Some s) in
  (60%N ∉ html) /\ (62%N ∉ html) /\
  count_unit 34 html = count_unit 34 s /\
  count_unit 39 html = count_unit 39 s /\
  (forall s', escapeHtml (Some s') = html -> s' = s) /\
  (Forall (fun c => c <> 38 /\ c <> 160 /\ c <> 60 /\ c <> 62)%N s ->
   html = s).
Proof.
  cbv zeta. cbn [escapeHtml].
  split; [|split; [|split; [|split; [|split]]]].
  - induction s as [|c s IH]; [by intros ?%elem_of_nil|].
    rewrite text_innerHTML_cons. intros [Hin|Hin]%elem_of_app; [|done].
    destruct (escaped_unit_cases c)
      as [[_ Hc]|[[_ Hc]|[[_ Hc]|[[_ Hc]|(?&?&?&?& Hc)]]]];
      rewrite Hc in Hin; vm_compute in Hin;
      repeat (apply elem_of_cons in Hin as [Hin|Hin]; [done|]);
      by apply elem_of_nil in Hin.
  - induction s as [|c s IH]; [by intros ?%elem_of_nil|].
    rewrite text_innerHTML_cons. intros [Hin|Hin]%elem_of_app; [|done].
    destruct (escaped_unit_cases c)
      as [[_ Hc]|[[_ Hc]|[[_ Hc]|[[_ Hc]|(?&?&?&?& Hc)]]]];
      rewrite Hc in Hin; vm_compute in Hin;
      repeat (apply elem_of_cons in Hin as [Hin|Hin]; [done|]);
      by apply elem_of_nil in Hin.
  - induction s as [|c s IH]; [done|].
    rewrite text_innerHTML_cons, count_unit_app, IH.
    change (c :: s) with ([c] ++ s). rewrite (count_unit_app _ [c]).
    f_equal.
    by destruct (escaped_unit_cases c)
      as [[-> ->]|[[-> ->]|[[-> ->]|[[-> ->]|(?&?&?&?& ->)]]]].
  - induction s as [|c s IH]; [done|].
    rewrite text_innerHTML_cons, count_unit_app, IH.
    change (c :: s) with ([c] ++ s). rewrite (count_unit_app _ [c]).
    f_equal.
    by destruct (escaped_unit_cases c)
      as [[-> ->]|[[-> ->]|[[-> ->]|[[-> ->]|(?&?&?&?& ->)]]]].
  - intros s'. apply text_innerHTML_injective.
  - induction 1 as [|c s (?&?&?&?) _ IH]; [done|].
    rewrite text_innerHTML_cons, IH.
    by destruct (escaped_unit_cases c)
      as [[? _]|[[? _]|[[? _]|[[? _]|(_&_&_&_& ->)]]]].
Qed.

(** ** The order of the list *)

Lemma sort_insert_Permutation {A} (compare : A -> A -> Z) (x : A)
    (sorted : list A) :
  sort_insert compare x sorted ≡ₚ x :: sorted.
Proof.
  induction sorted as [|y sorted IH]; [done|]. cbn [sort_insert].
  destruct (compare x y <=? 0)%Z; [done|].
  rewrite IH. apply Permutation_swap.
Qed.

Lemma Array_sort_Permutation {A} (compare : A -> A -> Z) (l : list A) :
  Array_sort compare l ≡ₚ l.
Proof.
  induction l as [|x l IH]; [done|]. cbn [Array_sort].
  by rewrite sort_insert_Permutation, IH.
Qed.

(** X19: [sortedData] of [renderListContent] holds the notes of the
    collection, each as often as the collection does, whatever the key and
    whatever the host makes of dates and titles; and with a key that is
    none of 'date', 'title' and 'miss' the notes are in the order of the
    collection. *)
Theorem sortedData_same_notes `{Locale} (sortBy : jsstring)
    (notes : list Note) :
  sortedData sortBy notes ≡ₚ notes /\
  length (sortedData sortBy notes) = length notes /\
  (sortBy <> js "date" /\ sortBy <> js "title" /\ sortBy <> js "miss" ->
   sortedData sortBy notes = notes).
Proof.
  unfold sortedData. split; [apply Array_sort_Permutation|].
  split; [by rewrite Array_sort_Permutation|].
  intros (Hdate & Htitle & Hmiss).
  induction notes as [|n notes IH]; [done|]. cbn [Array_sort]. rewrite IH.
  destruct notes as [|n' notes]; [done|]. cbn [sort_insert].
  unfold compare_notes. by rewrite !str_eq_false.
Qed.

Lemma sort_insert_filter {A} (compare : A -> A -> Z) (p : A -> bool) (x : A)
    (sorted : list A) :
  (forall y, p x = true -> p y = true -> (compare x y <=? 0)%Z = true) ->
  List.filter p (sort_insert compare x sorted) =
  List.filter p (x :: sorted).
Proof.
  intros Hlevel. induction sorted as [|y sorted IH]; [done|].
  cbn [sort_insert]. destruct (compare x y <=? 0)%Z eqn:Hcmp; [done|].
  cbn [List.filter] in *. rewrite IH.
  destruct (p x) eqn:Hx; [|done]. destruct (p y) eqn:Hy; [|done].
  by rewrite Hlevel in Hcmp.
Qed.

(** X20: the list sorted by misses.  With the key 'miss', [sortedData] has
    the notes in the order of their miss counts, the highest first, and
    notes with the same count are in the order in which the collection has
    them. *)
Theorem sortedData_by_miss `{Locale} (notes : list Note) :
  let sorted := sortedData (js "miss") notes in
  StronglySorted (fun a b : Note => (MissCount b <= MissCount a)%Z) sorted /\
  forall m : Z,
    List.filter (fun n : Note => (MissCount n =? m)%Z) sorted =
    List.filter (fun n : Note => (MissCount n =? m)%Z) notes.
Proof.
  cbv zeta. unfold sortedData.
  assert (forall a b : Note,
            compare_notes (js "miss") a b = (MissCount b - MissCount a)%Z)
    as Hcompare by done.
  split.
  - induction notes as [|n notes IH]; [constructor|]. cbn [Array_sort].
    set (sorted := Array_sort _ notes) in *. clearbody sorted.
    induction sorted as [|y sorted IHs]; [by repeat constructor|].
    cbn [sort_insert]. rewrite Hcompare.
    apply StronglySorted_inv in IH as [Hsorted Hy].
    destruct (MissCount y - MissCount n <=? 0)%Z eqn:Hcmp.
    + apply Z.leb_le in Hcmp. constructor; [by constructor|].
      constructor; [lia|].
      eapply List.Forall_impl; [|exact Hy]. intros z Hz. simpl in *. lia.
    + apply Z.leb_gt in Hcmp. constructor; [by apply IHs|].
      rewrite List.Forall_forall. intros z Hz.
      apply list_elem_of_In in Hz.
      rewrite sort_insert_Permutation in Hz.
      apply elem_of_cons in Hz as [->|Hz]; [lia|].
      rewrite List.Forall_forall in Hy. by apply Hy, list_elem_of_In.
  - intros m. induction notes as [|n notes IH]; [done|]. cbn [Array_sort].
    rewrite sort_insert_filter.
    + cbn [List.filter]. by rewrite IH.
    + intros y Hn%Z.eqb_eq Hy%Z.eqb_eq. rewrite Hcompare.
      apply Z.leb_le. lia.
Qed.

(** ** The modal window *)

Lemma keydown_closed handlers answers (m : Modal.Window) :
  Modal.isModalOpen m = false -> Modal.keydown handlers answers m = m.
Proof.
  intros Hclosed. revert answers.
  induction handlers as [|handlers IH]; intros answers; [done|].
  cbn [Modal.keydown]. by rewrite Hclosed.
Qed.

Lemma keydown_declined handlers answers (m : Modal.Window) :
  Modal.isModalOpen m = true -> Modal.hasUnsavedChanges m = true ->
  Forall (fun answer => answer = false) answers ->
  Modal.keydown handlers answers m =
  Modal.mkWindow true true (Modal.modalContent m)
    (Modal.escHandlers m - handlers).
Proof.
  revert answers m.
  induction handlers as [|handlers IH]; intros answers m Hopen Hchanged Hno.
  { destruct m; simpl in *. subst. by rewrite Nat.sub_0_r. }
  cbn [Modal.keydown]. rewrite Hopen, Hchanged.
  assert (List.hd false answers = false) as ->.
  { destruct Hno; [done|]. done. }
  unfold Modal.closeModal. rewrite Hopen, Hchanged. cbn [negb andb].
  rewrite IH; cbn [Modal.isModalOpen Modal.hasUnsavedChanges
                   Modal.modalContent Modal.escHandlers]; try done.
  - f_equal. lia.
  - destruct Hno; [constructor|done].
Qed.

(** X21: the window and what the user has typed.  A window with unsaved
    changes is an open one, and [openModal], [closeModal], an input and
    the Escape key keep it so.  [closeModal(true)] closes whatever the
    window holds, and the [openModal] that follows shows its content with
    no unsaved change; [openModal] on an open window changes nothing: the
    content stays and so do the unsaved changes.  Without [force], a
    window with unsaved changes stays as it is when the user declines. *)
Theorem modal_window (m : Modal.Window) :
  Modal.consistent m ->
  (forall content, Modal.consistent (Modal.openModal content m)) /\
  (forall force confirm,
     Modal.consistent (Modal.closeModal force confirm m)) /\
  Modal.consistent (Modal.input m) /\
  (forall answers, Modal.consistent (Modal.pressEscape answers m)) /\
  (forall confirm content,
     let m' := Modal.openModal content (Modal.closeModal true confirm m) in
     Modal.isModalOpen m' = true /\ Modal.hasUnsavedChanges m' = false /\
     Modal.modalContent m' = content) /\
  (forall content,
     Modal.isModalOpen m = true -> Modal.openModal content m = m) /\
  (Modal.hasUnsavedChanges m = true ->
   Modal.closeModal false false m = m).
Proof.
  intros Hm. unfold Modal.consistent in *.
  assert (forall handlers answers m0,
            (Modal.hasUnsavedChanges m0 = true ->
             Modal.isModalOpen m0 = true) ->
            Modal.hasUnsavedChanges (Modal.keydown handlers answers m0)
              = true ->
            Modal.isModalOpen (Modal.keydown handlers answers m0) = true)
    as Hkeys.
  { induction handlers as [|handlers IH]; intros answers m0 Hm0; [done|].
    cbn [Modal.keydown]. destruct (Modal.isModalOpen m0) eqn:Hopen.
    - apply IH. unfold Modal.closeModal. rewrite Hopen. cbn [negb].
      destruct (Modal.hasUnsavedChanges m0) eqn:Hchanged;
        destruct (List.hd false answers); cbn; intros; congruence.
    - apply IH. by rewrite Hopen. }
  split; [|split; [|split; [|split; [|split; [|split]]]]].
  - intros content. destruct m as [[] [] text handlers]; cbn in *; auto.
  - intros force confirm.
    destruct m as [[] [] text handlers], force, confirm; cbn in *; auto.
  - destruct m as [[] [] text handlers]; cbn in *; auto.
  - intros answers. by apply Hkeys.
  - intros confirm content.
    by destruct m as [[] [] text handlers], confirm.
  - intros content Hopen. unfold Modal.openModal. by rewrite Hopen.
  - intros Hchanged. unfold Modal.closeModal.
    by rewrite (Hm Hchanged), Hchanged.
Qed.

(** X22: the Escape key after the user has declined.  Every listener that
    sees Escape on an open window calls [closeModal()] and takes itself
    off the document, whether the window was closed or not.  So on a
    window with unsaved changes, when the user declines every dialog, the
    window stays open with its changes and no listener is left: from then
    on the Escape key does nothing, whatever the user would answer. *)
Theorem pressEscape_declined (m : Modal.Window) (answers : list bool) :
  Modal.isModalOpen m = true ->
  Modal.hasUnsavedChanges m = true ->
  Forall (fun answer => answer = false) answers ->
  let m' := Modal.pressEscape answers m in
  m' = Modal.mkWindow true true (Modal.modalContent m) 0 /\
  forall answers', Modal.pressEscape answers' m' = m'.
Proof.
  intros Hopen Hchanged Hno m'. subst m'. unfold Modal.pressEscape.
  rewrite keydown_declined by done. rewrite Nat.sub_diag.
  split; [done|]. by intros answers'.
Qed.

(** ** The router and the session *)

Section Session.

Context {World : Type} `{Host World} `{Auth World}.

Implicit Types (st : State World) (p : Page World).

Ltac reduce_state :=
  cbn [showError showLoading hideLoading closeModal renderListContent emit
       set_notesData set_retryBlocked set_usedProblemIds set_currentProblemId
       set_missMarkUsed set_heap set_localStorage set_world set_currentUser
       saveToLocalStorage clearLocalStorage
       currentUser notesData retryBlocked usedProblemIds currentProblemId
       missMarkUsed heap localStorage world effects fst snd
       vars currentPage history view set_vars set_view set_currentPage
       pushState renderLoginPage].

Tactic Notation "reduce_state" "in" hyp(H) :=
  cbn [showError showLoading hideLoading closeModal renderListContent emit
       set_notesData set_retryBlocked set_usedProblemIds set_currentProblemId
       set_missMarkUsed set_heap set_localStorage set_world set_currentUser
       saveToLocalStorage clearLocalStorage
       currentUser notesData retryBlocked usedProblemIds currentProblemId
       missMarkUsed heap localStorage world effects fst snd
       vars currentPage history view set_vars set_view set_currentPage
       pushState renderLoginPage] in H.

(** [renderPage] as the source writes it. *)
Lemma renderPage_body fuel p :
  renderPage fuel p =
  let closed := set_vars (closeModal (vars p)) p in
  if signed_out (vars p) && negb (str_eq (currentPage p) (js "login"))
  then renderPage fuel
         (pushState (js "login") (set_currentPage (js "login") closed))
  else match route (currentPage p) with
       | to_login => Some (renderLoginPage closed)
       | to_list =>
           match renderListPage (closeModal (vars p)) with
           | Some (Return _, st) => Some (set_view ListView (set_vars st p))
           | Some (Throw _, st) => Some (set_vars st p)
           | None => None
           end
       | to_random =>
           match renderRandomPage fuel (closeModal (vars p)) with
           | Some (_, st) => Some (set_view RandomView (set_vars st p))
           | None => None
           end
       | to_default =>
           renderPage fuel
             (pushState (js "login") (set_currentPage (js "login") closed))
       end.
Proof.
  simp renderPage.
  destruct (inspect (signed_out (vars p)
                     && negb (str_eq (currentPage p) (js "login"))))
    as [[] Hguard].
  - match goal with |- ?l = _ => set (lhs := l) end.
    cbv zeta. rewrite Hguard. reflexivity.
  - cbn [renderPage_unfold_clause_1].
    destruct (inspect (route (currentPage p))) as [[] Hroute];
      match goal with |- ?l = _ => set (lhs := l) end;
      cbv zeta; rewrite Hguard, Hroute; reflexivity.
Qed.

Lemma renderPage_login fuel p :
  currentPage p = js "login" ->
  renderPage fuel p = Some (renderLoginPage (set_vars (closeModal (vars p)) p)).
Proof.
  intros Hpage. rewrite renderPage_body. cbv zeta. rewrite Hpage.
  change (str_eq (js "login") (js "login")) with true.
  by rewrite andb_false_r.
Qed.

Lemma route_page (page : jsstring) :
  match route page with
  | to_login => page = js "login"
  | to_list => page = js "list"
  | to_random => page = js "random"
  | to_default => True
  end.
Proof.
  unfold route.
  destruct (str_eq page (js "login")) eqn:Hlogin; [by apply str_eq_spec|].
  destruct (str_eq page (js "list")) eqn:Hlist; [by apply str_eq_spec|].
  destruct (str_eq page (js "random")) eqn:Hrandom; [by apply str_eq_spec|].
  done.
Qed.

Lemma renderListPage_user st result st' :
  renderListPage st = Some (result, st') -> currentUser st' = currentUser st.
Proof.
  unfold renderListPage. cbv zeta.
  assert (currentUser (loadNotesFromFirestore (showLoading LoadingData st)).2
          = currentUser st) as Hload.
  { unfold loadNotesFromFirestore.
    change (currentUser (showLoading LoadingData st)) with (currentUser st).
    destruct (currentUser st) as [u|] eqn:Huser; [|done].
    pose proof (withRetry_same_data (getDocs u) 0
                  (showLoading LoadingData st)) as Hsame.
    destruct (withRetry (getDocs u) 0 (showLoading LoadingData st))
      as [[v|e] st1]; cbn [snd] in *.
    - unfold adopt. reduce_state. rewrite <- Huser. apply Hsame.
    - rewrite <- Huser. apply Hsame. }
  destruct (loadNotesFromFirestore (showLoading LoadingData st))
    as [[v|e] st1]; cbn [snd] in *.
  - by intros [= <- <-].
  - destruct (getFromLocalStorage _) as [value|e']; [|by intros [= <- <-]].
    destruct (notes_of_json value) as [notes|]; [|done].
    simpl. by intros [= <- <-].
Qed.

Lemma renderRandomPage_user fuel st shown st' :
  renderRandomPage fuel st = Some (shown, st') ->
  currentUser st' = currentUser st.
Proof.
  unfold renderRandomPage. destruct (notesData st) as [|r0 l0].
  { by intros [= <- <-]. }
  destruct (List.filter _ _) as [|r1 [|r2 l]].
  - by intros [= <- <-].
  - by intros [= <- <-].
  - destruct (draw _ _ _ _) as [[r w]|]; [|done]. simpl.
    by intros [= <- <-].
Qed.

(** X23: the page guard.  While no user is signed in, [renderPage] ends
    on the login page whatever [currentPage] says: the login view is
    shown, [currentPage] is 'login' (pushed to the history when it was
    another page), and nothing is asked of the remote store: the world,
    the collection, the mirror and the breaker are as before. *)
Theorem renderPage_signed_out fuel p :
  currentUser (vars p) = None ->
  exists p',
    renderPage fuel p = Some p' /\
    currentPage p' = js "login" /\ view p' = LoginView /\
    same_data (vars p) (vars p') /\
    world (vars p') = world (vars p) /\
    retryBlocked (vars p') = retryBlocked (vars p) /\
    count_effect Invoked (effects (vars p')) =
      count_effect Invoked (effects (vars p)) /\
    (currentPage p = js "login" -> history p' = history p) /\
    (currentPage p <> js "login" -> history p' = history p ++ [js "login"]).
Proof.
  intros Hout. rewrite renderPage_body. cbv zeta.
  unfold signed_out. rewrite Hout. cbn [andb].
  destruct (str_eq (currentPage p) (js "login")) eqn:Hpage; cbn [negb].
  - apply str_eq_spec in Hpage. rewrite Hpage.
    change (route (js "login")) with to_login.
    eexists. split; [done|]. reduce_state.
    repeat split; try done.
    rewrite count_effect_app. change (count_effect Invoked [ModalClosed]) with 0.
    lia.
  - rewrite renderPage_login by done.
    eexists. split; [done|]. reduce_state.
    repeat split; try done.
    + rewrite !count_effect_app.
      change (count_effect Invoked [ModalClosed]) with 0. lia.
    + intros Heq. rewrite Heq in Hpage. done.
Qed.

Lemma renderPage_known fuel p p' :
  renderPage fuel p = Some p' ->
  currentUser (vars p') = currentUser (vars p) /\
  (currentPage p' = js "login" \/ currentPage p' = js "list" \/
   currentPage p' = js "random") /\
  (currentPage p' <> js "login" ->
   currentUser (vars p') <> None /\ currentPage p' = currentPage p /\
   history p' = history p).
Proof.
  rewrite renderPage_body. cbv zeta.
  destruct (signed_out (vars p)
            && negb (str_eq (currentPage p) (js "login"))) eqn:Hguard.
  { rewrite renderPage_login by done. intros [= <-]. reduce_state.
    split; [done|]. split; [by left|]. done. }
  pose proof (route_page (currentPage p)) as Hroute.
  assert (currentPage p <> js "login" -> currentUser (vars p) <> None)
    as Hin.
  { intros Hpage Hnone. unfold signed_out in Hguard. rewrite Hnone in Hguard.
    by rewrite str_eq_false in Hguard. }
  destruct (route (currentPage p)).
  - intros [= <-]. reduce_state. split; [done|]. split; [by left|]. done.
  - destruct (renderListPage (closeModal (vars p)))
      as [[[v|e] st]|] eqn:Hlist; [| |done].
    + intros [= <-]. reduce_state.
      rewrite (renderListPage_user _ _ _ Hlist).
      split; [done|]. split; [by right; left|].
      intros _. split; [|done]. apply Hin. by rewrite Hroute.
    + intros [= <-]. reduce_state.
      rewrite (renderListPage_user _ _ _ Hlist).
      split; [done|]. split; [by right; left|].
      intros _. split; [|done]. apply Hin. by rewrite Hroute.
  - destruct (renderRandomPage fuel (closeModal (vars p)))
      as [[shown st]|] eqn:Hrandom; [|done].
    intros [= <-]. reduce_state.
    rewrite (renderRandomPage_user _ _ _ _ Hrandom).
    split; [done|]. split; [by right; right|].
    intros _. split; [|done]. apply Hin. by rewrite Hroute.
  - rewrite renderPage_login by done. intros [= <-]. reduce_state.
    split; [done|]. split; [by left|]. done.
Qed.

(** X24: where the router can end.  After [renderPage], and so after
    [navigateTo] with any page name, after [init] with any hash and after
    a [popstate] event with any page name, [currentPage] is 'login', 'list'
    or 'random'; and when it is not 'login', a user is signed in. *)
Theorem router_lands fuel p :
  let lands p' :=
    (currentPage p' = js "login" \/ currentPage p' = js "list" \/
     currentPage p' = js "random") /\
    (currentPage p' <> js "login" -> currentUser (vars p') <> None) in
  (forall p', renderPage fuel p = Some p' -> lands p') /\
  (forall page p', navigateTo page fuel p = Some p' -> lands p') /\
  (forall hash p', init hash fuel p = Some p' -> lands p') /\
  (forall page p', page <> [] ->
     popstate (Some page) fuel p = Some p' -> lands p').
Proof.
  intros lands.
  assert (forall p0 p', renderPage fuel p0 = Some p' -> lands p') as Hlands.
  { intros p0 p' Hp'.
    destruct (renderPage_known _ _ _ Hp') as (_ & Hpage & Huser).
    split; [done|]. intros Hne. by apply Huser. }
  split; [apply Hlands|]. split; [|split].
  - intros page p'. apply Hlands.
  - intros hash p'. apply Hlands.
  - intros page p' Hpage. unfold popstate. rewrite falsy_false by done.
    apply Hlands.
Qed.

(** With a user and the breaker clear, the list page asks the remote
    store. *)
Lemma renderListPage_invokes st (u : jsstring) result st' :
  currentUser st = Some u -> retryBlocked st = false ->
  renderListPage st = Some (result, st') ->
  exists added,
    effects st' = effects st ++ ShowLoading LoadingData :: Invoked :: added.
Proof.
  intros Huser Hclear. unfold renderListPage. cbv zeta.
  unfold loadNotesFromFirestore.
  change (currentUser (showLoading LoadingData st)) with (currentUser st).
  rewrite Huser.
  destruct (withRetry_invokes (getDocs u) 0 (showLoading LoadingData st)
              Hclear) as [added Hadded].
  destruct (withRetry (getDocs u) 0 (showLoading LoadingData st))
    as [[v|e] st1]; cbn [snd] in Hadded; reduce_state in Hadded.
  - intros [= <- <-]. unfold adopt. reduce_state. rewrite Hadded.
    rewrite <- !app_assoc. by eexists.
  - destruct (getFromLocalStorage _) as [value|e'].
    + destruct (notes_of_json value) as [notes|]; [|done]. simpl.
      intros [= <- <-]. unfold adopt. reduce_state. rewrite Hadded.
      rewrite <- !app_assoc. by eexists.
    + intros [= <- <-]. reduce_state. rewrite Hadded.
      rewrite <- !app_assoc. by eexists.
Qed.

(** X25: the listener of the authentication state, when a user has signed
    in.  It clears the breaker before it renders: what it does is the same
    whether the breaker was set or not.  The user is the current one
    afterwards; and from the login page it goes to the list page, whose
    query is sent to the remote store even if the breaker was set. *)
Theorem authStateChanged_signed_in (u : jsstring) fuel p :
  (forall b,
     authStateChanged (Some u) fuel
       (set_vars (set_retryBlocked b (vars p)) p) =
     authStateChanged (Some u) fuel p) /\
  (forall p', authStateChanged (Some u) fuel p = Some p' ->
     currentUser (vars p') = Some u) /\
  (currentPage p = js "login" ->
   forall p', authStateChanged (Some u) fuel p = Some p' ->
     currentPage p' = js "list" /\
     history p' = history p ++ [js "list"] /\
     exists added,
       effects (vars p') =
       effects (vars p) ++
       HideLoading :: ModalClosed :: ShowLoading LoadingData :: Invoked
       :: added).
Proof.
  split; [done|]. split.
  - intros p'. unfold authStateChanged. cbv zeta. reduce_state.
    destruct (str_eq (currentPage p) (js "login")); unfold navigateTo;
      intros Hp'; destruct (renderPage_known _ _ _ Hp') as (Huser & _);
      by rewrite Huser.
  - intros Hpage p'. unfold authStateChanged. cbv zeta. reduce_state.
    rewrite Hpage. change (str_eq (js "login") (js "login")) with true.
    unfold navigateTo. rewrite renderPage_body. cbv zeta. reduce_state.
    change (route (js "list")) with to_list.
    cbn [signed_out currentUser andb].
    destruct (renderListPage _) as [[[v|e] st]|] eqn:Hlist; [| |done].
    + intros [= <-]. reduce_state. split; [done|]. split; [done|].
      apply (renderListPage_invokes _ u) in Hlist as [added ->];
        [|done..].
      reduce_state. rewrite <- !app_assoc. by eexists.
    + intros [= <-]. reduce_state. split; [done|]. split; [done|].
      apply (renderListPage_invokes _ u) in Hlist as [added ->];
        [|done..].
      reduce_state. rewrite <- !app_assoc. by eexists.
Qed.

(** X26: the listener of the authentication state, when the user is
    signed out.  It always ends on the login page, with no current user
    and with nothing under the key of the mirror.  It makes no remote
    call; the breaker is as it was, and so is the collection in memory,
    which only [handleLogout] empties. *)
Theorem authStateChanged_signed_out fuel p :
  exists p',
    authStateChanged None fuel p = Some p' /\
    currentUser (vars p') = None /\
    localStorage (vars p') = None /\
    currentPage p' = js "login" /\ view p' = LoginView /\
    history p' = history p ++ [js "login"] /\
    notesData (vars p') = notesData (vars p) /\
    heap (vars p') = heap (vars p) /\
    retryBlocked (vars p') = retryBlocked (vars p) /\
    world (vars p') = world (vars p) /\
    effects (vars p') = effects (vars p) ++ [HideLoading; ModalClosed].
Proof.
  unfold authStateChanged, navigateTo. cbv zeta.
  rewrite renderPage_login by done.
  eexists. split; [done|]. reduce_state.
  repeat split; try done. by rewrite <- app_assoc.
Qed.

(** X27: [handleLogout].  When [signOut] succeeds, the mirror is cleared,
    there is no current user, the collection, the used ids and the current
    problem are emptied, and the page is the login page.  When it fails,
    the page logs the error, shows E002 and hides the overlay; the user,
    the collection and the mirror are as before and the page is not left.
    With the breaker set it always fails, without asking the remote store:
    the user cannot sign out. *)
Theorem handleLogout_outcomes fuel p :
  let call := withRetry signOut 0 (showLoading LoggingOut (vars p)) in
  (forall v, call.1 = Return v ->
     exists p',
       handleLogout fuel p = Some p' /\
       currentUser (vars p') = None /\
       notesData (vars p') = [] /\
       usedProblemIds (vars p') = [] /\
       currentProblemId (vars p') = None /\
       localStorage (vars p') = None /\
       currentPage p' = js "login" /\ view p' = LoginView /\
       effects (vars p') = effects call.2 ++ [HideLoading; ModalClosed]) /\
  (forall error, call.1 = Throw error ->
     handleLogout fuel p =
       Some (set_vars
               (hideLoading
                  (showError E002 (emit (ConsoleError error) call.2)))
               p) /\
     same_data (vars p) call.2) /\
  (retryBlocked (vars p) = true ->
   handleLogout fuel p =
     Some (set_vars
             (hideLoading
                (showError E002
                   (emit (ConsoleError (Error (js "Retry blocked")))
                      (showError E011 (showLoading LoggingOut (vars p))))))
             p)).
Proof.
  intros call. split; [|split].
  - intros v Hcall. unfold handleLogout. cbv zeta. fold call.
    destruct call as [[u|e] st1]; cbn [fst snd] in *; [|done].
    unfold navigateTo. rewrite renderPage_login by done.
    eexists. split; [done|]. reduce_state.
    repeat split; try done. by rewrite <- app_assoc.
  - intros error Hcall. unfold handleLogout. cbv zeta.
    pose proof (withRetry_same_data signOut 0
                  (showLoading LoggingOut (vars p))) as Hsame.
    fold call in Hsame |- *.
    destruct call as [[u|e] st1]; cbn [fst snd] in *; [done|].
    injection Hcall as ->. split; [done|].
    eapply same_data_trans; [|exact Hsame]. by repeat split.
  - intros Hblocked. unfold handleLogout. cbv zeta.
    rewrite withRetry_body.
    change (retryBlocked (showLoading LoggingOut (vars p)))
      with (retryBlocked (vars p)).
    by rewrite Hblocked.
Qed.

(** X28: [handleGoogleLogin].  It never sets the current user: that is
    left to the listener of the authentication state.  When the sign-in
    does not succeed it logs the error, shows E001 and hides the overlay,
    and the data are as before.  With the breaker set it always ends so,
    without opening the sign-in window, and the breaker stays set: a user
    who is signed out cannot sign in until the page is loaded again. *)
Theorem handleGoogleLogin_outcomes st :
  let call := withRetry signInWithPopup 0 (showLoading LoggingIn st) in
  same_data st (handleGoogleLogin st) /\
  (forall v, call.1 = Return v -> handleGoogleLogin st = call.2) /\
  (forall error, call.1 = Throw error ->
     handleGoogleLogin st =
     hideLoading (showError E001 (emit (ConsoleError error) call.2))) /\
  (retryBlocked st = true ->
   handleGoogleLogin st =
     hideLoading
       (showError E001
          (emit (ConsoleError (Error (js "Retry blocked")))
             (showError E011 (showLoading LoggingIn st)))) /\
   retryBlocked (handleGoogleLogin st) = true /\
   world (handleGoogleLogin st) = world st).
Proof.
  intros call.
  pose proof (withRetry_same_data signInWithPopup 0
                (showLoading LoggingIn st)) as Hsame.
  split; [|split; [|split]].
  - unfold handleGoogleLogin. cbv zeta.
    destruct (withRetry signInWithPopup 0 (showLoading LoggingIn st))
      as [[u|e] st1]; cbn [snd] in *.
    + eapply same_data_trans; [|exact Hsame]. by repeat split.
    + eapply same_data_trans; [|eapply same_data_trans; [exact Hsame|]];
        by repeat split.
  - intros v Hcall. unfold handleGoogleLogin. cbv zeta. fold call.
    by destruct call as [[u|e] st1].
  - intros error Hcall. unfold handleGoogleLogin. cbv zeta. fold call.
    destruct call as [[u|e] st1]; cbn [fst snd] in *; [done|].
    by injection Hcall as ->.
  - intros Hblocked. unfold handleGoogleLogin. cbv zeta.
    rewrite withRetry_body.
    change (retryBlocked (showLoading LoggingIn st)) with (retryBlocked st).
    by rewrite Hblocked.
Qed.



End Session.

(** * The further properties on the scripted world *)

Import FixtureAuth.

(** A call that hangs once and is then answered. *)
Lemma withRetry_recovers_witness :
  let w := mkNet [Hangs; Answers 120] [(id algebra, data algebra)] [] [] [] in
  let result := withRetry (deleteDoc (js "n1")) 0 (two_notes w) in
  result.1 = Return tt /\
  world result.2 = mkNet [] [] [] [] [] /\
  retryBlocked result.2 = false /\
  same_data (two_notes w) result.2 /\
  effects result.2 =
    effects (two_notes w) ++
    concat (replicate 1 [Invoked; Toast E010; ShowLoading RetryingText]) ++
    [Invoked].
Proof.
  apply (withRetry_recovers (deleteDoc (js "n1"))
           (two_notes
              (mkNet [Hangs; Answers 120] [(id algebra, data algebra)] [] []
                 []))
           1 120 tt (mkNet [] [] [] [] [])).
  - reflexivity.
  - unfold MAX_RETRY. lia.
  - intros [|i] Hi; [exact I|lia].
  - reflexivity.
  - reflexivity.
Defined.

(** A call that hangs once and is then refused. *)
Lemma withRetry_failure_before_last_witness :
  let w := mkNet [Hangs; Refuses 120 permission_denied] [] [] [] [] in
  let result := withRetry (deleteDoc (js "n1")) 0 (two_notes w) in
  result.1 = Throw permission_denied /\
  world result.2 = mkNet [] [] [] [] [] /\
  retryBlocked result.2 = false /\
  effects result.2 =
    effects (two_notes w) ++
    concat (replicate 1 [Invoked; Toast E010; ShowLoading RetryingText]) ++
    [Invoked].
Proof.
  apply (withRetry_failure_before_last (deleteDoc (js "n1"))
           (two_notes
              (mkNet [Hangs; Refuses 120 permission_denied] [] [] [] []))
           1 120 permission_denied (mkNet [] [] [] [] [])).
  - reflexivity.
  - unfold MAX_RETRY. simpl. lia.
  - intros [|i] Hi; [exact I|lia].
  - reflexivity.
  - reflexivity.
  - discriminate.
Defined.


Lemma two_notes_unique_titles w : unique_titles (two_notes w).
Proof. apply (bool_decide_unpack _). by vm_compute. Defined.


Lemma renderListPage_corrupt_mirror_witness :
  exists st' added,
    renderListPage truncated = Some (Throw SyntaxError, st') /\
    same_data truncated st' /\
    effects st' = effects truncated ++ ShowLoading LoadingData :: added /\
    (HideLoading ∉ added) /\ (ListRendered ∉ added).
Proof.
  apply (renderListPage_corrupt_mirror truncated (Error (js "timeout"))
           (take 20 (JSON.stringify (notes_to_json [algebra])))).
  - by vm_compute.
  - reflexivity.
  - by vm_compute.
  - by vm_compute.
Defined.

Lemma renderListPage_nothing_stored_witness :
  exists st',
    renderListPage (start (js "alice") offline) = Some (Return tt, st') /\
    notesData st' = [] /\ records st' = [] /\
    localStorage st' = localStorage (start (js "alice") offline) /\
    exists before, effects st' = before ++ [HideLoading; ListRendered].
Proof.
  apply (renderListPage_nothing_stored (start (js "alice") offline)
           (Error (js "timeout"))).
  - by vm_compute.
  - left. reflexivity.
Defined.

Lemma start_well_formed u w : well_formed (start u w).
Proof. constructor. Defined.


Lemma handleRegister_twice_witness :
  let st1 :=
    (handleRegister (js "Algebra") (js "2 + 2 = ?") (js "4") []
       (start (js "alice") online)).2 in
  let result := handleRegister (js " Algebra  ") (js "1 + 1 = ?") (js "2") [] st1 in
  result =
    (Return tt,
     showError E008 (emit TitleErrorShown (emit TitleErrorHidden st1))) /\
  world result.2 = world st1 /\
  records result.2 = records st1 /\
  length (List.filter (fun n : Note => str_eq (Title n) (trim (js "Algebra")))
            (records result.2)) = 1.
Proof.
  apply (handleRegister_twice (js "Algebra") (js "2 + 2 = ?") (js "4") []
           (js " Algebra  ") (js "1 + 1 = ?") (js "2") []
           (start (js "alice") online) (js "alice") (js "n1")).
  - apply start_well_formed.
  - by vm_compute.
  - by intros n Hn%elem_of_nil.
  - reflexivity.
  - by vm_compute.
  - by vm_compute.
  - by vm_compute.
Defined.

Lemma titles_stay_unique_witness :
  let st1 :=
    (handleRegister (js "Algebra") (js "2 + 2 = ?") (js "4") []
       (start (js "alice") online)).2 in
  let again :=
    mkFields (js "Algebra") (js "2 + 2 = ?") (js "4") []
      (js "2024-01-01T00:00:00.000Z") 0 (js "alice") in
  let other :=
    mkFields (js "Geometry") (js "?") (js "!") []
      (js "2024-01-01T00:00:00.000Z") 0 (js "alice") in
  unique_titles
    (handleEdit 0 (js "Algebra I") (js "2 + 3 = ?") (js "5") (js "sum")
       (two_notes serving)) /\
  unique_titles
    (handleRegister (js "Geometry") (js "?") (js "!") [] (two_notes serving)).2 /\
  (fun n : Note => Title n) <$> records st1 = [js "Algebra"] /\
  ~ unique_titles (handleRegister_resumed again (Return (js "n2")) st1).2 /\
  unique_titles (handleRegister_resumed other (Return (js "n2")) st1).2.
Proof.
  pose proof (titles_stay_unique (two_notes serving)
                (two_notes_well_formed serving)
                (two_notes_unique_titles serving))
    as (Hregister & Hedit & _).
  split; [apply Hedit, two_notes_unique_ids|]. split; [apply Hregister|].
  split; [by vm_compute|].
  assert (well_formed
            (handleRegister (js "Algebra") (js "2 + 2 = ?") (js "4") []
               (start (js "alice") online)).2) as Hwf.
  { apply (bool_decide_unpack _). by vm_compute. }
  assert (unique_titles
            (handleRegister (js "Algebra") (js "2 + 2 = ?") (js "4") []
               (start (js "alice") online)).2) as Huniq.
  { apply (bool_decide_unpack _). by vm_compute. }
  pose proof (titles_stay_unique _ Hwf Huniq)
    as (_ & _ & _ & _ & _ & _ & Hresumed & _).
  split.
  - intros Hafter%Hresumed. apply Hafter. by vm_compute; left.
  - apply Hresumed. apply (bool_decide_unpack _). by vm_compute.
Defined.

Lemma ids_stay_unique_witness :
  unique_ids (handleDelete 0 (js "Algebra") (two_notes serving)) /\
  unique_ids
    (handleEdit 1 (js "Geometry II") (js "?") (js "!") [] (two_notes serving)).
Proof.
  pose proof (ids_stay_unique (two_notes serving)
                (two_notes_well_formed serving)
                (two_notes_unique_ids serving))
    as (Hedit & Hdelete & _).
  split; [apply Hdelete|apply Hedit].
Defined.



Lemma renderRandomPage_fresh_witness :
  let st := two_notes serving in
  let st' := present 1 (set_world (random_below 2 serving).2 st) in
  renderRandomPage 1 st = Some (Some 1, st') /\
  1 ∈ notesData st /\
  (js "n2" ∉ usedProblemIds st) /\
  usedProblemIds st' = [js "n2"] /\
  currentProblemId st' = Some (js "n2") /\
  missMarkUsed st' = false.
Proof.
  assert (renderRandomPage 1 (two_notes serving) =
          Some (Some 1,
                present 1
                  (set_world (random_below 2 serving).2 (two_notes serving))))
    as Hshown by by vm_compute.
  split; [exact Hshown|].
  destruct (renderRandomPage_fresh _ _ _ _ Hshown)
    as (Hin & Hfresh & Hused & Hcurrent & Hguard & _).
  split; [exact Hin|]. split; [exact Hfresh|]. split; [exact Hused|].
  split; [exact Hcurrent|exact Hguard].
Defined.

Lemma renderRandomPage_round_witness :
  let st := two_notes serving in
  let st' := (default ([], st) (next_problems 1 2 st)).2 in
  next_problems 1 2 st = Some ([1; 0], st') /\
  [1; 0] ≡ₚ notesData st /\
  usedProblemIds st' = [js "n2"; js "n1"] /\
  renderRandomPage 1 st' =
    Some (None, emit CompleteRendered (set_usedProblemIds [] st')).
Proof.
  assert (next_problems 1 2 (two_notes serving) =
          Some ([1; 0],
                (default ([], two_notes serving)
                   (next_problems 1 2 (two_notes serving))).2))
    as Hrun by by vm_compute.
  split; [exact Hrun|].
  apply (renderRandomPage_round 1 (two_notes serving) [1; 0]).
  - apply two_notes_unique_ids.
  - reflexivity.
  - discriminate.
  - exact Hrun.
Defined.

Lemma modal_window_witness :
  let m := Modal.input (Modal.openModal (js "<form>") Modal.initial) in
  Modal.consistent (Modal.pressEscape [false] m) /\
  Modal.closeModal false false m = m /\
  Modal.openModal (js "<p>") m = m.
Proof.
  pose proof (modal_window
                (Modal.input (Modal.openModal (js "<form>") Modal.initial))
                (fun _ => eq_refl))
    as (_ & _ & _ & Hkeys & _ & Hopen & Hkeep).
  split; [apply Hkeys|]. split; [by apply Hkeep|by apply Hopen].
Defined.

Lemma pressEscape_declined_witness :
  let m := Modal.input (Modal.openModal (js "<form>") Modal.initial) in
  let m' := Modal.pressEscape [false] m in
  m' = Modal.mkWindow true true (js "<form>") 0 /\
  forall answers', Modal.pressEscape answers' m' = m'.
Proof.
  apply (pressEscape_declined
           (Modal.input (Modal.openModal (js "<form>") Modal.initial))
           [false]).
  - reflexivity.
  - reflexivity.
  - repeat constructor.
Defined.

Lemma renderPage_signed_out_witness :
  let p := set_currentPage (js "random") (loaded None offline) in
  exists p',
    renderPage 0 p = Some p' /\
    currentPage p' = js "login" /\ view p' = LoginView /\
    same_data (vars p) (vars p') /\
    world (vars p') = world (vars p) /\
    retryBlocked (vars p') = retryBlocked (vars p) /\
    count_effect Invoked (effects (vars p')) =
      count_effect Invoked (effects (vars p)) /\
    (currentPage p = js "login" -> history p' = history p) /\
    (currentPage p <> js "login" -> history p' = history p ++ [js "login"]).
Proof.
  apply (renderPage_signed_out 0
           (set_currentPage (js "random") (loaded None offline))).
  reflexivity.
Defined.


(** A note that another client wrote, with a space after its title. *)
Lemma handleDelete_untrimmed_title_witness :
  let foreign :=
    mkNote (js "n9")
      (mkFields (js "Sets ") (js "?") (js "!") []
         (js "2024-01-04T00:00:00.000Z") 0 (js "alice")) in
  let st :=
    mkState (Some (js "alice")) [0] false [] None false [foreign] None
      serving [] in
  handleDelete 0 (js "Sets ") st =
    showError E009 (emit DeleteErrorShown (emit DeleteErrorHidden st)) /\
  handleDelete 0 (js "Sets") st =
    showError E009 (emit DeleteErrorShown (emit DeleteErrorHidden st)).
Proof.
  pose proof (handleDelete_untrimmed_title 0
                (mkState (Some (js "alice")) [0] false [] None false
                   [mkNote (js "n9")
                      (mkFields (js "Sets ") (js "?") (js "!") []
                         (js "2024-01-04T00:00:00.000Z") 0 (js "alice"))]
                   None serving [])
                ltac:(by vm_compute)) as Hrefused.
  split; apply Hrefused.
Defined.

(** ** Further runs of the program *)

Example escapeHtml_example :
  escapeHtml (Some (js "<b title='x'>A & B</b>")) =
  js "&lt;b title='x'&gt;A &amp; B&lt;/b&gt;".
Proof. by vm_compute. Qed.

(** Two notes with two misses: the one that comes first in the collection
    comes first in the list. *)
Example sortedData_example :
  sortedData (js "miss") [algebra; geometry; with_MissCount 2 algebra] =
  [geometry; with_MissCount 2 algebra; algebra].
Proof. by vm_compute. Qed.

(** The page is opened at '#list' with nobody signed in; Alice signs in,
    and signs out. *)
Example sign_in_then_out :
  let p0 := loaded None patient in
  let p1 := default p0 (init (js "list") 1 p0) in
  let p2 := default p1 (authStateChanged (Some (js "alice")) 1 p1) in
  let p3 := default p2 (handleLogout 1 p2) in
  init (js "list") 1 p0 = Some p1 /\
  currentPage p1 = js "login" /\ view p1 = LoginView /\
  authStateChanged (Some (js "alice")) 1 p1 = Some p2 /\
  currentPage p2 = js "list" /\ view p2 = ListView /\
  records (vars p2) = [algebra; geometry] /\
  handleLogout 1 p2 = Some p3 /\
  currentPage p3 = js "login" /\ view p3 = LoginView /\
  currentUser (vars p3) = None /\ records (vars p3) = [] /\
  localStorage (vars p3) = None /\
  history p3 = [js "login"; js "list"; js "login"].
Proof. by vm_compute. Qed.

(** With the breaker set, neither the sign-in window nor the server is
    reached. *)
Example blocked_session :
  let st := set_retryBlocked true (start (js "alice") patient) in
  world (handleGoogleLogin st) = patient /\
  effects (handleGoogleLogin st) =
    [ShowLoading LoggingIn; Toast E011;
     ConsoleError (Error (js "Retry blocked")); Toast E001; HideLoading] /\
  (vars <$> handleLogout 1 (mkPage st (js "list") [] ListView)) =
    Some (hideLoading
            (showError E002
               (emit (ConsoleError (Error (js "Retry blocked")))
                  (showError E011 (showLoading LoggingOut st))))).
Proof. by vm_compute. Qed.

(** A form is opened and closed with its button, another one is opened and
    typed in: two listeners wait for Escape, and the user who declines is
    asked twice. *)
(** Two registrations of the same title in flight together: the second
    is called before the first has written, both pass the check of the
    title, and the collection and the store end with two notes of that
    title. *)
Example register_same_title_in_flight :
  let st := start (js "alice") online in
  let inputs := (js "Algebra", js "2 + 2 = ?", js "4", js "sum") in
  exists st',
    handleRegister_in_flight_twice inputs inputs st = Some st' /\
    (fun n : Note => Title n) <$> records st' = [js "Algebra"; js "Algebra"] /\
    id <$> records st' = [js "n1"; js "n2"] /\
    (fun d => Title d.2) <$> documents (world st') =
      [js "Algebra"; js "Algebra"] /\
    count_effect (Toast E008) (effects st') = 0 /\
    unique_titles st /\ ~ unique_titles st'.
Proof.
  eexists. split; [by vm_compute|]. repeat split; try by vm_compute.
  - apply (bool_decide_unpack _). by vm_compute.
  - intros Hnd. apply (bool_decide_pack _) in Hnd. by vm_compute in Hnd.
Qed.

Example escape_listeners :
  let m1 := Modal.closeModal false true
              (Modal.openModal (js "<form>") Modal.initial) in
  let m2 := Modal.input (Modal.openModal (js "<form>") m1) in
  Modal.escHandlers m2 = 2 /\
  Modal.pressEscape [false; true] m2 =
    Modal.mkWindow false false [] 0 /\
  Modal.pressEscape [false; false] m2 =
    Modal.mkWindow true true (js "<form>") 0.
Proof. by vm_compute. Qed.
